(** * go-lz4: block encoder, streaming encoder and streaming decoder

    A shallow embedding of [writer.go] (block [Encode]), [lz4/writer.go]
    (streaming [encode1]) and [reader.go] (streaming [decode1]).

    Conventions of the embedding:
    - a Go [uint32], [uint16] or [byte] is a [Z] reduced explicitly with
      [u32], [u16], [u8] wherever Go's arithmetic wraps around; a Go [int]
      is an unbounded [Z] (every [int] of the program is a length or a
      [uint32] plus a small constant);
    - a run of Go code either completes, panics (index or slice bounds out
      of range) or, for the loops whose trip count is not syntactic, runs
      out of the fuel the model gives them: type [run];
    - a Go [error] is an [option error], [None] being [nil];
    - an [io.ByteReader] is the list of the bytes still to come together
      with the error the source reports once they are exhausted; a failed
      [ReadByte] returns the zero byte, as [bufio.Reader] does;
    - the output sink ([bufio.Writer] over the pipe) is the list of the
      bytes written so far and never fails. *)

From Stdlib Require Import ZArith List Lia Bool.
Import ListNotations.
Local Open Scope Z_scope.

(** ** Machine arithmetic *)

Definition u8 (z : Z) : Z := z mod 256.
Definition u16 (z : Z) : Z := z mod 65536.
Definition u32 (z : Z) : Z := z mod 4294967296.

(** ** Outcomes of a run *)

Inductive run (A : Type) : Type :=
| Done (a : A)
| Panic
| OutOfFuel.
Arguments Done {A} a.
Arguments Panic {A}.
Arguments OutOfFuel {A}.

Definition bind {A B : Type} (c : run A) (k : A -> run B) : run B :=
  match c with
  | Done a => k a
  | Panic => Panic
  | OutOfFuel => OutOfFuel
  end.

Notation "x <- c1 ;; c2" := (bind c1 (fun x => c2))
  (at level 61, c1 at next level, right associativity).
Notation "' pat <- c1 ;; c2" := (bind c1 (fun x => match x with pat => c2 end))
  (at level 61, pat pattern, c1 at next level, right associativity).

(** ** Errors, byte sources, byte lists used as arrays *)

Inductive error : Type :=
| EOF                 (* io.EOF / os.EOF *)
| ErrTooLarge         (* writer.go: errors.New("input too large") *)
| ErrSource (n : Z).  (* any other failure reported by the byte source *)

Definition error_eqb (a b : error) : bool :=
  match a, b with
  | EOF, EOF => true
  | ErrTooLarge, ErrTooLarge => true
  | ErrSource n, ErrSource m => n =? m
  | _, _ => false
  end.

Record byteReader : Type := mkReader {
  rd_data : list Z;   (* the bytes still to come *)
  rd_fail : error     (* what ReadByte reports once they are exhausted *)
}.

Definition ReadByte (r : byteReader) : Z * option error * byteReader :=
  match rd_data r with
  | b :: t => (b, None, mkReader t (rd_fail r))
  | [] => (0, Some (rd_fail r), r)
  end.

(** Go's [len] on a list used as an array. *)
Definition len {A : Type} (l : list A) : Z := Z.of_nat (length l).

(** [a[i]] with Go's bounds check. *)
Definition index (a : list Z) (i : Z) : run Z :=
  if (0 <=? i) && (i <? len a) then Done (nth (Z.to_nat i) a 0) else Panic.

Fixpoint set_nth {A : Type} (a : list A) (n : nat) (v : A) : list A :=
  match a, n with
  | [], _ => []
  | _ :: t, O => v :: t
  | x :: t, S k => x :: set_nth t k v
  end.

(** [a[i] = v] with Go's bounds check. *)
Definition store (a : list Z) (i v : Z) : run (list Z) :=
  if (0 <=? i) && (i <? len a) then Done (set_nth a (Z.to_nat i) v) else Panic.

(** The bytes of [a[lo:hi]], with Go's check [0 <= lo <= hi <= cap(a)]
    (these arrays have their capacity equal to their length). *)
Definition sub (a : list Z) (lo hi : Z) : run (list Z) :=
  if (0 <=? lo) && (lo <=? hi) && (hi <=? len a)
  then Done (firstn (Z.to_nat (hi - lo)) (skipn (Z.to_nat lo) a))
  else Panic.

(** The effect on [a] of [copy(a[lo:lo+n'], bytes)] once the slice
    expressions are evaluated: [min] of the two lengths is copied. *)
Definition blit (a : list Z) (lo : Z) (room : Z) (bytes : list Z) : list Z :=
  let k := Nat.min (Z.to_nat room) (length bytes) in
  firstn (Z.to_nat lo) a ++ firstn k bytes ++ skipn (Z.to_nat lo + k) a.

(** * reader.go *)

Module Reader.

Definition mlBits : Z := 4.
Definition mlMask : Z := Z.shiftl 1 mlBits - 1.
Definition runBits : Z := 8 - mlBits.
Definition runMask : Z := Z.shiftl 1 runBits - 1.
Definition bufferSize : Z := Z.shiftl 128 10.
Definition flushSize : Z := Z.shiftl 1 16.

Record decoder : Type := mkDecoder {
  r : byteReader;
  w : list Z;
  buf : list Z;
  pos : Z;
  ref : Z
}.

Definition set_r (d : decoder) (x : byteReader) := mkDecoder x (w d) (buf d) (pos d) (ref d).
Definition set_w (d : decoder) (x : list Z) := mkDecoder (r d) x (buf d) (pos d) (ref d).
Definition set_buf (d : decoder) (x : list Z) := mkDecoder (r d) (w d) x (pos d) (ref d).
Definition set_pos (d : decoder) (x : Z) := mkDecoder (r d) (w d) (buf d) x (ref d).
Definition set_ref (d : decoder) (x : Z) := mkDecoder (r d) (w d) (buf d) (pos d) x.

(** [d.r.ReadByte()] *)
Definition readByte (d : decoder) : Z * option error * decoder :=
  let '(b, err, r') := ReadByte (r d) in (b, err, set_r d r').

(** The [for ln == 255] loop of [getLen]; every turn reads a byte, so the
    number of bytes to come bounds the turns. *)
Fixpoint getLen_loop (fuel : nat) (d : decoder) (length ln : Z)
  : run (Z * option error * decoder) :=
  if ln =? 255 then
    match fuel with
    | O => OutOfFuel
    | S k =>
        let length := u32 (length + 255) in
        let '(ln, err, d) := readByte d in
        match err with
        | Some e => Done (0, Some e, d)
        | None => getLen_loop k d length ln
        end
    end
  else Done (u32 (length + ln), None, d).

Definition getLen (d : decoder) : run (Z * option error * decoder) :=
  let length := 0 in
  let fuel := S (List.length (rd_data (r d))) in
  let '(ln, err, d) := readByte d in
  match err with
  | Some e => Done (0, Some e, d)
  | None => getLen_loop fuel d length ln
  end.

Definition readUint16 (d : decoder) : Z * option error * decoder :=
  let '(b1, err, d) := readByte d in
  match err with
  | Some e => (0, Some e, d)
  | None =>
      let '(b2, err, d) := readByte d in
      match err with
      | Some e => (0, Some e, d)
      | None => (Z.lor (u16 (Z.shiftl b2 8)) b1, None, d)
      end
  end.

Definition flush (d : decoder) (length : Z) : run decoder :=
  if u32 (pos d + length) >? bufferSize then
    let s := u32 (ref d - flushSize) in
    out <- sub (buf d) 0 s ;;
    let d := set_w d (w d ++ out) in
    let n := u32 (pos d - ref d) in
    _ <- sub (buf d) 0 (u32 (flushSize + n)) ;;
    tail <- sub (buf d) s (pos d) ;;
    let d := set_buf d (blit (buf d) 0 (u32 (flushSize + n)) tail) in
    let d := set_pos d (u32 (flushSize + n)) in
    Done (set_ref d flushSize)
  else Done d.

(** The [for ii := 0; ii < length; ii++] loop of [cp]; [n] turns remain. *)
Fixpoint cp_loop (n : nat) (ii : Z) (d : decoder) : run decoder :=
  match n with
  | O => Done d
  | S k =>
      by_ <- index (buf d) (u32 (ref d + ii)) ;;
      b <- store (buf d) (u32 (pos d + ii)) by_ ;;
      cp_loop k (ii + 1) (set_buf d b)
  end.

Definition cp (d : decoder) (length decr : Z) : run decoder :=
  d <- flush d length ;;
  d <- cp_loop (Z.to_nat length) 0 d ;;
  let d := set_pos d (u32 (pos d + length)) in
  Done (set_ref d (u32 (ref d + (length - decr)))).

Definition finish (d : decoder) (err : error) : run (option error * decoder) :=
  if error_eqb err EOF then
    out <- sub (buf d) 0 (pos d) ;;
    Done (None, set_w d (w d ++ out))
  else Done (Some err, d).

(** The read loop of [consume]; [n] turns remain. *)
Fixpoint consume_loop (n : nat) (d : decoder) : run (option error * decoder) :=
  match n with
  | O => Done (None, d)
  | S k =>
      let '(by_, err, d) := readByte d in
      match err with
      | Some e => finish d e
      | None =>
          b <- store (buf d) (pos d) by_ ;;
          consume_loop k (set_pos (set_buf d b) (u32 (pos d + 1)))
      end
  end.

Definition consume (d : decoder) (length : Z) : run (option error * decoder) :=
  d <- flush d length ;;
  consume_loop (Z.to_nat length) d.

Definition decr : list Z := [0; 3; 2; 3].

(** [return d.finish(err)] from [decode1]: the error returned and the sink. *)
Definition ret_finish (d : decoder) (err : error) : run (option error * list Z) :=
  '(e, d) <- finish d err ;; Done (e, w d).

(** [decode1], lines 171-178: the match of [length] more bytes than the
    minimum is copied from [d.ref], through the short-offset path when it
    starts fewer than 4 bytes behind [d.pos]. *)
Definition copy_match (d : decoder) (length : Z) : run decoder :=
  let literal := u32 (pos d - ref d) in
  '(length, d) <-
     (if literal <? 4 then
        dc <- index decr literal ;;
        d <- cp d 4 dc ;;
        Done (length, d)
      else Done (u32 (length + 4), d)) ;;
  cp d length 0.

(** [decode1], lines 156-178: the offset field, the match length and the
    copy. Either [decode1] returns (left) or the loop goes round (right). *)
Definition read_match (d : decoder) (code : Z) : run (option error * list Z + decoder) :=
  let '(back, err, d) := readUint16 d in
  match err with
  | Some e => x <- ret_finish d e ;; Done (inl x)
  | None =>
  let d := set_ref d (u32 (pos d - back)) in
  let length := Z.land code mlMask in
  '(length, err, d) <-
     (if length =? mlMask then
        '(ln, err, d) <- getLen d ;;
        Done (u32 (length + ln), err, d)
      else Done (length, None, d)) ;;
  match err with
  | Some e => x <- ret_finish d e ;; Done (inl x)
  | None => d <- copy_match d length ;; Done (inr d)
  end end.

(** One turn of the [for] loop of [decode1]. *)
Definition decode1_iter (d : decoder) : run (option error * list Z + decoder) :=
  let '(code, err, d) := readByte d in
  match err with
  | Some e => x <- ret_finish d e ;; Done (inl x)
  | None =>
  let length := Z.shiftr code mlBits in
  '(length, err, d) <-
     (if length =? runMask then
        '(ln, err, d) <- getLen d ;;
        Done (u32 (length + ln), err, d)
      else Done (length, None, d)) ;;
  match err with
  | Some e => x <- ret_finish d e ;; Done (inl x)
  | None =>
  '(err, d) <- consume d length ;;
  match err with
  | Some e => x <- ret_finish d e ;; Done (inl x)
  | None => read_match d code
  end end end.

Fixpoint decode1_loop (fuel : nat) (d : decoder) : run (option error * list Z) :=
  match fuel with
  | O => OutOfFuel
  | S k =>
      x <- decode1_iter d ;;
      match x with
      | inl res => Done res
      | inr d => decode1_loop k d
      end
  end.

(** [decode1(pw, r)]: the error returned and the bytes written to [pw].
    Every turn of the loop that does not return reads at least the token
    byte, so one more turn than there are bytes is always enough. *)
Definition decode1 (rd : byteReader) : run (option error * list Z) :=
  let d := mkDecoder rd [] (repeat 0 (Z.to_nat bufferSize)) 0 0 in
  decode1_loop (S (List.length (rd_data rd))) d.

End Reader.

(** * Go slices over a store of arrays

    The block encoder works on two slices handed in by the caller, which
    may share their backing array. The store is the list of the arrays
    allocated so far; a slice is a window [off, off + slen) of one of them,
    and can be resliced up to [off + scap). *)

Definition heap : Type := list (list Z).

Record slice : Type := mkSlice {
  arr : nat;    (* the backing array, an index in the store *)
  off : Z;      (* where the slice starts in it *)
  slen : Z;     (* len(s) *)
  scap : Z      (* cap(s) *)
}.

Definition array_of (h : heap) (s : slice) : list Z := nth (arr s) h [].

(** [s[i]] *)
Definition sl_index (h : heap) (s : slice) (i : Z) : run Z :=
  if (0 <=? i) && (i <? slen s)
  then Done (nth (Z.to_nat (off s + i)) (array_of h s) 0)
  else Panic.

(** [s[i] = v] *)
Definition sl_store (h : heap) (s : slice) (i v : Z) : run heap :=
  if (0 <=? i) && (i <? slen s)
  then Done (set_nth h (arr s) (set_nth (array_of h s) (Z.to_nat (off s + i)) v))
  else Panic.

(** [s[lo:hi]] *)
Definition reslice (s : slice) (lo hi : Z) : run slice :=
  if (0 <=? lo) && (lo <=? hi) && (hi <=? scap s)
  then Done (mkSlice (arr s) (off s + lo) (hi - lo) (scap s - lo))
  else Panic.

(** The bytes a slice holds. *)
Definition bytes_of (h : heap) (s : slice) : list Z :=
  firstn (Z.to_nat (slen s)) (skipn (Z.to_nat (off s)) (array_of h s)).

(** [copy(d, s)]: [min(len(d), len(s))] bytes, read before any is written
    (the two slices may overlap). *)
Definition copy (h : heap) (d s : slice) : heap :=
  set_nth h (arr d) (blit (array_of h d) (off d) (slen d) (bytes_of h s)).

(** [make([]byte, n)] *)
Definition make (h : heap) (n : Z) : heap * slice :=
  (h ++ [repeat 0 (Z.to_nat n)], mkSlice (length h) 0 n n).

(** * writer.go *)

Module Block.

Import Reader.

Definition minMatch : Z := 4.
Definition hashLog : Z := 17.
Definition hashTableSize : Z := Z.shiftl 1 hashLog.
Definition hashShift : Z := (minMatch * 8) - hashLog.
Definition incompressible : Z := 128.
Definition uninitHash : Z := 0x88888888.
Definition MaxInputSize : Z := 0x7E000000.

Record encoder : Type := mkEncoder {
  mem : heap;          (* the store [src] and [dst] point into *)
  src : slice;
  dst : slice;
  hashTable : list Z;
  pos : Z;
  anchor : Z;
  dpos : Z
}.

Definition set_mem (e : encoder) (x : heap) :=
  mkEncoder x (src e) (dst e) (hashTable e) (pos e) (anchor e) (dpos e).
Definition set_hashTable (e : encoder) (x : list Z) :=
  mkEncoder (mem e) (src e) (dst e) x (pos e) (anchor e) (dpos e).
Definition set_pos (e : encoder) (x : Z) :=
  mkEncoder (mem e) (src e) (dst e) (hashTable e) x (anchor e) (dpos e).
Definition set_anchor (e : encoder) (x : Z) :=
  mkEncoder (mem e) (src e) (dst e) (hashTable e) (pos e) x (dpos e).
Definition set_dpos (e : encoder) (x : Z) :=
  mkEncoder (mem e) (src e) (dst e) (hashTable e) (pos e) (anchor e) x.

(** Go's [/] on [int] truncates towards zero: [Z.quot]. *)
Definition CompressBound (isize : Z) : Z :=
  if isize >? MaxInputSize then 0
  else isize + (isize ÷ 255) + 16.

(** [e.src[i]] *)
Definition src_at (e : encoder) (i : Z) : run Z := sl_index (mem e) (src e) i.

(** [e.dst[i] = v] *)
Definition dst_put (e : encoder) (i v : Z) : run encoder :=
  m <- sl_store (mem e) (dst e) i v ;; Done (set_mem e m).

Definition readUint32 (e : encoder) (pos : Z) : run Z :=
  if pos >=? slen (src e) then Done 0
  else
    b3 <- src_at e (pos + 3) ;;
    b2 <- src_at e (pos + 2) ;;
    b1 <- src_at e (pos + 1) ;;
    b0 <- src_at e (pos + 0) ;;
    Done (Z.lor (Z.lor (Z.lor (u32 (Z.shiftl b3 24)) (u32 (Z.shiftl b2 16)))
                       (u32 (Z.shiftl b1 8))) b0).

(** The loops [for ; ln > 254; ln -= 255 { e.dst[e.dpos] = 255; e.dpos++ }]
    of [writeLiterals] and [for mlLen > 254 { mlLen -= 255; ... }] of
    [Encode] (the same turn, its two halves swapped). [ln] decreases at
    every turn, so [ln] turns are enough. *)
Fixpoint ext_loop (fuel : nat) (e : encoder) (ln : Z) : run (encoder * Z) :=
  if ln >? 254 then
    match fuel with
    | O => OutOfFuel
    | S k =>
        e <- dst_put e (dpos e) 255 ;;
        let e := set_dpos e (u32 (dpos e + 1)) in
        ext_loop k e (u32 (ln - 255))
    end
  else Done (e, ln).

(** [writeLiterals], lines 89-96, and [Encode], lines 169-178: the
    extension bytes of a length [15 + ln] that did not fit its nibble. *)
Definition write_ext (e : encoder) (ln : Z) : run encoder :=
  '(e, ln) <- ext_loop (Z.to_nat ln) e ln ;;
  e <- dst_put e (dpos e) (u8 ln) ;;
  Done (set_dpos e (u32 (dpos e + 1))).

(** [writeLiterals], lines 99-100: the literals are copied. *)
Definition copy_literals (e : encoder) (length pos : Z) : run encoder :=
  d <- reslice (dst e) (dpos e) (slen (dst e)) ;;
  s <- reslice (src e) pos (u32 (pos + length)) ;;
  let e := set_mem e (copy (mem e) d s) in
  Done (set_dpos e (u32 (dpos e + length))).

Definition writeLiterals (e : encoder) (length mlLen pos : Z) : run encoder :=
  let ln := length in
  let code := if ln >? runMask - 1 then runMask else u8 ln in
  e <- (if mlLen >? mlMask - 1
        then dst_put e (dpos e) (u8 (u8 (Z.shiftl code mlBits) + u8 mlMask))
        else dst_put e (dpos e) (u8 (u8 (Z.shiftl code mlBits) + u8 mlLen))) ;;
  let e := set_dpos e (u32 (dpos e + 1)) in
  e <- (if code =? runMask then write_ext e (u32 (ln - runMask)) else Done e) ;;
  copy_literals e length pos.

(** The loop [for int(e.pos) < len(e.src) && e.src[e.pos] == e.src[ref]]
    that extends a match; [e.pos] grows at every turn. *)
Fixpoint extend_loop (fuel : nat) (e : encoder) (ref : Z) : run (encoder * Z) :=
  if pos e <? slen (src e) then
    a <- src_at e (pos e) ;;
    b <- src_at e ref ;;
    if a =? b then
      match fuel with
      | O => OutOfFuel
      | S k => extend_loop k (set_pos e (u32 (pos e + 1))) (u32 (ref + 1))
      end
    else Done (e, ref)
  else Done (e, ref).

(** [Encode], lines 161-181: the token of the match that ends at [e.pos]
    is written, after [ln] literals from [anchor0] on. *)
Definition write_match (e : encoder) (ln back anchor0 : Z) : run encoder :=
  let mlLen := u32 (pos e - anchor e) in
  e <- writeLiterals e ln mlLen anchor0 ;;
  e <- dst_put e (dpos e) (u8 back) ;;
  e <- dst_put e (u32 (dpos e + 1)) (u8 (Z.shiftr back 8)) ;;
  let e := set_dpos e (u32 (dpos e + 2)) in
  e <- (if mlLen >? mlMask - 1 then write_ext e (u32 (mlLen - mlMask)) else Done e) ;;
  Done (set_anchor e (pos e)).

(** [Encode], lines 147-181: a match at [ref] was accepted with
    [step == 1]; it is extended and its token is written. *)
Definition emit_match (e : encoder) (ref : Z) : run encoder :=
  let ln := u32 (pos e - anchor e) in
  let back := u32 (pos e - ref) in
  let anchor0 := anchor e in
  let e := set_pos e (u32 (pos e + minMatch)) in
  let ref := u32 (ref + minMatch) in
  let e := set_anchor e (pos e) in
  '(e, ref) <- extend_loop (Z.to_nat (slen (src e))) e ref ;;
  write_match e ln back anchor0.

(** [(sequence * 2654435761) >> hashShift] *)
Definition hash (sequence : Z) : Z := Z.shiftr (u32 (sequence * 2654435761)) hashShift.

(** What one turn of the [for] loop of [Encode] does. *)
Inductive turn : Type :=
| Return (h : heap) (out : slice)            (* return e.dst[:e.dpos], nil *)
| Skip (e : encoder) (step limit : Z)        (* candidate rejected, continue *)
| Rewind (e : encoder) (step limit : Z)      (* accepted with step > 1, continue *)
| Match (e : encoder) (step limit : Z).      (* token written, loop again *)

Definition Encode_iter (e : encoder) (step limit : Z) : run turn :=
  if pos e + 4 >=? slen (src e) then
    e <- writeLiterals e (u32 (u32 (slen (src e)) - anchor e)) 0 (anchor e) ;;
    out <- reslice (dst e) 0 (dpos e) ;;
    Done (Return (mem e) out)
  else
    sequence <- readUint32 e (pos e) ;;
    let hash := hash sequence in
    v <- index (hashTable e) hash ;;
    let ref := u32 (v + uninitHash) in
    t <- store (hashTable e) hash (u32 (pos e - uninitHash)) ;;
    let e := set_hashTable e t in
    reject <- (if negb (Z.shiftr (u32 (pos e - ref)) 16 =? 0) then Done true
               else s <- readUint32 e ref ;; Done (negb (s =? sequence))) ;;
    if reject : bool then
      let '(limit, step) :=
        if u32 (pos e - anchor e) >? limit
        then (u32 (Z.shiftl limit 1), u32 (step + (1 + Z.shiftr step 2)))
        else (limit, step) in
      Done (Skip (set_pos e (u32 (pos e + step))) step limit)
    else if step >? 1 then
      t <- store (hashTable e) hash (u32 (ref - uninitHash)) ;;
      let e := set_hashTable e t in
      Done (Rewind (set_pos e (u32 (pos e - (step - 1)))) 1 limit)
    else
      e <- emit_match e ref ;;
      Done (Match e step incompressible).

Fixpoint Encode_loop (fuel : nat) (e : encoder) (step limit : Z) : run (heap * slice) :=
  match fuel with
  | O => OutOfFuel
  | S k =>
      t <- Encode_iter e step limit ;;
      match t with
      | Return h out => Done (h, out)
      | Skip e step limit | Rewind e step limit | Match e step limit =>
          Encode_loop k e step limit
      end
  end.

(** [Encode(dst, src)] in the store [h]: the store afterwards, the slice
    returned ([None] for [nil]) and the error. Two turns of the loop per
    input byte are enough (lemma [Encode_loop_total] below). *)
Definition Encode (h : heap) (dst src : slice) : run (heap * option slice * option error) :=
  if slen src >=? MaxInputSize then Done (h, None, Some ErrTooLarge)
  else
    let n := CompressBound (slen src) in
    let '(h, dst) := if slen dst <? n then make h n else (h, dst) in
    let e := mkEncoder h src dst (repeat 0 (Z.to_nat hashTableSize)) 0 0 0 in
    '(h, out) <- Encode_loop (Z.to_nat (2 * slen src + 4)) e 1 incompressible ;;
    Done (h, Some out, None).

(** [Encode(nil, s)] on a byte sequence held in an array of its own: the
    compressed bytes. *)
Definition Encode_bytes (s : list Z) : run (list Z) :=
  '(h, out, _) <- Encode [s] (mkSlice 0 0 0 0) (mkSlice 0 0 (len s) (len s)) ;;
  match out with
  | Some o => Done (bytes_of h o)
  | None => Done []
  end.

End Block.

(** * lz4/writer.go *)

Module Stream.

(** Modelled from the spec: [lz4/writer.go] uses [runMask], [mlBits],
    [mlMask] and [bufferSize], which a file of its directory that is not
    under src/ declares. They are given the values [reader.go] declares
    for the same wire format: 4-bit nibbles and the 128 KiB buffer of the
    streaming paths. *)
Definition mlBits : Z := Reader.mlBits.
Definition mlMask : Z := Reader.mlMask.
Definition runMask : Z := Reader.runMask.
Definition bufferSize : Z := Reader.bufferSize.

Definition minMatch : Z := 4.
Definition hashLog : Z := 17.
Definition hashTableSize : Z := Z.shiftl 1 hashLog.
Definition hashMask : Z := hashTableSize - 1.
Definition hashShift : Z := (minMatch * 8) - hashLog.
Definition incompressible : Z := 128.
Definition prefetchSize : Z := 1024.
Definition flushPos : Z := bufferSize - prefetchSize.
Definition uninitHash : Z := 0x88888888.

Record encoder : Type := mkEncoder {
  r : byteReader;
  w : list Z;
  hashTable : list Z;
  buf : list Z;
  pos : Z;
  anchor : Z;
  cached : Z
}.

Definition set_r (e : encoder) (x : byteReader) :=
  mkEncoder x (w e) (hashTable e) (buf e) (pos e) (anchor e) (cached e).
Definition set_w (e : encoder) (x : list Z) :=
  mkEncoder (r e) x (hashTable e) (buf e) (pos e) (anchor e) (cached e).
Definition set_hashTable (e : encoder) (x : list Z) :=
  mkEncoder (r e) (w e) x (buf e) (pos e) (anchor e) (cached e).
Definition set_buf (e : encoder) (x : list Z) :=
  mkEncoder (r e) (w e) (hashTable e) x (pos e) (anchor e) (cached e).
Definition set_pos (e : encoder) (x : Z) :=
  mkEncoder (r e) (w e) (hashTable e) (buf e) x (anchor e) (cached e).
Definition set_anchor (e : encoder) (x : Z) :=
  mkEncoder (r e) (w e) (hashTable e) (buf e) (pos e) x (cached e).
Definition set_cached (e : encoder) (x : Z) :=
  mkEncoder (r e) (w e) (hashTable e) (buf e) (pos e) (anchor e) x.

(** [e.w.WriteByte(b)] *)
Definition WriteByte (e : encoder) (b : Z) : encoder := set_w e (w e ++ [b]).

(** The read loop of [cache]; [n] turns remain. *)
Fixpoint cache_loop (n : nat) (e : encoder) : run (option error * encoder) :=
  match n with
  | O => Done (None, e)
  | S k =>
      let '(b0, err, r') := ReadByte (r e) in
      let e := set_r e r' in
      match err with
      | Some _ =>
          if pos e =? cached e then Done (Some EOF, e)
          else
            b <- store (buf e) (cached e) b0 ;;
            cache_loop k (set_cached (set_buf e b) (u32 (cached e + 1)))
      | None =>
          b <- store (buf e) (cached e) b0 ;;
          cache_loop k (set_cached (set_buf e b) (u32 (cached e + 1)))
      end
  end.

Definition cache (e : encoder) (ln : Z) : run (option error * encoder) :=
  if u32 (pos e + ln) >? cached e then cache_loop (Z.to_nat ln) e
  else Done (None, e).

Definition readUint32 (e : encoder) : run (Z * option error * encoder) :=
  '(err, e) <- cache e 4 ;;
  match err with
  | Some x => Done (0, Some x, e)
  | None =>
      b0 <- index (buf e) (u32 (pos e + 0)) ;;
      b1 <- index (buf e) (u32 (pos e + 1)) ;;
      b2 <- index (buf e) (u32 (pos e + 2)) ;;
      b3 <- index (buf e) (u32 (pos e + 3)) ;;
      Done (Z.lor (Z.lor (Z.lor (u32 (Z.shiftl b3 24)) (u32 (Z.shiftl b2 16)))
                         (u32 (Z.shiftl b1 8))) b0, None, e)
  end.

Definition readRef (e : encoder) (ref : Z) : run Z :=
  b0 <- index (buf e) (u32 (ref + 0)) ;;
  b1 <- index (buf e) (u32 (ref + 1)) ;;
  b2 <- index (buf e) (u32 (ref + 2)) ;;
  b3 <- index (buf e) (u32 (ref + 3)) ;;
  Done (Z.lor (Z.lor (Z.lor (u32 (Z.shiftl b3 24)) (u32 (Z.shiftl b2 16)))
                     (u32 (Z.shiftl b1 8))) b0).

(** The loops [for ; ln > 254; ln -= 255 { e.w.WriteByte(255) }] of
    [writeLiterals] and [for mlLen > 254 { ... }] of [encode1]. *)
Fixpoint ext_loop (fuel : nat) (e : encoder) (ln : Z) : run (encoder * Z) :=
  if ln >? 254 then
    match fuel with
    | O => OutOfFuel
    | S k => ext_loop k (WriteByte e 255) (u32 (ln - 255))
    end
  else Done (e, ln).

(** The loop of [writeLiterals] that writes the literals; [n] turns remain. *)
Fixpoint lit_loop (n : nat) (ii : Z) (e : encoder) (anchor : Z) : run encoder :=
  match n with
  | O => Done e
  | S k =>
      b <- index (buf e) (u32 (anchor + ii)) ;;
      lit_loop k (ii + 1) (WriteByte e b) anchor
  end.

Definition writeLiterals (e : encoder) (length mlLen anchor : Z) : run encoder :=
  let ln := length in
  let code := if ln >? runMask - 1 then runMask else u8 ln in
  let e := if mlLen >? mlMask - 1
           then WriteByte e (u8 (u8 (Z.shiftl code mlBits) + u8 mlMask))
           else WriteByte e (u8 (u8 (Z.shiftl code mlBits) + u8 mlLen)) in
  e <- (if code =? runMask then
          let ln := u32 (ln - runMask) in
          '(e, ln) <- ext_loop (Z.to_nat ln) e ln ;;
          Done (WriteByte e (u8 ln))
        else Done e) ;;
  lit_loop (Z.to_nat length) 0 e anchor.

Definition writeUint16 (e : encoder) (value : Z) : encoder :=
  let e := WriteByte e (u8 value) in
  WriteByte e (u8 (Z.shiftr value 8)).

(** The loop over the table is the pointwise rewriting of its slots. *)
Definition flush (e : encoder) : run encoder :=
  if cached e >? flushPos then
    let length := u32 (cached e - anchor e) in
    _ <- sub (buf e) 0 length ;;
    live <- sub (buf e) (anchor e) (u32 (anchor e + length)) ;;
    let e := set_buf e (blit (buf e) 0 length live) in
    let e := set_hashTable e
      (map (fun v => if negb (v =? uninitHash)
                     then (if v <? anchor e then uninitHash else u32 (v - anchor e))
                     else v) (hashTable e)) in
    let e := set_pos e (u32 (pos e - anchor e)) in
    let e := set_cached e (u32 (cached e - anchor e)) in
    Done (set_anchor e 0)
  else Done e.

Definition finish (e : encoder) (err : error) : run (option error * encoder) :=
  if error_eqb err EOF then
    e <- writeLiterals e (u32 (cached e - pos e)) 0 (anchor e) ;;
    Done (None, e)
  else Done (Some err, e).

(** The loop [for { err = e.cache(1); if err != nil || e.buf[e.pos] !=
    e.buf[ref] { break }; e.pos++; ref++ }] that extends a match. *)
Fixpoint extend_loop (fuel : nat) (e : encoder) (ref : Z)
  : run (option error * encoder * Z) :=
  match fuel with
  | O => OutOfFuel
  | S k =>
      '(err, e) <- cache e 1 ;;
      match err with
      | Some x => Done (Some x, e, ref)
      | None =>
          a <- index (buf e) (pos e) ;;
          b <- index (buf e) ref ;;
          if negb (a =? b) then Done (None, e, ref)
          else extend_loop k (set_pos e (u32 (pos e + 1))) (u32 (ref + 1))
      end
  end.

(** [encode1] from [limit = 128] on: a match at [ref] was accepted with
    [step == 1]. The result of the [e.finish(err)] that follows a match
    cut short by the end of the input is dropped and the loop goes on. *)
Definition emit_match (e : encoder) (ref : Z) : run encoder :=
  let ln := u32 (pos e - anchor e) in
  let back := u32 (pos e - ref) in
  let anchor0 := anchor e in
  let e := set_pos e (u32 (pos e + minMatch)) in
  let ref := u32 (ref + minMatch) in
  let e := set_anchor e (pos e) in
  '(err, e, ref) <- extend_loop (S (Z.to_nat bufferSize)) e ref ;;
  let mlLen := u32 (pos e - anchor e) in
  e <- writeLiterals e ln mlLen anchor0 ;;
  let e := writeUint16 e (u16 back) in
  e <- (if mlLen >? mlMask - 1 then
          let mlLen := u32 (mlLen - mlMask) in
          '(e, mlLen) <- ext_loop (Z.to_nat mlLen) e mlLen ;;
          Done (WriteByte e (u8 mlLen))
        else Done e) ;;
  let e := set_anchor e (pos e) in
  match err with
  | Some x => '(_, e) <- finish e x ;; Done e
  | None => Done e
  end.

(** [(sequence * 2654435761) >> hashShift] *)
Definition hash (sequence : Z) : Z := Z.shiftr (u32 (sequence * 2654435761)) hashShift.

(** What one turn of the [for] loop of [encode1] does. *)
Inductive turn : Type :=
| Return (err : option error) (out : list Z)   (* return e.finish(err) *)
| Skip (e : encoder) (step limit : Z)          (* candidate rejected, continue *)
| Rewind (e : encoder) (step limit : Z)        (* accepted with step > 1, continue *)
| Match (e : encoder) (step limit : Z).        (* token written, loop again *)

Definition encode1_iter (e : encoder) (step limit : Z) : run turn :=
  e <- flush e ;;
  '(sequence, err, e) <- readUint32 e ;;
  match err with
  | Some x => '(err, e) <- finish e x ;; Done (Return err (w e))
  | None =>
    let hash := hash sequence in
    ref <- index (hashTable e) hash ;;
    t <- store (hashTable e) hash (pos e) ;;
    let e := set_hashTable e t in
    reject <- (if negb (Z.shiftr (u32 (pos e - ref)) 16 =? 0) then Done true
               else s <- readRef e ref ;; Done (negb (s =? sequence))) ;;
    if reject : bool then
      let '(limit, step) :=
        if u32 (pos e - anchor e) >? limit
        then (u32 (Z.shiftl limit 1), u32 (step + (1 + Z.shiftr step 2)))
        else (limit, step) in
      Done (Skip (set_pos e (u32 (pos e + step))) step limit)
    else if step >? 1 then
      t <- store (hashTable e) hash ref ;;
      let e := set_hashTable e t in
      Done (Rewind (set_pos e (u32 (pos e - (step - 1)))) 1 limit)
    else
      e <- emit_match e ref ;;
      Done (Match e step 128)
  end.

Fixpoint encode1_loop (fuel : nat) (e : encoder) (step limit : Z)
  : run (option error * list Z) :=
  match fuel with
  | O => OutOfFuel
  | S k =>
      t <- encode1_iter e step limit ;;
      match t with
      | Return err out => Done (err, out)
      | Skip e step limit | Rewind e step limit | Match e step limit =>
          encode1_loop k e step limit
      end
  end.

(** [encode1(pw, r)] run for at most [fuel] turns of its loop: the error
    returned and the bytes written to [pw]. The table is filled with
    [uninitHash] by the loop that precedes the main one. *)
Definition encode1 (fuel : nat) (rd : byteReader) : run (option error * list Z) :=
  let e := mkEncoder rd [] (repeat uninitHash (Z.to_nat hashTableSize))
                     (repeat 0 (Z.to_nat bufferSize)) 0 0 0 in
  encode1_loop fuel e 1 128.

End Stream.

(** * Specification-side definitions

    What the lemmas below are stated with: list surgery, the relations
    between two states of a run, the invariant of the loop of [Encode]. *)

(** [a] with the bytes [l] written from index [p] on *)
Definition splice (a : list Z) (p : nat) (l : list Z) : list Z :=
  firstn p a ++ l ++ skipn (p + length l) a.

(** Byte-by-byte replication, as the format defines a match: [n] bytes are
    written from index [p] on, each one the copy of the byte [back] places
    before it. *)
Fixpoint replicate (n : nat) (a : list Z) (p back : nat) : list Z :=
  match n with
  | O => a
  | S k => replicate k (set_nth a p (nth (p - back) a 0)) (S p) back
  end.

(** [a] repeats with period [back] on the indexes from [lo] to [hi] *)
Definition periodic (a : list Z) (lo hi back : nat) : Prop :=
  forall j, (lo <= j < hi)%nat -> nth j a 0 = nth (j - back) a 0.

(** the store [h'] differs from [h] in the array [a] at most *)
Definition frame (a : nat) (h h' : heap) : Prop :=
  length h' = length h /\ forall i, i <> a -> nth i h' [] = nth i h [].

(** a slice that lies within its array *)
Definition wf_slice (h : heap) (s : slice) : Prop :=
  (arr s < length h)%nat /\ 0 <= off s /\ 0 <= slen s <= scap s
  /\ off s + slen s <= len (array_of h s).

(** the store with [bytes] written in the slice [s] from index [i] on *)
Definition put_bytes (h : heap) (s : slice) (i : Z) (bytes : list Z) : heap :=
  set_nth h (arr s) (splice (array_of h s) (Z.to_nat (off s + i)) bytes).

(** The slot the turn of [Encode] that starts in [e] looks up:
    [e.hashTable[hash]] for the [sequence] read at [e.pos]. *)
Definition block_slot (e : Block.encoder) : option Z :=
  match Block.readUint32 e (Block.pos e) with
  | Done sequence =>
      match index (Block.hashTable e) (Block.hash sequence) with
      | Done v => Some v
      | _ => None
      end
  | _ => None
  end.

(** The slot the turn of [encode1] that starts in [s] looks up, after its
    [flush] and its [readUint32]. *)
Definition stream_slot (s : Stream.encoder) : option Z :=
  match Stream.flush s with
  | Done s1 =>
      match Stream.readUint32 s1 with
      | Done (sequence, None, s2) =>
          match index (Stream.hashTable s2) (Stream.hash sequence) with
          | Done v => Some v
          | _ => None
          end
      | _ => None
      end
  | _ => None
  end.


(** the token byte of a run of [l] literals followed by a match of
    [4 + ml] bytes *)
Definition seq_token (l ml : Z) : Z := 16 * Z.min l 15 + Z.min ml 15.

Module ReaderSpec.

Import Reader.




End ReaderSpec.

Module BlockSpec.

Import Reader Block.

(** the state after writes to [dst]: a new store and a new [dpos] *)
Definition wrote (e : encoder) (m : heap) (dp : Z) : encoder :=
  mkEncoder m (src e) (dst e) (hashTable e) (pos e) (anchor e) dp.

(** the bytes [writeLiterals] writes for [l] literals: the token, the
    extension of the length and the literals *)
Definition ext_cost (l : Z) : Z := if l <? 15 then 0 else (l - 15) / 255 + 1.

Definition lit_cost (l : Z) : Z := 1 + ext_cost l + l.

Definition slot_ok (pos step v : Z) : Prop :=
  u32 (v + uninitHash) = uninitHash \/ u32 (v + uninitHash) + step <= pos.

(** what holds each time [Encode] is at the top of its loop *)
Record Inv (e : encoder) (step limit : Z) : Prop := mkInv {
  I_len : 0 <= slen (src e) < MaxInputSize;
  I_scap : slen (src e) <= scap (src e);
  I_room : slen (src e) + slen (src e) / 255 + 16 <= slen (dst e);
  I_dcap : slen (dst e) <= scap (dst e);
  I_anchor : 0 <= anchor e <= slen (src e);
  I_step : 1 <= step /\ 64 * step <= limit;
  I_limit : limit <= Z.max 128 (2 * slen (src e));
  I_pos : anchor e + step <= pos e + 1 /\ pos e + 1 <= slen (src e) + step;
  I_dpos : 0 <= dpos e /\ 255 * dpos e <= 256 * anchor e;
  I_tlen : len (hashTable e) = hashTableSize;
  I_table : Forall (slot_ok (pos e) step) (hashTable e)
}.

(** the turns that remain are at most this many *)
Definition mu (e : encoder) (step : Z) : Z :=
  2 * (slen (src e) - (pos e - step)) + (if step >? 1 then 1 else 0).

(** what a turn of the loop that does not return preserves *)
Definition next (e : encoder) (step : Z) (e' : encoder) (step' limit' : Z) : Prop :=
  Inv e' step' limit' /\ src e' = src e /\ dst e' = dst e
  /\ frame (arr (dst e)) (mem e) (mem e') /\ 0 <= mu e' step' < mu e step.

Definition turn_ok (e : encoder) (step : Z) (t : run turn) : Prop :=
  match t with
  | Done (Return h out) =>
      slen (src e) <= pos e + 4
      /\ frame (arr (dst e)) (mem e) h
      /\ out = mkSlice (arr (dst e)) (off (dst e) + 0) (slen out) (scap (dst e) - 0)
      /\ 0 <= slen out <= slen (src e) + slen (src e) / 255 + 16
  | Done (Skip e' s' l') => pos e + 4 < slen (src e) /\ next e step e' s' l'
                            /\ dpos e' = dpos e /\ anchor e' = anchor e
  | Done (Rewind e' s' l') => pos e + 4 < slen (src e) /\ next e step e' s' l'
                            /\ dpos e' = dpos e /\ anchor e' = anchor e
  | Done (Match e' s' l') => pos e + 4 < slen (src e) /\ next e step e' s' l'
  | _ => False
  end.

(** the bytes that extend a length of [l] literals or match bytes *)
Definition ext_bytes (l : Z) : list Z :=
  if l <? 15 then []
  else repeat 255 (Z.to_nat ((l - 15) / 255)) ++ [(l - 15) mod 255].

(** the token byte of a run of [l] literals followed by no match *)
Definition last_token (l : Z) : Z := 16 * Z.min l 15.

(** every byte of the input is [c] *)
Definition constant_src (c : Z) (e : encoder) : bool :=
  (0 <=? off (src e)) && (off (src e) + slen (src e) <=? len (array_of (mem e) (src e)))
  && forallb (Z.eqb c) (bytes_of (mem e) (src e)).

(** 128 KiB and one byte of zeros *)
Definition zeros : list Z := repeat 0 (Z.to_nat 131073).

(** what [Encode] makes of them: one literal, a match at offset 1 of
    4 + 131068 bytes, and the empty last token *)
Definition zeros_stream : list Z := [31; 0; 1; 0] ++ repeat 255 513 ++ [238; 0].

(** what [Encode] makes of [n] bytes [c]: one literal, a match at offset 1
    that runs to the end of the input, and the empty last token *)
Definition run_stream (c n : Z) : list Z :=
  seq_token 1 (n - 5) :: c :: [1; 0] ++ ext_bytes (n - 5) ++ [0].

(** the four bytes [c c c c] as [readUint32] returns them *)
Definition quad (c : Z) : Z :=
  Z.lor (Z.lor (Z.lor (u32 (Z.shiftl c 24)) (u32 (Z.shiftl c 16))) (u32 (Z.shiftl c 8))) c.

(** One sequence of a block: the literals, the offset of the match and
    the number of bytes of the match beyond the four it always has. *)
Record sequence : Type := mkSeq {
  s_lits : list Z;
  s_back : Z;
  s_ml : Z
}.

(** the bytes of a sequence in the stream *)
Definition serialize (s : sequence) : list Z :=
  seq_token (len (s_lits s)) (s_ml s) :: ext_bytes (len (s_lits s)) ++ s_lits s
  ++ [s_back s mod 256; s_back s / 256] ++ ext_bytes (s_ml s).

(** the bytes of the last token of a block, which has literals only *)
Definition last_block (l : list Z) : list Z :=
  last_token (len l) :: ext_bytes (len l) ++ l.

(** a block: sequences, then the last literals *)
Fixpoint block_bytes (ss : list sequence) (last : list Z) : list Z :=
  match ss with
  | [] => last_block last
  | s :: t => serialize s ++ block_bytes t last
  end.

(** [n] bytes appended to [out], each the copy of the byte [back] places
    before the end *)
Fixpoint extend (n : nat) (out : list Z) (back : nat) : list Z :=
  match n with
  | O => out
  | S k => extend k (out ++ [nth (length out - back) out 0]) back
  end.

(** what a block stands for, after the bytes [out] *)
Fixpoint expand (out : list Z) (ss : list sequence) (last : list Z) : list Z :=
  match ss with
  | [] => out ++ last
  | s :: t =>
      expand (extend (Z.to_nat (4 + s_ml s)) (out ++ s_lits s) (Z.to_nat (s_back s))) t last
  end.

(** every offset points into what is already there, and the whole fits in
    the buffer of the decoder; [n] bytes are already there *)
Fixpoint fits (n : Z) (ss : list sequence) (last : list Z) : bool :=
  match ss with
  | [] => n + len last <=? bufferSize
  | s :: t =>
      (1 <=? s_back s) && (s_back s <=? n + len (s_lits s)) && (s_back s <? 65536)
      && (0 <=? s_ml s)
      && fits (n + len (s_lits s) + 4 + s_ml s) t last
  end.

(** What [Encode] has written so far, at the top of its loop: the
    sequences [ss], which stand for the input up to [anchor]. [S] is the
    input. *)
Record Content (S : list Z) (e : encoder) (ss : list sequence) : Prop := mkContent {
  C_wd : wf_slice (mem e) (dst e);
  C_ws : wf_slice (mem e) (src e);
  C_ne : arr (src e) <> arr (dst e);
  C_os : off (src e) = 0;
  C_od : off (dst e) = 0;
  C_S : array_of (mem e) (src e) = S;
  C_n : slen (src e) = len S;
  C_bytes : firstn (Z.to_nat (dpos e)) (array_of (mem e) (dst e)) = concat (map serialize ss);
  C_exp : expand [] ss [] = firstn (Z.to_nat (anchor e)) S;
  C_fit : fits 0 ss [] = true
}.

End BlockSpec.

(** * Lemmas *)

(** * Basic facts *)

Lemma u32_small (z : Z) : 0 <= z < 4294967296 -> u32 z = z.
Proof. intros H. unfold u32. now apply Z.mod_small. Qed.

Lemma u32_range (z : Z) : 0 <= u32 z < 4294967296.
Proof. unfold u32. apply Z.mod_pos_bound. lia. Qed.

Lemma u32_wrap_neg (z : Z) : -4294967296 <= z < 0 -> u32 z = z + 4294967296.
Proof.
  intros H. unfold u32.
  symmetry. apply (Z.mod_unique z 4294967296 (-1)); lia.
Qed.

Lemma shiftr16_zero (z : Z) : 0 <= z -> (Z.shiftr z 16 =? 0) = (z <? 65536).
Proof.
  intros H. rewrite Z.shiftr_div_pow2 by lia.
  change (2 ^ 16) with 65536.
  destruct (Z.ltb_spec z 65536).
  - rewrite Z.div_small by lia. reflexivity.
  - apply Z.eqb_neq. assert (1 <= z / 65536); [|lia].
    apply Z.div_le_lower_bound; lia.
Qed.

(** rewrite away, innermost first, the reductions that do nothing *)
Ltac u32_simpl :=
  repeat match goal with
  | |- context [u32 ?x] =>
      lazymatch x with
      | context [u32 _] => fail
      | _ => rewrite (u32_small x) by lia
      end
  end.

Lemma len_nonneg {A : Type} (l : list A) : 0 <= len l.
Proof. unfold len. lia. Qed.

Lemma gtb_true (a b : Z) : b < a -> (a >? b) = true.
Proof. intros H. destruct (Z.gtb_spec a b); [reflexivity | lia]. Qed.

Lemma gtb_false (a b : Z) : a <= b -> (a >? b) = false.
Proof. intros H. destruct (Z.gtb_spec a b); [lia | reflexivity]. Qed.

Lemma geb_true (a b : Z) : b <= a -> (a >=? b) = true.
Proof. intros H. destruct (Z.geb_spec a b); [reflexivity | lia]. Qed.

Lemma geb_false (a b : Z) : a < b -> (a >=? b) = false.
Proof. intros H. destruct (Z.geb_spec a b); [lia | reflexivity]. Qed.

Lemma ltb_true (a b : Z) : a < b -> (a <? b) = true.
Proof. apply Z.ltb_lt. Qed.

Lemma ltb_false (a b : Z) : b <= a -> (a <? b) = false.
Proof. apply Z.ltb_ge. Qed.

Lemma eqb_false (a b : Z) : a <> b -> (a =? b) = false.
Proof. apply Z.eqb_neq. Qed.

Module BlockFacts.

Import Block.
Import ReaderSpec BlockSpec.

Lemma CompressBound_small (n : Z) :
  n <= MaxInputSize -> CompressBound n = n + n ÷ 255 + 16.
Proof.
  intros H. unfold CompressBound.
  destruct (Z.gtb_spec n MaxInputSize); [lia | reflexivity].
Qed.

Lemma readUint32_in_range (e : encoder) (p : Z) :
  0 <= p -> p + 3 < slen (src e) -> exists s, readUint32 e p = Done s.
Proof.
  intros H0 H1. unfold readUint32, src_at, sl_index.
  destruct (Z.geb_spec p (slen (src e))); [lia|].
  repeat match goal with
  | |- context [(0 <=? ?a) && (?a <? ?b)] =>
      replace ((0 <=? a) && (a <? b)) with true
        by (symmetry; apply andb_true_iff; split; [apply Z.leb_le | apply Z.ltb_lt]; lia);
      cbn [bind]
  end.
  eexists. reflexivity.
Qed.

End BlockFacts.

Module BlockTable.

Import Block BlockFacts.
Import ReaderSpec BlockSpec.

Lemma block_unset_rejected (e : encoder) (step limit sequence : Z) :
  0 <= pos e ->
  slen (src e) < MaxInputSize ->
  pos e + 4 < slen (src e) ->
  readUint32 e (pos e) = Done sequence ->
  index (hashTable e) (hash sequence) = Done 0 ->
  exists e' step' limit',
    Encode_iter e step limit = Done (Skip e' step' limit')
    /\ mem e' = mem e /\ dpos e' = dpos e /\ anchor e' = anchor e.
Proof.
  intros Hp Hmax Hlt Hseq Hslot.
  unfold Encode_iter.
  destruct (Z.geb_spec (pos e + 4) (slen (src e))); [lia|].
  rewrite Hseq. cbn [bind]. rewrite Hslot. cbn [bind].
  unfold index in Hslot. unfold store.
  destruct ((0 <=? hash sequence) && (hash sequence <? len (hashTable e))); [|discriminate].
  cbn [bind].
  replace (u32 (0 + uninitHash)) with uninitHash by reflexivity.
  cbn [pos set_hashTable].
  assert (Hr : negb (Z.shiftr (u32 (pos e - uninitHash)) 16 =? 0) = true).
  { unfold MaxInputSize in Hmax. unfold uninitHash.
    rewrite u32_wrap_neg by lia.
    rewrite shiftr16_zero by lia.
    apply negb_true_iff. apply Z.ltb_ge. lia. }
  rewrite Hr. cbn [bind].
  cbn [anchor set_hashTable].
  destruct (u32 (pos e - anchor e) >? limit); eexists _, _, _; (split; [reflexivity|]); cbn; auto.
Qed.

Lemma block_stored_nonzero (p : Z) :
  0 <= p < MaxInputSize -> u32 (p - uninitHash) <> 0.
Proof.
  unfold MaxInputSize, uninitHash. intros H.
  rewrite u32_wrap_neg by lia. lia.
Qed.

End BlockTable.

Lemma set_nth_length {A : Type} (a : list A) (n : nat) (v : A) :
  length (set_nth a n v) = length a.
Proof.
  revert n. induction a as [|x t IH]; intros [|n]; cbn; auto.
Qed.

Lemma store_len (a : list Z) (i v : Z) (a' : list Z) :
  store a i v = Done a' -> len a' = len a.
Proof.
  unfold store. destruct (_ && _); [|discriminate].
  intros [= <-]. unfold len. now rewrite set_nth_length.
Qed.

Lemma blit_length (a : list Z) (lo room : Z) (bytes : list Z) :
  (Z.to_nat lo + Nat.min (Z.to_nat room) (length bytes) <= length a)%nat ->
  length (blit a lo room bytes) = length a.
Proof.
  intros H. unfold blit.
  rewrite !length_app, !length_firstn, length_skipn. lia.
Qed.

Ltac run_inv H :=
  repeat match type of H with
  | bind ?c _ = Done _ =>
      let E := fresh "E" in
      destruct c eqn:E; cbn [bind] in H; [| discriminate H | discriminate H]
  | (let '(_, _) := ?x in _) = Done _ => destruct x eqn:?
  | (if ?c then _ else _) = Done _ => destruct c eqn:?; try discriminate H
  | match ?x with _ => _ end = Done _ => destruct x eqn:?; try discriminate H
  end.

Module StreamTable.

Import Stream.

Lemma cache_loop_frame (n : nat) (e : encoder) (err : option error) (e' : encoder) :
  cache_loop n e = Done (err, e') ->
  len (buf e') = len (buf e) /\ pos e' = pos e /\ w e' = w e
  /\ hashTable e' = hashTable e /\ anchor e' = anchor e.
Proof.
  revert e. induction n as [|n IH]; intros e H; cbn [cache_loop] in H.
  - injection H as _ <-. auto.
  - destruct (ReadByte (r e)) as [[b0 er] r'].
    assert (K : forall b, store (buf (set_r e r')) (cached (set_r e r')) b0 = Done b ->
              cache_loop n (set_cached (set_buf (set_r e r') b) (u32 (cached (set_r e r') + 1))) = Done (err, e') ->
              len (buf e') = len (buf e) /\ pos e' = pos e /\ w e' = w e
              /\ hashTable e' = hashTable e /\ anchor e' = anchor e).
    { intros b Hb Hc. apply IH in Hc. cbn in Hc. apply store_len in Hb. cbn in Hb.
      destruct Hc as (-> & -> & -> & -> & ->). auto. }
    destruct er.
    + destruct (pos (set_r e r') =? cached (set_r e r')).
      * injection H as _ <-. cbn. auto.
      * run_inv H. eauto.
    + run_inv H. eauto.
Qed.

Lemma cache_frame (e : encoder) (ln : Z) (err : option error) (e' : encoder) :
  cache e ln = Done (err, e') ->
  len (buf e') = len (buf e) /\ pos e' = pos e /\ w e' = w e
  /\ hashTable e' = hashTable e /\ anchor e' = anchor e.
Proof.
  unfold cache. destruct (_ >? _).
  - apply cache_loop_frame.
  - intros [= _ <-]. auto.
Qed.

Lemma flush_frame (e e' : encoder) :
  0 <= pos e < 4294967296 ->
  flush e = Done e' ->
  len (buf e') = len (buf e) /\ 0 <= pos e' < 4294967296 /\ w e' = w e.
Proof.
  intros Hp H. unfold flush in H.
  destruct (cached e >? flushPos).
  - run_inv H. injection H as <-.
    cbn [buf pos w set_buf set_pos set_cached set_anchor set_hashTable].
    split; [|split; [apply u32_range | reflexivity]].
    unfold sub in E. destruct (_ && _) eqn:C in E; [|discriminate].
    apply andb_true_iff in C as [C1 C2]. apply andb_true_iff in C1 as [C0 C1].
    apply Z.leb_le in C0, C1, C2. unfold len in *.
    rewrite blit_length; [reflexivity|]. lia.
  - injection H as <-. auto.
Qed.

Lemma index_Done (a : list Z) (i v : Z) : index a i = Done v -> 0 <= i < len a.
Proof.
  unfold index. destruct (_ && _) eqn:C; [|discriminate]. intros _.
  apply andb_true_iff in C as [C1 C2]. apply Z.leb_le in C1. apply Z.ltb_lt in C2. lia.
Qed.

Lemma stream_unset_rejected (e : encoder) (step limit : Z) (e1 : encoder)
      (sequence : Z) (e2 : encoder) :
  len (buf e) = bufferSize ->
  0 <= pos e < 4294967296 ->
  flush e = Done e1 ->
  readUint32 e1 = Done (sequence, None, e2) ->
  index (hashTable e2) (hash sequence) = Done uninitHash ->
  exists e' step' limit',
    encode1_iter e step limit = Done (Skip e' step' limit') /\ w e' = w e.
Proof.
  intros Hlen Hp Hfl Hrd Hslot.
  unfold encode1_iter. rewrite Hfl. cbn [bind]. rewrite Hrd. cbn [bind].
  rewrite Hslot. cbn [bind].
  destruct (flush_frame _ _ Hp Hfl) as (L1 & P1 & W1).
  unfold readUint32 in Hrd. run_inv Hrd.
  injection Hrd as _ ->.
  destruct (cache_frame _ _ _ _ E) as (L2 & P2 & W2 & _).
  apply index_Done in Hslot as Hh. unfold store.
  replace ((0 <=? hash sequence) && (hash sequence <? len (hashTable e2))) with true
    by (symmetry; apply andb_true_iff; split; [apply Z.leb_le | apply Z.ltb_lt]; lia).
  cbn [bind pos anchor set_hashTable].
  apply index_Done in E0.
  assert (Hpos : 0 <= pos e2 < bufferSize).
  { rewrite P2 in *. rewrite Z.add_0_r, u32_small in E0 by lia. lia. }
  assert (Hr : negb (Z.shiftr (u32 (pos e2 - uninitHash)) 16 =? 0) = true).
  { unfold bufferSize, Reader.bufferSize in Hpos. cbn in Hpos. unfold uninitHash.
    rewrite u32_wrap_neg by lia.
    rewrite shiftr16_zero by lia.
    apply negb_true_iff. apply Z.ltb_ge. lia. }
  rewrite Hr. cbn [bind].
  destruct (u32 (pos e2 - anchor e2) >? limit); eexists _, _, _; (split; [reflexivity|]); cbn; congruence.
Qed.

End StreamTable.

Module ReaderRuns.

Import Reader.
Import ReaderSpec.







































End ReaderRuns.

(** list facts *)
Lemma nth_set_nth_eq {A : Type} (a : list A) (n : nat) (v d : A) :
  (n < length a)%nat -> nth n (set_nth a n v) d = v.
Proof.
  revert n. induction a as [|x t IH]; intros [|n] H; cbn in *; try lia; auto.
  apply IH. lia.
Qed.

Lemma nth_set_nth_neq {A : Type} (a : list A) (n m : nat) (v d : A) :
  n <> m -> nth m (set_nth a n v) d = nth m a d.
Proof.
  revert n m. induction a as [|x t IH]; intros [|n] [|m] H; cbn; auto; try lia.
Qed.

Lemma firstn_set_nth_S {A : Type} (a : list A) (p : nat) (x : A) :
  (p < length a)%nat -> firstn (S p) (set_nth a p x) = firstn p a ++ [x].
Proof.
  revert p. induction a as [|y t IH]; intros [|p] H; cbn in *; try lia; auto.
  f_equal. apply IH. lia.
Qed.

Lemma skipn_set_nth {A : Type} (a : list A) (p n : nat) (x : A) :
  (p < n)%nat -> skipn n (set_nth a p x) = skipn n a.
Proof.
  revert p n. induction a as [|y t IH]; intros [|p] [|n] H; cbn; auto; try lia.
  apply IH. lia.
Qed.

Lemma firstn_set_nth {A : Type} (a : list A) (p n : nat) (x : A) :
  (n <= p)%nat -> firstn n (set_nth a p x) = firstn n a.
Proof.
  revert p n. induction a as [|y t IH]; intros [|p] [|n] H; cbn; auto; try lia.
  f_equal. apply IH. lia.
Qed.

Lemma splice_nil a p : splice a p [] = a.
Proof. unfold splice. cbn. rewrite Nat.add_0_r. apply firstn_skipn. Qed.

Lemma splice_cons a p x t :
  (p < length a)%nat -> splice (set_nth a p x) (S p) t = splice a p (x :: t).
Proof.
  intros H. unfold splice. rewrite firstn_set_nth_S by exact H.
  rewrite skipn_set_nth by lia. rewrite <- app_assoc. cbn.
  now replace (p + S (length t))%nat with (S (p + length t)) by lia.
Qed.

Lemma splice_length a p l :
  (p + length l <= length a)%nat -> length (splice a p l) = length a.
Proof.
  intros H. unfold splice. rewrite !length_app, length_firstn, length_skipn. lia.
Qed.

Lemma firstn_splice a p l :
  (p + length l <= length a)%nat -> firstn (p + length l) (splice a p l) = firstn p a ++ l.
Proof.
  intros H. unfold splice. rewrite app_assoc.
  rewrite firstn_app.
  replace (p + length l - length (firstn p a ++ l))%nat with 0%nat
    by (rewrite length_app, length_firstn; lia).
  cbn. rewrite app_nil_r. apply firstn_all2.
  rewrite length_app, length_firstn. lia.
Qed.

Module ReaderLiterals.

Import Reader ReaderRuns.
Import ReaderSpec.

Lemma store_in_range (a : list Z) (i v : Z) :
  0 <= i < len a -> store a i v = Done (set_nth a (Z.to_nat i) v).
Proof.
  intros H. unfold store.
  replace ((0 <=? i) && (i <? len a)) with true; [reflexivity|].
  symmetry. apply andb_true_iff. split; [apply Z.leb_le | apply Z.ltb_lt]; lia.
Qed.

Lemma index_in_range (a : list Z) (i : Z) :
  0 <= i < len a -> index a i = Done (nth (Z.to_nat i) a 0).
Proof.
  intros H. unfold index.
  replace ((0 <=? i) && (i <? len a)) with true; [reflexivity|].
  symmetry. apply andb_true_iff. split; [apply Z.leb_le | apply Z.ltb_lt]; lia.
Qed.

Lemma sub_in_range (a : list Z) (lo hi : Z) :
  0 <= lo <= hi -> hi <= len a ->
  sub a lo hi = Done (firstn (Z.to_nat (hi - lo)) (skipn (Z.to_nat lo) a)).
Proof.
  intros H1 H2. unfold sub.
  replace ((0 <=? lo) && (lo <=? hi) && (hi <=? len a)) with true; [reflexivity|].
  symmetry. rewrite !andb_true_iff. repeat split; apply Z.leb_le; lia.
Qed.

Lemma consume_loop_lits (lits : list Z) (d : decoder) (tail : list Z) :
  rd_data (r d) = lits ++ tail ->
  0 <= pos d -> pos d + len lits <= len (buf d) -> len (buf d) < 4294967296 ->
  consume_loop (length lits) d =
  Done (None, mkDecoder (mkReader tail (rd_fail (r d))) (w d)
                        (splice (buf d) (Z.to_nat (pos d)) lits)
                        (pos d + len lits) (ref d)).
Proof.
  revert d. induction lits as [|x t IH]; intros d Hd Hp Hl Hb.
  - cbn. rewrite splice_nil. destruct d as [[dat fl] ? ? ? ?]. cbn in *. subst dat. 
    unfold len. cbn. now rewrite Z.add_0_r.
  - unfold len in *. cbn [length] in *. cbn [consume_loop].
    unfold readByte, ReadByte. rewrite Hd. cbn [app].
    cbn [set_r buf pos].
    rewrite store_in_range by (unfold len; lia). cbn [bind].
    rewrite IH; cbn [r set_pos set_buf buf pos rd_data rd_fail w ref].
    + rewrite u32_small by lia. f_equal. f_equal. f_equal.
      * replace (Z.to_nat (pos d + 1)) with (S (Z.to_nat (pos d))) by lia.
        apply splice_cons. lia.
      * lia.
    + reflexivity.
    + apply u32_range.
    + rewrite set_nth_length, u32_small by lia. lia.
    + rewrite set_nth_length. lia.
Qed.

Lemma cut_before_offset (d : decoder) (k : nat) (code : Z) (lits tail : list Z) :
  rd_data (r d) = code :: lits ++ tail ->
  rd_fail (r d) = EOF ->
  (length tail <= 1)%nat ->
  Z.shiftr code mlBits = len lits ->
  len lits < runMask ->
  0 <= pos d -> pos d + len lits <= bufferSize -> len (buf d) = bufferSize ->
  decode1_loop (S k) d = Done (None, w d ++ firstn (Z.to_nat (pos d)) (buf d) ++ lits).
Proof.
  intros Hd Hf Ht Hc Hl Hp Hr Hb.
  assert (BS : bufferSize = 131072) by reflexivity.
  pose proof (len_nonneg lits) as Hn.
  cbn [decode1_loop]. unfold decode1_iter, readByte at 1, ReadByte. rewrite Hd.
  rewrite Hc. rewrite eqb_false by lia.
  cbn [bind]. unfold consume, flush. cbn [pos set_r].
  rewrite (gtb_false (u32 (pos d + len lits))) by (rewrite u32_small; lia).
  cbn [bind]. unfold len at 1. rewrite Nat2Z.id.
  rewrite consume_loop_lits with (tail := tail); cbn [r rd_data set_r buf pos w ref rd_fail];
    try reflexivity; try lia.
  cbn [bind].
  assert (F : forall dd, rd_data (r dd) = tail -> rd_fail (r dd) = EOF ->
            exists v dd', readUint16 dd = (v, Some EOF, dd')
              /\ w dd' = w dd /\ buf dd' = buf dd /\ pos dd' = pos dd).
  { intros [[dat fl] w0 b0 p0 r0] E1 E2. cbn in E1, E2. subst dat fl.
    unfold readUint16, readByte, ReadByte. cbn.
    destruct tail as [|t1 [|t2 tl]]; cbn in Ht; try lia; cbn;
      eexists _, _; (split; [reflexivity|]); cbn; auto. }
  match goal with |- context [read_match ?dd _] =>
    destruct (F dd eq_refl Hf) as (v & dd' & Hu & Ew & Eb & Ep); unfold read_match; rewrite Hu end.
  unfold ret_finish, finish. cbn [error_eqb]. rewrite Eb, Ep.
  cbn [buf pos] .
  rewrite sub_in_range.
  - cbn [bind]. rewrite Ew. cbn [w set_w]. f_equal. f_equal. f_equal.
    rewrite Z.sub_0_r. cbn [skipn Z.to_nat].
    replace (Z.to_nat (pos d + len lits)) with (Z.to_nat (pos d) + length lits)%nat
      by (unfold len; lia).
    apply firstn_splice. unfold len in *. lia.
  - unfold len. lia.
  - unfold len in *. rewrite splice_length; lia.
Qed.

End ReaderLiterals.

Lemma lor_shiftl_add (hi lo k : Z) :
  0 <= k -> 0 <= hi -> 0 <= lo < 2 ^ k -> Z.lor (Z.shiftl hi k) lo = hi * 2 ^ k + lo.
Proof.
  intros Hk Hh Hl.
  assert (N : Z.land (Z.shiftl hi k) lo = 0).
  { destruct (Z.eq_dec lo 0) as [->|Hne]; [apply Z.land_0_r|].
    apply Z.bits_inj'. intros n Hn. rewrite Z.land_spec, Z.bits_0.
    destruct (Z.ltb_spec n k).
    - rewrite Z.shiftl_spec_low by lia. reflexivity.
    - rewrite (Z.bits_above_log2 lo n), andb_false_r; [reflexivity | lia |].
      apply Z.log2_lt_pow2; [lia|].
      apply Z.lt_le_trans with (2 ^ k); [lia|]. apply Z.pow_le_mono_r; lia. }
  rewrite <- Z.lxor_lor by exact N.
  rewrite <- Z.add_nocarry_lxor by exact N.
  rewrite Z.shiftl_mul_pow2 by lia. reflexivity.
Qed.

Module ReaderOffsets.

Import Reader ReaderRuns ReaderLiterals.
Import ReaderSpec.

Lemma sub_too_far (a : list Z) (lo hi : Z) : len a < hi -> sub a lo hi = Panic.
Proof.
  intros H. unfold sub.
  replace (hi <=? len a) with false by (symmetry; apply Z.leb_gt; lia).
  now rewrite andb_false_r.
Qed.



Lemma getLen_loop_255 (n : nat) (last : Z) (rest : list Z) :
  0 <= last < 255 ->
  forall (fuel : nat) (d : decoder) (lg : Z),
  (n < fuel)%nat ->
  rd_data (r d) = repeat 255 n ++ last :: rest ->
  0 <= lg -> lg + 255 * (Z.of_nat n + 1) + last < 4294967296 ->
  getLen_loop fuel d lg 255 =
  Done (lg + 255 * (Z.of_nat n + 1) + last, None, set_r d (mkReader rest (rd_fail (r d)))).
Proof.
  intros Hlast. induction n as [|n IH]; intros fuel d lg Hf Hd H0 Hb;
    (destruct fuel as [|fuel]; [lia|]); cbn [getLen_loop]; 
    replace (255 =? 255) with true by reflexivity;
    unfold readByte, ReadByte; rewrite Hd; cbn [repeat app].
  - destruct fuel; cbn [getLen_loop];
      rewrite (eqb_false last 255) by lia; cbn [set_r r w buf pos ref];
      u32_simpl; do 3 f_equal; lia.
  - rewrite IH; cbn [set_r r w buf pos ref rd_data rd_fail]; try reflexivity; try lia.
    + u32_simpl. do 3 f_equal. lia.
    + apply u32_range.
    + rewrite u32_small by lia. lia.
Qed.

(** a complete length field: [n] bytes 255 and a last byte below 255 *)
Lemma getLen_complete (n : nat) (last : Z) (rest : list Z) (d : decoder) :
  0 <= last < 255 ->
  rd_data (r d) = repeat 255 n ++ last :: rest ->
  255 * Z.of_nat n + last < 4294967296 ->
  getLen d = Done (255 * Z.of_nat n + last, None, set_r d (mkReader rest (rd_fail (r d)))).
Proof.
  intros Hl Hd Hb. unfold getLen, readByte, ReadByte. rewrite Hd.
  destruct n as [|n]; cbn [repeat app].
  - cbn [getLen_loop]. rewrite (eqb_false last 255) by lia.
    rewrite u32_small by lia. reflexivity.
  - rewrite getLen_loop_255 with (n := n) (last := last) (rest := rest);
      cbn [set_r r w buf pos ref rd_data rd_fail]; try reflexivity; try lia.
    + do 3 f_equal. lia.
    + cbn [length]. rewrite length_app, repeat_length. lia.
Qed.


(** what [flush] does when the read cursor is a window or more into the
    buffer *)
Lemma flush_slides (d : decoder) (lg : Z) :
  len (buf d) = bufferSize ->
  flushSize <= ref d -> ref d <= pos d -> pos d <= bufferSize ->
  u32 (pos d + lg) > bufferSize ->
  exists b,
    flush d lg = Done (mkDecoder (r d) (w d ++ firstn (Z.to_nat (ref d - flushSize)) (buf d))
                                 b (flushSize + (pos d - ref d)) flushSize)
    /\ len b = bufferSize
    /\ firstn (Z.to_nat (flushSize + (pos d - ref d))) b
       = firstn (Z.to_nat (flushSize + (pos d - ref d)))
                (skipn (Z.to_nat (ref d - flushSize)) (buf d)).
Proof.
  intros Hb Hr Hp Hq Hg.
  assert (BS : bufferSize = 131072) by reflexivity.
  assert (FS : flushSize = 65536) by reflexivity.
  unfold flush. rewrite gtb_true by lia.
  rewrite (u32_small (ref d - flushSize)) by lia.
  rewrite sub_in_range by lia. cbn [bind set_w buf pos ref w].
  rewrite (u32_small (pos d - ref d)) by lia.
  rewrite (u32_small (flushSize + (pos d - ref d))) by lia.
  rewrite (sub_in_range (buf d) 0) by lia. cbn [bind].
  rewrite sub_in_range by lia. cbn [bind].
  rewrite Z.sub_0_r. change (Z.to_nat 0) with 0%nat. cbn [skipn].
  unfold set_ref, set_pos, set_buf, set_w. cbn [r w buf pos ref].
  eexists. split; [reflexivity|].
  replace (pos d - (ref d - flushSize)) with (flushSize + (pos d - ref d)) by lia.
  set (m := Z.to_nat (flushSize + (pos d - ref d))).
  set (tl := firstn m (skipn (Z.to_nat (ref d - flushSize)) (buf d))).
  assert (Lt : length tl = m).
  { unfold tl. rewrite length_firstn, length_skipn. unfold len in Hb. lia. }
  unfold blit. rewrite Lt, Nat.min_id. cbn [Z.to_nat firstn app Nat.add].
  rewrite (firstn_all2 (n := m) tl) by lia.
  split.
  - unfold len in *. rewrite length_app, length_skipn, Lt. lia.
  - rewrite firstn_app, Lt, Nat.sub_diag. cbn [firstn]. rewrite app_nil_r.
    rewrite firstn_all2 by lia. reflexivity.
Qed.

End ReaderOffsets.

Lemma replicate_length n a p back : length (replicate n a p back) = length a.
Proof.
  revert a p. induction n as [|n IH]; intros a p; cbn; [reflexivity|].
  rewrite IH. apply set_nth_length.
Qed.

Lemma replicate_app n m a p back :
  replicate (n + m) a p back = replicate m (replicate n a p back) (p + n) back.
Proof.
  revert a p. induction n as [|n IH]; intros a p; cbn.
  - now rewrite Nat.add_0_r.
  - rewrite IH. now replace (S p + n)%nat with (p + S n)%nat by lia.
Qed.

Lemma replicate_below n a p back j :
  (j < p)%nat -> nth j (replicate n a p back) 0 = nth j a 0.
Proof.
  revert a p. induction n as [|n IH]; intros a p H; cbn; [reflexivity|].
  rewrite IH by lia. apply nth_set_nth_neq. lia.
Qed.

Lemma periodic_step a lo p back :
  (1 <= back <= p)%nat -> (p < length a)%nat ->
  periodic a lo p back ->
  periodic (set_nth a p (nth (p - back) a 0)) lo (S p) back.
Proof.
  intros Hb Hp Hper j Hj.
  destruct (Nat.eq_dec j p) as [->|Hne].
  - rewrite nth_set_nth_eq by lia. rewrite nth_set_nth_neq by lia. reflexivity.
  - rewrite !nth_set_nth_neq by lia. apply Hper. lia.
Qed.

Lemma periodic_weaken a lo lo' hi back :
  (lo <= lo')%nat -> periodic a lo hi back -> periodic a lo' hi back.
Proof. intros H P j Hj. apply P. lia. Qed.

Lemma replicate_periodic n a lo p back :
  (1 <= back <= p)%nat -> (p + n <= length a)%nat ->
  periodic a lo p back -> periodic (replicate n a p back) lo (p + n) back.
Proof.
  revert a p. induction n as [|n IH]; intros a p Hb Hl Hper; cbn.
  - now rewrite Nat.add_0_r.
  - replace (p + S n)%nat with (S p + n)%nat by lia.
    apply IH; [lia | rewrite set_nth_length; lia |].
    apply periodic_step; [lia | lia | exact Hper].
Qed.

Lemma periodic_chain a p back k :
  (1 <= k)%nat -> (k * back <= p)%nat ->
  periodic a (p - k * back + back) p back ->
  nth (p - back) a 0 = nth (p - k * back) a 0.
Proof.
  induction k as [|k IH]; intros Hk Hp Hper; [lia|].
  destruct (Nat.eq_dec k 0) as [->|Hk0].
  - now rewrite Nat.mul_1_l.
  - destruct (Nat.eq_dec back 0) as [->|Hb0].
    + now rewrite !Nat.mul_0_r.
    + rewrite IH.
      * rewrite (Hper (p - k * back)%nat) by nia.
        f_equal. nia.
      * lia.
      * nia.
      * eapply periodic_weaken; [|exact Hper]. nia.
Qed.

Lemma replicate_multiple n a p back k :
  (1 <= back)%nat -> (1 <= k)%nat -> (k * back <= p)%nat -> (p + n <= length a)%nat ->
  periodic a (p - k * back + back) p back ->
  replicate n a p (k * back) = replicate n a p back.
Proof.
  revert a p. induction n as [|n IH]; intros a p Hb Hk Hp Hl Hper; cbn; [reflexivity|].
  rewrite <- (periodic_chain a p back k) by assumption.
  apply IH; try lia.
  - rewrite set_nth_length. lia.
  - eapply periodic_weaken; [|apply periodic_step; [nia | lia | exact Hper]]. nia.
Qed.

Module ReaderOverlap.

Import Reader ReaderRuns ReaderLiterals ReaderOffsets.
Import ReaderSpec.

Lemma cp_loop_replicate (n : nat) (ii : Z) (d : decoder) :
  0 <= ii -> 0 <= ref d <= pos d ->
  pos d + ii + Z.of_nat n <= len (buf d) -> len (buf d) < 4294967296 ->
  cp_loop n ii d =
  Done (set_buf d (replicate n (buf d) (Z.to_nat (pos d + ii)) (Z.to_nat (pos d - ref d)))).
Proof.
  revert ii d. induction n as [|n IH]; intros ii d Hi Hr Hl Hb; cbn [cp_loop replicate].
  - destruct d; reflexivity.
  - rewrite (u32_small (ref d + ii)), (u32_small (pos d + ii)) by lia.
    rewrite index_in_range by lia. cbn [bind].
    rewrite store_in_range by lia. cbn [bind].
    rewrite IH; cbn [set_buf buf pos ref r w]; try lia.
    + replace (Z.to_nat (pos d + ii) - Z.to_nat (pos d - ref d))%nat
        with (Z.to_nat (ref d + ii)) by lia.
      replace (Z.to_nat (pos d + (ii + 1))) with (S (Z.to_nat (pos d + ii))) by lia.
      reflexivity.
    + unfold len in *. rewrite set_nth_length. lia.
    + unfold len in *. rewrite set_nth_length. lia.
Qed.

(** a copy that needs no flush *)
Lemma cp_fits (d : decoder) (lg dc : Z) :
  0 <= lg -> 0 <= dc <= lg -> 0 <= ref d <= pos d ->
  pos d + lg <= bufferSize -> len (buf d) = bufferSize ->
  cp d lg dc =
  Done (mkDecoder (r d) (w d)
          (replicate (Z.to_nat lg) (buf d) (Z.to_nat (pos d)) (Z.to_nat (pos d - ref d)))
          (pos d + lg) (ref d + (lg - dc))).
Proof.
  intros Hl Hd Hr Hp Hb. assert (BS : bufferSize = 131072) by reflexivity.
  unfold cp, flush. rewrite gtb_false by (rewrite u32_small; lia). cbn [bind].
  rewrite cp_loop_replicate by lia. cbn [bind set_buf set_pos set_ref pos ref r w buf].
  rewrite Z.add_0_r. u32_simpl. reflexivity.
Qed.

Lemma short_offset_replicates (d : decoder) (lg : Z) :
  len (buf d) = bufferSize ->
  0 <= ref d ->
  1 <= pos d - ref d <= 3 ->
  0 <= lg -> pos d + 4 + lg <= bufferSize ->
  exists ref',
  copy_match d lg =
  Done (mkDecoder (r d) (w d)
          (replicate (Z.to_nat (4 + lg)) (buf d) (Z.to_nat (pos d)) (Z.to_nat (pos d - ref d)))
          (pos d + 4 + lg) ref').
Proof.
  intros Hb Hr Hk Hl Hp. assert (BS : bufferSize = 131072) by reflexivity.
  unfold copy_match. rewrite (u32_small (pos d - ref d)) by lia.
  rewrite ltb_true by lia.
  remember (pos d - ref d) as back eqn:Eback.
  assert (Hdc : exists dc, index decr back = Done dc /\ 1 <= dc <= 3
                 /\ exists k, (1 <= k)%nat /\ Z.to_nat (back + dc) = (k * Z.to_nat back)%nat).
  { assert (C : back = 1 \/ back = 2 \/ back = 3) by lia.
    destruct C as [-> | [-> | ->]].
    - exists 3. split; [reflexivity|]. split; [lia|]. exists 4%nat. split; [lia | reflexivity].
    - exists 2. split; [reflexivity|]. split; [lia|]. exists 2%nat. split; [lia | reflexivity].
    - exists 3. split; [reflexivity|]. split; [lia|]. exists 2%nat. split; [lia | reflexivity]. }
  destruct Hdc as (dc & -> & Hdc & k & Hk1 & Hk2). cbn [bind].
  rewrite cp_fits by lia. cbn [bind].
  pose proof (replicate_length 4 (buf d) (Z.to_nat (pos d)) (Z.to_nat back)) as L4.
  rewrite cp_fits; cbn [pos ref buf r w]; try lia;
    [|unfold len in *; rewrite replicate_length; lia].
  eexists. f_equal. f_equal.
  rewrite <- Eback. symmetry.
  change (Z.to_nat 4) with 4%nat.
  replace (Z.to_nat (4 + lg)) with (4 + Z.to_nat lg)%nat by lia.
  rewrite replicate_app.
  replace (pos d + 4 - (ref d + (4 - dc))) with (back + dc) by lia.
  rewrite Hk2.
  replace (Z.to_nat (pos d + 4)) with (Z.to_nat (pos d) + 4)%nat by lia.
  symmetry. apply replicate_multiple; try lia.
  - unfold len in *. lia.
  - eapply periodic_weaken; [|apply replicate_periodic].
    + instantiate (1 := Z.to_nat (pos d)). lia.
    + lia.
    + unfold len in *. lia.
    + intros j Hj. lia.
Qed.

End ReaderOverlap.

Lemma frame_refl a h : frame a h h.
Proof. split; auto. Qed.

Lemma frame_trans a h1 h2 h3 : frame a h1 h2 -> frame a h2 h3 -> frame a h1 h3.
Proof.
  intros [L1 F1] [L2 F2]. split; [congruence|].
  intros i Hi. rewrite F2, F1; auto.
Qed.

Lemma frame_set_nth a h x : frame a h (set_nth h a x).
Proof.
  split; [apply set_nth_length|]. intros i Hi. apply nth_set_nth_neq. auto.
Qed.

Lemma andb_range (i n : Z) : 0 <= i < n -> (0 <=? i) && (i <? n) = true.
Proof. intros H. apply andb_true_iff. split; [apply Z.leb_le | apply Z.ltb_lt]; lia. Qed.

Lemma u32_add_sub (a c : Z) : u32 (u32 (a - c) + c) = u32 a.
Proof.
  unfold u32. rewrite Zplus_mod_idemp_l. f_equal. lia.
Qed.

Module BlockWrites.

Import Reader Block BlockFacts.
Import ReaderSpec BlockSpec.

Lemma reslice_ok (s : slice) (lo hi : Z) :
  0 <= lo <= hi -> hi <= scap s ->
  reslice s lo hi = Done (mkSlice (arr s) (off s + lo) (hi - lo) (scap s - lo)).
Proof.
  intros H1 H2. unfold reslice.
  replace ((0 <=? lo) && (lo <=? hi) && (hi <=? scap s)) with true; [reflexivity|].
  symmetry. rewrite !andb_true_iff. repeat split; apply Z.leb_le; lia.
Qed.

Lemma src_at_ok (e : encoder) (i : Z) :
  0 <= i < slen (src e) -> exists v, src_at e i = Done v.
Proof.
  intros H. unfold src_at, sl_index. rewrite andb_range by lia. eexists. reflexivity.
Qed.

Ltac enc_simpl :=
  unfold set_dpos, set_mem, set_pos, set_anchor, set_hashTable, wrote in *;
  cbn [mem src dst hashTable pos anchor dpos bind] in *.

Lemma dst_put_ok (e : encoder) (i v : Z) :
  0 <= i < slen (dst e) ->
  exists m, dst_put e i v = Done (wrote e m (dpos e)) /\ frame (arr (dst e)) (mem e) m.
Proof.
  intros H. unfold dst_put, sl_store. rewrite andb_range by lia. cbn [bind].
  eexists. split; [reflexivity | apply frame_set_nth].
Qed.

Lemma ext_loop_ok (fuel : nat) (e : encoder) (ln : Z) :
  0 <= ln <= Z.of_nat fuel -> ln < 4294967296 ->
  0 <= dpos e -> dpos e + ln / 255 <= slen (dst e) -> dpos e + ln / 255 < 4294967296 ->
  exists m, ext_loop fuel e ln = Done (wrote e m (dpos e + ln / 255), ln mod 255)
            /\ frame (arr (dst e)) (mem e) m.
Proof.
  revert e ln. induction fuel as [|k IH]; intros e ln Hl Hu Hd Hr Hb.
  - cbn [ext_loop]. rewrite gtb_false by lia.
    replace ln with 0 by lia. cbn. rewrite Z.add_0_r.
    exists (mem e). split; [destruct e; reflexivity | apply frame_refl].
  - cbn [ext_loop]. destruct (Z.gtb_spec ln 254).
    + assert (Q : ln / 255 = (ln - 255) / 255 + 1 /\ ln mod 255 = (ln - 255) mod 255)
        by (Z.div_mod_to_equations; lia).
      destruct Q as [Q1 Q2].
      assert (0 <= (ln - 255) / 255) by (Z.div_mod_to_equations; lia).
      destruct (dst_put_ok e (dpos e) 255) as (m1 & -> & F1); [lia|]. enc_simpl.
      rewrite (u32_small (dpos e + 1)) by lia.
      rewrite (u32_small (ln - 255)) by lia.
      edestruct (IH (mkEncoder m1 (src e) (dst e) (hashTable e) (pos e) (anchor e) (dpos e + 1))
                    (ln - 255)) as (m2 & -> & F2); cbn [dpos dst mem]; try lia.
      exists m2. split.
      * enc_simpl. rewrite Q1, Q2. do 3 f_equal. lia.
      * eapply frame_trans; eauto.
    + exists (mem e). rewrite Z.div_small, Z.mod_small, Z.add_0_r by lia.
      split; [destruct e; reflexivity | apply frame_refl].
Qed.

Lemma ext_cost_bound (l : Z) : 0 <= l -> 0 <= ext_cost l /\ 255 * ext_cost l <= l + 240.
Proof.
  intros H. unfold ext_cost. destruct (Z.ltb_spec l 15); [lia|].
  Z.div_mod_to_equations. lia.
Qed.

Lemma copy_frame (h : heap) (d s : slice) : frame (arr d) h (copy h d s).
Proof. apply frame_set_nth. Qed.

Lemma write_ext_ok (e : encoder) (ln : Z) :
  0 <= ln < 4294967296 ->
  0 <= dpos e -> dpos e + ln / 255 + 1 <= slen (dst e) ->
  dpos e + ln / 255 + 1 < 4294967296 ->
  exists m, write_ext e ln = Done (wrote e m (dpos e + ln / 255 + 1))
            /\ frame (arr (dst e)) (mem e) m.
Proof.
  intros Hl Hd Hr Hb. unfold write_ext.
  assert (0 <= ln / 255) by (Z.div_mod_to_equations; lia).
  destruct (ext_loop_ok (Z.to_nat ln) e ln) as (m1 & -> & F1); try lia.
  cbn [bind].
  destruct (dst_put_ok (wrote e m1 (dpos e + ln / 255)) (dpos e + ln / 255) (u8 (ln mod 255)))
    as (m2 & E2 & F2); [enc_simpl; lia|].
  enc_simpl. unfold wrote in E2. cbn [dpos] in E2. rewrite E2. enc_simpl.
  rewrite u32_small by lia.
  exists m2. split; [reflexivity|]. eapply frame_trans; [exact F1 | exact F2].
Qed.

Lemma copy_literals_ok (e : encoder) (lg p : Z) :
  0 <= lg -> 0 <= p -> p + lg <= scap (src e) -> p + lg < 4294967296 ->
  0 <= dpos e <= slen (dst e) -> slen (dst e) <= scap (dst e) ->
  dpos e + lg < 4294967296 ->
  exists m, copy_literals e lg p = Done (wrote e m (dpos e + lg))
            /\ frame (arr (dst e)) (mem e) m.
Proof.
  intros Hl Hp Hs Hs' Hd Hc Hb. unfold copy_literals.
  rewrite reslice_ok by lia. cbn [bind].
  rewrite (u32_small (p + lg)) by lia.
  rewrite reslice_ok by lia. enc_simpl.
  rewrite u32_small by lia.
  eexists. split; [reflexivity|].
  unfold copy. cbn [arr]. apply frame_set_nth.
Qed.

Lemma writeLiterals_ok (e : encoder) (lg mlLen p : Z) :
  0 <= lg -> 0 <= p -> p + lg <= scap (src e) -> p + lg < 4294967296 ->
  0 <= dpos e -> dpos e + lit_cost lg <= slen (dst e) ->
  slen (dst e) <= scap (dst e) -> dpos e + lit_cost lg < 4294967296 ->
  exists m, writeLiterals e lg mlLen p = Done (wrote e m (dpos e + lit_cost lg))
            /\ frame (arr (dst e)) (mem e) m.
Proof.
  intros Hl Hp Hs Hs' Hd Hr Hc Hb.
  pose proof (ext_cost_bound lg Hl) as [E0 E1].
  unfold lit_cost in *. unfold writeLiterals.
  assert (RM : runMask = 15) by reflexivity. assert (MM : mlMask = 15) by reflexivity.
  set (code := if lg >? runMask - 1 then runMask else u8 lg).
  assert (T : exists m1, (if mlLen >? mlMask - 1
        then dst_put e (dpos e) (u8 (u8 (Z.shiftl code mlBits) + u8 mlMask))
        else dst_put e (dpos e) (u8 (u8 (Z.shiftl code mlBits) + u8 mlLen)))
        = Done (wrote e m1 (dpos e)) /\ frame (arr (dst e)) (mem e) m1).
  { destruct (mlLen >? mlMask - 1); apply dst_put_ok; lia. }
  destruct T as (m1 & -> & F1). enc_simpl.
  rewrite (u32_small (dpos e + 1)) by lia.
  set (e1 := mkEncoder m1 (src e) (dst e) (hashTable e) (pos e) (anchor e) (dpos e + 1)).
  assert (X : exists m2,
        (if code =? runMask then write_ext e1 (u32 (lg - runMask)) else Done e1)
        = Done (wrote e m2 (dpos e + 1 + ext_cost lg))
        /\ frame (arr (dst e)) (mem e) m2).
  { unfold code. unfold ext_cost in *. rewrite RM. destruct (Z.gtb_spec lg (15 - 1)).
    - rewrite Z.eqb_refl. rewrite ltb_false in * by lia.
      rewrite (u32_small (lg - 15)) by lia.
      assert (0 <= (lg - 15) / 255) by (Z.div_mod_to_equations; lia).
      destruct (write_ext_ok e1 (lg - 15)) as (m2 & -> & F2);
        unfold e1; enc_simpl; try lia.
      exists m2. split; [do 2 f_equal; lia|].
      eapply frame_trans; [exact F1 | exact F2].
    - assert (u8 lg <> 15).
      { unfold u8. rewrite Z.mod_small by lia. lia. }
      rewrite eqb_false by assumption. rewrite ltb_true in * by lia.
      exists m1. split; [|exact F1]. unfold e1, wrote. do 2 f_equal. lia. }
  destruct X as (m2 & -> & F2). cbn [bind].
  destruct (copy_literals_ok (wrote e m2 (dpos e + 1 + ext_cost lg)) lg p)
    as (m3 & -> & F3); enc_simpl; try lia.
  exists m3. split; [do 2 f_equal; lia|].
  eapply frame_trans; [exact F2 | exact F3].
Qed.

Lemma extend_loop_ok (fuel : nat) (e : encoder) (rf : Z) :
  0 <= rf < pos e -> pos e <= slen (src e) -> slen (src e) < 4294967296 ->
  slen (src e) - pos e <= Z.of_nat fuel ->
  exists p, extend_loop fuel e rf = Done (set_pos e p, rf + (p - pos e))
            /\ pos e <= p <= slen (src e).
Proof.
  revert e rf. induction fuel as [|k IH]; intros e rf Hr Hp Hn Hf; cbn [extend_loop].
  - rewrite ltb_false by lia. exists (pos e). split; [|lia].
    rewrite Z.sub_diag, Z.add_0_r. destruct e; reflexivity.
  - destruct (Z.ltb_spec (pos e) (slen (src e))).
    + destruct (src_at_ok e (pos e)) as (a & ->); [lia|]. cbn [bind].
      destruct (src_at_ok e rf) as (b & ->); [lia|]. cbn [bind].
      destruct (a =? b).
      * rewrite (u32_small (pos e + 1)), (u32_small (rf + 1)) by lia.
        destruct (IH (set_pos e (pos e + 1)) (rf + 1)) as (p & -> & Hq);
          enc_simpl; try lia.
        exists p. split; [|lia]. f_equal. f_equal. lia.
      * exists (pos e). split; [|lia].
        rewrite Z.sub_diag, Z.add_0_r. destruct e; reflexivity.
    + exists (pos e). split; [|lia].
      rewrite Z.sub_diag, Z.add_0_r. destruct e; reflexivity.
Qed.

End BlockWrites.

Module BlockMatch.

Import Reader Block BlockFacts BlockWrites.
Import ReaderSpec BlockSpec.

Lemma emit_match_ok (e : encoder) (rf : Z) :
  0 <= anchor e <= pos e -> pos e + 4 < slen (src e) ->
  slen (src e) < MaxInputSize -> slen (src e) <= scap (src e) ->
  0 <= rf < pos e ->
  0 <= dpos e -> 255 * dpos e <= 256 * anchor e ->
  slen (src e) + slen (src e) / 255 + 16 <= slen (dst e) ->
  slen (dst e) <= scap (dst e) ->
  exists m p dp,
    emit_match e rf = Done (mkEncoder m (src e) (dst e) (hashTable e) p p dp)
    /\ frame (arr (dst e)) (mem e) m
    /\ pos e + 4 <= p <= slen (src e)
    /\ 0 <= dp /\ 255 * dp <= 256 * p.
Proof.
  intros Ha Hp Hn Hc Hr Hd Hi HD HC.
  assert (MX : MaxInputSize = 2113929216) by reflexivity.
  assert (MM : mlMask = 15) by reflexivity.
  unfold emit_match, minMatch. cbn zeta.
  rewrite (u32_small (pos e - anchor e)), (u32_small (pos e + 4)), (u32_small (rf + 4)) by lia.
  enc_simpl.
  match goal with |- context [extend_loop ?f ?x ?y] =>
    destruct (extend_loop_ok f x y) as (p & -> & Hq); enc_simpl; try lia end.
  unfold write_match. enc_simpl.
  rewrite (u32_small (p - (pos e + 4))) by lia.
  set (l := pos e - anchor e). set (ml := p - (pos e + 4)).
  pose proof (ext_cost_bound l ltac:(lia)) as [El0 El1].
  pose proof (ext_cost_bound ml ltac:(lia)) as [Em0 Em1].
  assert (Em2 : ml < 15 -> ext_cost ml = 0)
    by (intros; unfold ext_cost; rewrite ltb_true by lia; reflexivity).
  assert (Em3 : 15 <= ml -> ext_cost ml = (ml - 15) / 255 + 1)
    by (intros; unfold ext_cost; rewrite ltb_false by lia; reflexivity).
  assert (Q : 255 * (slen (src e) / 255) <= slen (src e) < 255 * (slen (src e) / 255) + 255)
    by (Z.div_mod_to_equations; lia).
  assert (B : 255 * (dpos e + lit_cost l + 2 + ext_cost ml) <= 256 * p).
  { unfold lit_cost. destruct (Z.ltb_spec ml 15); [rewrite Em2 by lia | ]; lia. }
  match goal with |- context [writeLiterals ?x ?a ?b ?c] =>
    destruct (writeLiterals_ok x a b c) as (m1 & -> & F1); enc_simpl;
      try (unfold lit_cost in *; lia) end.
  match goal with |- context [dst_put ?x ?a ?b] =>
    destruct (dst_put_ok x a b) as (m2 & -> & F2); enc_simpl;
      [unfold lit_cost in *; lia|] end.
  rewrite (u32_small (dpos e + lit_cost l + 1)) by (unfold lit_cost in *; lia).
  match goal with |- context [dst_put ?x ?a ?b] =>
    destruct (dst_put_ok x a b) as (m3 & -> & F3); enc_simpl;
      [unfold lit_cost in *; lia|] end.
  rewrite (u32_small (dpos e + lit_cost l + 2)) by (unfold lit_cost in *; lia).
  rewrite MM. destruct (Z.gtb_spec ml (15 - 1)).
  - rewrite (u32_small (ml - 15)) by lia.
    assert (0 <= (ml - 15) / 255) by (Z.div_mod_to_equations; lia).
    rewrite Em3 in * by lia.
    match goal with |- context [write_ext ?x ?a] =>
      destruct (write_ext_ok x a) as (m4 & -> & F4); enc_simpl;
        try (unfold lit_cost in *; lia) end.
    eexists m4, p, _. split; [reflexivity|]. split; [|split; [lia|]].
    + eapply frame_trans; [exact F1|]. eapply frame_trans; [exact F2|].
      eapply frame_trans; [exact F3 | exact F4].
    + unfold lit_cost in *. lia.
  - rewrite Em2 in * by lia. cbn [bind]. enc_simpl.
    eexists m3, p, _. split; [reflexivity|]. split; [|split; [lia|]].
    + eapply frame_trans; [exact F1|]. eapply frame_trans; [exact F2 | exact F3].
    + unfold lit_cost in *. lia.
Qed.

End BlockMatch.

Lemma Forall_set_nth {A : Type} (P : A -> Prop) (a : list A) (n : nat) (v : A) :
  Forall P a -> P v -> Forall P (set_nth a n v).
Proof.
  intros H Hv. revert n. induction H as [|x t Hx Ht IH]; intros [|n]; cbn; auto.
Qed.

Lemma set_nth_twice {A : Type} (a : list A) (n : nat) (x y : A) :
  set_nth (set_nth a n x) n y = set_nth a n y.
Proof.
  revert n. induction a as [|z t IH]; intros [|n]; cbn; auto. now rewrite IH.
Qed.

Lemma Forall_nth_Z {A : Type} (P : A -> Prop) (a : list A) (i : Z) (d : A) :
  Forall P a -> 0 <= i < len a -> P (nth (Z.to_nat i) a d).
Proof.
  intros H Hi. rewrite Forall_forall in H. apply H. apply nth_In. unfold len in Hi. lia.
Qed.

Lemma shiftr_range (z : Z) :
  0 <= z < 4294967296 -> 0 <= Z.shiftr z 15 < 131072.
Proof.
  intros H. rewrite Z.shiftr_div_pow2 by lia. change (2 ^ 15) with 32768.
  Z.div_mod_to_equations. lia.
Qed.

Module BlockBound.

Import Reader Block BlockFacts BlockWrites BlockMatch. Import ReaderLiterals.
Import ReaderSpec BlockSpec.

Lemma hash_range (s : Z) : 0 <= hash s < hashTableSize.
Proof. unfold hash, hashShift. cbn. apply shiftr_range. apply u32_range. Qed.

Lemma Encode_iter_ok (e : encoder) (step limit : Z) :
  Inv e step limit -> turn_ok e step (Encode_iter e step limit).
Proof.
  intros [Hn Hsc Hroom Hdc Ha [Hs1 Hs2] Hl [Hp1 Hp2] [Hd1 Hd2] Htl Ht].
  assert (MX : MaxInputSize = 2113929216) by reflexivity.
  assert (UH : uninitHash = 2290649224) by reflexivity.
  assert (Q : 255 * (slen (src e) / 255) <= slen (src e) < 255 * (slen (src e) / 255) + 255)
    by (Z.div_mod_to_equations; lia).
  unfold Encode_iter. destruct (Z.geb_spec (pos e + 4) (slen (src e))) as [Hge|Hlt].
  - (* the last literals *)
    rewrite (u32_small (slen (src e))) by lia.
    rewrite (u32_small (slen (src e) - anchor e)) by lia.
    set (l := slen (src e) - anchor e).
    pose proof (ext_cost_bound l ltac:(lia)) as [El0 El1].
    destruct (writeLiterals_ok e l 0 (anchor e)) as (m & -> & F);
      try (unfold lit_cost; lia).
    enc_simpl. rewrite reslice_ok by (unfold lit_cost; lia). cbn [bind turn_ok].
    split; [lia|]. split; [exact F|]. cbn [slen]. split; [reflexivity|].
    unfold lit_cost. lia.
  - (* a candidate is looked up *)
    destruct (readUint32_in_range e (pos e)) as (sq & ->); [lia | lia |]. cbn [bind].
    pose proof (hash_range sq) as Hh.
    rewrite index_in_range by lia. cbn [bind].
    rewrite store_in_range by lia. enc_simpl.
    set (v := nth (Z.to_nat (hash sq)) (hashTable e) 0).
    assert (Hv : slot_ok (pos e) step v) by (apply Forall_nth_Z; [exact Ht | lia]).
    set (rf := u32 (v + uninitHash)) in *.
    pose proof (u32_range (v + uninitHash)) as Hrf. fold rf in Hrf.
    set (t1 := set_nth (hashTable e) (Z.to_nat (hash sq)) (u32 (pos e - uninitHash))).
    assert (Ht1 : forall p' s', pos e + s' <= p' -> step <= s' ->
               Forall (slot_ok p' s') t1).
    { intros p' s' Hp' Hs'. apply Forall_set_nth.
      - eapply Forall_impl; [|exact Ht]. intros x [Hx|Hx]; [left; exact Hx | right; lia].
      - right. rewrite u32_add_sub, u32_small by lia. lia. }
    assert (Lt1 : len t1 = hashTableSize)
      by (unfold t1, len in *; rewrite set_nth_length; exact Htl).
    set (e1 := mkEncoder (mem e) (src e) (dst e) t1 (pos e) (anchor e) (dpos e)).
    assert (R : exists rj,
      (if negb (Z.shiftr (u32 (pos e - rf)) 16 =? 0) then Done true
       else s <- readUint32 e1 rf ;; Done (negb (s =? sq))) = Done rj
      /\ (rj = false -> rf + step <= pos e)).
    { destruct Hv as [Hv|Hv].
      - fold rf in Hv. rewrite Hv. rewrite u32_wrap_neg by lia.
        rewrite shiftr16_zero by lia. rewrite ltb_false by lia. cbn [negb].
        exists true. split; [reflexivity | discriminate].
      - fold rf in Hv. rewrite (u32_small (pos e - rf)) by lia.
        destruct (negb _); [exists true; split; [reflexivity | discriminate]|].
        destruct (readUint32_in_range e1 rf) as (s & ->); [lia | unfold e1; enc_simpl; lia |].
        cbn [bind]. eexists. split; [reflexivity | intros _; exact Hv]. }
    destruct R as (rj & -> & Hrj). cbn [bind]. destruct rj.
    + (* rejected *)
      rewrite (u32_small (pos e - anchor e)) by lia.
      destruct (Z.gtb_spec (pos e - anchor e) limit) as [Hgt|Hle].
      * assert (Z.shiftl limit 1 = 2 * limit) as -> by (rewrite Z.shiftl_mul_pow2; lia).
        assert (0 <= Z.shiftr step 2 /\ 4 * Z.shiftr step 2 <= step) as [Sh1 Sh2].
        { rewrite Z.shiftr_div_pow2 by lia. change (2 ^ 2) with 4.
          Z.div_mod_to_equations. lia. }
        rewrite (u32_small (2 * limit)) by lia.
        rewrite (u32_small (step + (1 + Z.shiftr step 2))) by lia.
        rewrite u32_small by lia.
        cbn [turn_ok]. split; [lia|]. split; [|split; reflexivity].
        split; [|split; [reflexivity|split; [reflexivity|split; [apply frame_refl|]]]].
        -- constructor; enc_simpl; try lia. apply Ht1; lia.
        -- unfold mu. enc_simpl. rewrite (gtb_true (step + _)) by lia.
           destruct (step >? 1); lia.
      * rewrite u32_small by lia.
        cbn [turn_ok]. split; [lia|]. split; [|split; reflexivity].
        split; [|split; [reflexivity|split; [reflexivity|split; [apply frame_refl|]]]].
        -- constructor; enc_simpl; try lia. apply Ht1; lia.
        -- unfold mu. enc_simpl. destruct (step >? 1); lia.
    + specialize (Hrj eq_refl).
      destruct (Z.gtb_spec step 1) as [Hs|Hs].
      * (* accepted after a stride: rewind *)
        rewrite store_in_range by lia. enc_simpl.
        rewrite (u32_small (pos e - (step - 1))) by lia.
        cbn [turn_ok]. split; [lia|]. split; [|split; reflexivity].
        split; [|split; [reflexivity|split; [reflexivity|split; [apply frame_refl|]]]].
        -- constructor; enc_simpl; try lia.
           ++ unfold len in *. rewrite set_nth_length. exact Lt1.
           ++ unfold t1. rewrite set_nth_twice. apply Forall_set_nth.
              ** eapply Forall_impl; [|exact Ht].
                 intros x [Hx|Hx]; [left; exact Hx | right; lia].
              ** right. rewrite u32_add_sub, u32_small by lia. lia.
        -- unfold mu. enc_simpl. rewrite (gtb_true step 1), (gtb_false 1 1) by lia. lia.
      * (* a match *)
        assert (step = 1) by lia. subst step.
        destruct (emit_match_ok e1 rf) as (m & p & dp & -> & F & Hq & Hdp0 & Hdp1);
          unfold e1 in *; enc_simpl; try lia.
        cbn [turn_ok]. split; [lia|].
        split; [|split; [reflexivity|split; [reflexivity|split; [exact F|]]]].
        -- constructor; enc_simpl; unfold incompressible; try lia.
           apply Ht1; lia.
        -- unfold mu. enc_simpl. rewrite (gtb_false 1 1) by lia. lia.
Qed.

Lemma Encode_loop_ok (fuel : nat) (e : encoder) (step limit : Z) :
  Inv e step limit -> mu e step <= Z.of_nat fuel ->
  exists h out,
    Encode_loop fuel e step limit = Done (h, out)
    /\ frame (arr (dst e)) (mem e) h
    /\ out = mkSlice (arr (dst e)) (off (dst e) + 0) (slen out) (scap (dst e) - 0)
    /\ 0 <= slen out <= slen (src e) + slen (src e) / 255 + 16.
Proof.
  revert e step limit. induction fuel as [|k IH]; intros e step limit HI Hmu.
  - exfalso. destruct HI. unfold mu in Hmu. destruct (step >? 1); lia.
  - cbn [Encode_loop]. pose proof (Encode_iter_ok e step limit HI) as T.
    destruct (Encode_iter e step limit) as [[h out|e' s' l'|e' s' l'|e' s' l']| |];
      cbn [turn_ok] in T; try contradiction; cbn [bind].
    + destruct T as (_ & F & O & B). exists h, out. auto.
    + destruct T as (_ & (HI' & Es & Ed & F & M) & _).
      destruct (IH e' s' l' HI') as (h & out & -> & F' & O & B); [lia|].
      exists h, out. rewrite Ed, Es in *. split; [reflexivity|].
      split; [eapply frame_trans; eauto | auto].
    + destruct T as (_ & (HI' & Es & Ed & F & M) & _).
      destruct (IH e' s' l' HI') as (h & out & -> & F' & O & B); [lia|].
      exists h, out. rewrite Ed, Es in *. split; [reflexivity|].
      split; [eapply frame_trans; eauto | auto].
    + destruct T as (_ & (HI' & Es & Ed & F & M)).
      destruct (IH e' s' l' HI') as (h & out & -> & F' & O & B); [lia|].
      exists h, out. rewrite Ed, Es in *. split; [reflexivity|].
      split; [eapply frame_trans; eauto | auto].
Qed.

Lemma CompressBound_nonneg (n : Z) :
  0 <= n <= MaxInputSize -> CompressBound n = n + n / 255 + 16.
Proof.
  intros H. rewrite CompressBound_small by lia. rewrite Z.quot_div_nonneg by lia. reflexivity.
Qed.

Lemma repeat_Forall {A : Type} (P : A -> Prop) (x : A) (n : nat) :
  P x -> Forall P (repeat x n).
Proof. intros H. induction n; cbn; auto. Qed.

(** [Encode] returns for every input below the maximum size: it neither
    panics nor loops, it writes to the destination array only, and the
    slice it returns starts where the destination does and is no longer
    than [CompressBound]. *)
Lemma Encode_ok (h : heap) (dst0 src0 : slice) :
  0 <= slen src0 < MaxInputSize -> slen src0 <= scap src0 -> slen dst0 <= scap dst0 ->
  let n := CompressBound (slen src0) in
  let '(h1, dst1) := if slen dst0 <? n then make h n else (h, dst0) in
  exists h' out,
    Encode h dst0 src0 = Done (h', Some out, None)
    /\ frame (arr dst1) h1 h'
    /\ out = mkSlice (arr dst1) (off dst1 + 0) (slen out) (scap dst1 - 0)
    /\ 0 <= slen out <= n.
Proof.
  intros Hn Hsc Hdc n.
  assert (MX : MaxInputSize = 2113929216) by reflexivity.
  assert (En : n = slen src0 + slen src0 / 255 + 16)
    by (apply CompressBound_nonneg; lia).
  assert (Q : 0 <= slen src0 / 255) by (Z.div_mod_to_equations; lia).
  unfold Encode. rewrite geb_false by lia. fold n.
  destruct (if slen dst0 <? n then make h n else (h, dst0)) as [h1 dst1] eqn:Ed.
  assert (Hd1 : n <= slen dst1 <= scap dst1).
  { destruct (Z.ltb_spec (slen dst0) n); injection Ed as <- <-; cbn [slen scap]; lia. }
  set (e0 := mkEncoder h1 src0 dst1 (repeat 0 (Z.to_nat hashTableSize)) 0 0 0).
  destruct (Encode_loop_ok (Z.to_nat (2 * slen src0 + 4)) e0 1 incompressible)
    as (h' & out & -> & F & O & B).
  - unfold e0, incompressible. constructor; enc_simpl; try lia.
    + unfold len. rewrite repeat_length. apply Z2Nat.id. vm_compute. discriminate.
    + apply repeat_Forall. left. vm_compute. reflexivity.
  - unfold mu, e0. enc_simpl. rewrite (gtb_false 1 1) by lia. lia.
  - cbn [bind]. exists h', out. unfold e0 in *. enc_simpl.
    split; [reflexivity|]. split; [exact F|]. split; [exact O | lia].
Qed.

End BlockBound.

Lemma set_nth_splice1 (a : list Z) (n : nat) (v : Z) :
  (n < length a)%nat -> set_nth a n v = splice a n [v].
Proof.
  revert n. induction a as [|x t IH]; intros [|n] H; cbn in *; try lia.
  - unfold splice. cbn. reflexivity.
  - rewrite IH by lia. unfold splice. cbn. reflexivity.
Qed.

Lemma splice_splice (a : list Z) (p : nat) (l1 l2 : list Z) :
  (p + length l1 + length l2 <= length a)%nat ->
  splice (splice a p l1) (p + length l1) l2 = splice a p (l1 ++ l2).
Proof.
  intros H. unfold splice.
  rewrite (app_assoc (firstn p a) l1).
  rewrite firstn_app.
  assert (L : length (firstn p a ++ l1) = (p + length l1)%nat)
    by (rewrite length_app, length_firstn; lia).
  rewrite L, Nat.sub_diag. cbn [firstn]. rewrite app_nil_r.
  rewrite firstn_all2 by lia.
  rewrite skipn_app, L.
  rewrite (skipn_all2 (firstn p a ++ l1)) by lia. cbn [app].
  rewrite skipn_skipn.
  rewrite length_app, <- !app_assoc.
  do 3 f_equal. f_equal. lia.
Qed.

Lemma nth_set_nth_same {A : Type} (h : list A) (n : nat) (x d : A) :
  (n < length h)%nat -> nth n (set_nth h n x) d = x.
Proof. apply nth_set_nth_eq. Qed.

Lemma put_bytes_frame h s i bytes : frame (arr s) h (put_bytes h s i bytes).
Proof. apply frame_set_nth. Qed.

Lemma array_of_put_same h s i bytes :
  (arr s < length h)%nat ->
  array_of (put_bytes h s i bytes) s = splice (array_of h s) (Z.to_nat (off s + i)) bytes.
Proof. intros H. unfold put_bytes, array_of. now apply nth_set_nth_eq. Qed.

Lemma array_of_put_other h s s' i bytes :
  arr s' <> arr s -> array_of (put_bytes h s i bytes) s' = array_of h s'.
Proof. intros H. unfold put_bytes, array_of. apply nth_set_nth_neq. auto. Qed.

Lemma put_bytes_nil h s i :
  (arr s < length h)%nat -> put_bytes h s i [] = h.
Proof.
  intros H. unfold put_bytes. rewrite splice_nil. unfold array_of.
  revert H. generalize (arr s). induction h as [|x t IH]; intros [|n] Hn; cbn in *; try lia; auto.
  f_equal. apply IH. lia.
Qed.

Lemma put_bytes_app h s i b1 b2 :
  (arr s < length h)%nat -> 0 <= off s + i ->
  off s + i + len b1 + len b2 <= len (array_of h s) ->
  put_bytes (put_bytes h s i b1) s (i + len b1) b2 = put_bytes h s i (b1 ++ b2).
Proof.
  intros Ha Hi Hl. unfold put_bytes at 1. rewrite array_of_put_same by exact Ha.
  unfold put_bytes. rewrite set_nth_twice.
  replace (Z.to_nat (off s + (i + len b1))) with (Z.to_nat (off s + i) + length b1)%nat
    by (unfold len; lia).
  rewrite splice_splice; [reflexivity|]. unfold len in *. lia.
Qed.

Lemma wf_put h s s' i bytes :
  0 <= off s + i -> off s + i + len bytes <= len (array_of h s) ->
  wf_slice h s' -> wf_slice (put_bytes h s i bytes) s'.
Proof.
  intros Hi Hl (W1 & W2 & W3 & W4). unfold wf_slice.
  split; [unfold put_bytes; rewrite set_nth_length; exact W1|].
  split; [exact W2|]. split; [exact W3|].
  destruct (Nat.eq_dec (arr s') (arr s)) as [E|E].
  - unfold put_bytes, array_of in *. rewrite E in *.
    rewrite nth_set_nth_eq by lia. unfold len in *. rewrite splice_length by lia. exact W4.
  - rewrite array_of_put_other by exact E. exact W4.
Qed.

Module BlockBytes.

Import Reader Block BlockFacts BlockWrites BlockMatch BlockBound. Import ReaderLiterals.
Import ReaderSpec BlockSpec.

Lemma dst_put_content (e : encoder) (i v : Z) :
  wf_slice (mem e) (dst e) -> 0 <= i < slen (dst e) ->
  dst_put e i v = Done (set_mem e (put_bytes (mem e) (dst e) i [v])).
Proof.
  intros (W1 & W2 & W3 & W4) Hi. unfold dst_put, sl_store. rewrite andb_range by lia.
  cbn [bind]. unfold put_bytes. rewrite set_nth_splice1; [reflexivity|].
  unfold len in W4. lia.
Qed.

Lemma ext_loop_content (fuel : nat) (e : encoder) (ln : Z) :
  wf_slice (mem e) (dst e) ->
  0 <= ln <= Z.of_nat fuel -> ln < 4294967296 ->
  0 <= dpos e -> dpos e + ln / 255 <= slen (dst e) -> dpos e + ln / 255 < 4294967296 ->
  ext_loop fuel e ln =
  Done (wrote e (put_bytes (mem e) (dst e) (dpos e) (repeat 255 (Z.to_nat (ln / 255))))
              (dpos e + ln / 255), ln mod 255).
Proof.
  revert e ln. induction fuel as [|k IH]; intros e ln W Hl Hu Hd Hr Hb.
  - cbn [ext_loop]. rewrite gtb_false by lia.
    replace ln with 0 by lia. cbn. rewrite Z.add_0_r.
    rewrite put_bytes_nil by apply W. destruct e; reflexivity.
  - cbn [ext_loop]. destruct (Z.gtb_spec ln 254).
    + assert (Q : ln / 255 = (ln - 255) / 255 + 1 /\ ln mod 255 = (ln - 255) mod 255)
        by (Z.div_mod_to_equations; lia).
      destruct Q as [Q1 Q2].
      assert (0 <= (ln - 255) / 255) by (Z.div_mod_to_equations; lia).
      pose proof W as (W1 & W2 & W3 & W4).
      rewrite dst_put_content by (auto; lia). enc_simpl.
      rewrite (u32_small (dpos e + 1)) by lia.
      rewrite (u32_small (ln - 255)) by lia.
      rewrite IH; enc_simpl; try lia.
      * rewrite Q1, Q2.
        replace (dpos e + 1) with (dpos e + len [255]) by reflexivity.
        rewrite put_bytes_app; try lia.
        -- replace (Z.to_nat ((ln - 255) / 255 + 1)) with (S (Z.to_nat ((ln - 255) / 255))) by lia.
           cbn [repeat app]. do 3 f_equal. unfold len. cbn. lia.
        -- unfold len in *. rewrite repeat_length. cbn [length]. lia.
      * apply wf_put; [lia | unfold len in *; cbn [length]; lia | exact W].
    + rewrite Z.div_small, Z.mod_small, Z.add_0_r by lia. cbn [Z.to_nat repeat].
      rewrite put_bytes_nil by apply W. destruct e; reflexivity.
Qed.

End BlockBytes.

Lemma skipn_splice (a : list Z) (o p : nat) (l : list Z) :
  (o <= p)%nat -> (p <= length a)%nat ->
  skipn o (splice a p l) = splice (skipn o a) (p - o) l.
Proof.
  intros H1 H2. unfold splice.
  rewrite skipn_app. rewrite length_firstn.
  replace (o - Nat.min p (length a))%nat with 0%nat by lia. cbn [skipn].
  rewrite skipn_skipn.
  replace (p - o + length l + o)%nat with (p + length l)%nat by lia.
  f_equal.
  rewrite firstn_skipn_comm. f_equal. f_equal. lia.
Qed.

Module BlockTokens.

Import Reader Block BlockFacts BlockWrites BlockMatch BlockBound BlockBytes. Import ReaderLiterals.
Import ReaderSpec BlockSpec.

Lemma write_ext_content (e : encoder) (ln : Z) :
  wf_slice (mem e) (dst e) ->
  0 <= ln < 4294967296 ->
  0 <= dpos e -> dpos e + ln / 255 + 1 <= slen (dst e) ->
  dpos e + ln / 255 + 1 < 4294967296 ->
  write_ext e ln =
  Done (wrote e (put_bytes (mem e) (dst e) (dpos e)
                   (repeat 255 (Z.to_nat (ln / 255)) ++ [u8 (ln mod 255)]))
              (dpos e + ln / 255 + 1)).
Proof.
  intros W Hl Hd Hr Hb. unfold write_ext.
  assert (0 <= ln / 255) by (Z.div_mod_to_equations; lia).
  pose proof W as (W1 & W2 & W3 & W4).
  rewrite ext_loop_content by (auto; lia). cbn [bind].
  rewrite dst_put_content; enc_simpl; try lia.
  - rewrite u32_small by lia.
    replace (dpos e + ln / 255) with (dpos e + len (repeat 255 (Z.to_nat (ln / 255))))
      by (unfold len; rewrite repeat_length; lia).
    rewrite put_bytes_app;
      [reflexivity | exact W1 | lia | unfold len in *; rewrite repeat_length; cbn [length]; lia].
  - apply wf_put; [lia | unfold len in *; rewrite repeat_length; lia | exact W].
Qed.

Lemma copy_literals_content (e : encoder) (lg p : Z) :
  wf_slice (mem e) (dst e) -> wf_slice (mem e) (src e) ->
  0 <= lg -> 0 <= p -> p + lg <= slen (src e) -> p + lg < 4294967296 ->
  0 <= dpos e -> dpos e + lg <= slen (dst e) -> dpos e + lg < 4294967296 ->
  copy_literals e lg p =
  Done (wrote e (put_bytes (mem e) (dst e) (dpos e)
                   (firstn (Z.to_nat lg) (skipn (Z.to_nat (off (src e) + p))
                                                (array_of (mem e) (src e)))))
              (dpos e + lg)).
Proof.
  intros (D1 & D2 & D3 & D4) (S1 & S2 & S3 & S4) Hl Hp Hs Hs' Hd Hr Hb.
  unfold copy_literals.
  rewrite reslice_ok by lia. cbn [bind].
  rewrite (u32_small (p + lg)) by lia.
  rewrite reslice_ok by lia. enc_simpl.
  rewrite u32_small by lia.
  unfold copy, bytes_of, put_bytes, array_of. cbn [arr off slen].
  replace (p + lg - p) with lg by lia.
  set (bytes := firstn (Z.to_nat lg) _).
  assert (Lb : length bytes = Z.to_nat lg).
  { unfold bytes. rewrite length_firstn, length_skipn. unfold len, array_of in S4. lia. }
  unfold blit, splice. rewrite Lb.
  replace (Nat.min (Z.to_nat (slen (dst e) - dpos e)) (Z.to_nat lg)) with (Z.to_nat lg) by lia.
  rewrite (firstn_all2 (n := Z.to_nat lg) bytes) by lia.
  reflexivity.
Qed.

Lemma ext_bytes_length (l : Z) : 0 <= l -> len (ext_bytes l) = ext_cost l.
Proof.
  intros H. unfold ext_bytes, ext_cost, len. destruct (Z.ltb_spec l 15); [reflexivity|].
  rewrite length_app, repeat_length. cbn [length].
  assert (0 <= (l - 15) / 255) by (Z.div_mod_to_equations; lia). lia.
Qed.

Lemma writeLiterals_content (e : encoder) (lg p : Z) :
  wf_slice (mem e) (dst e) -> wf_slice (mem e) (src e) ->
  arr (src e) <> arr (dst e) ->
  0 <= lg -> 0 <= p -> p + lg <= slen (src e) -> p + lg < 4294967296 ->
  0 <= dpos e -> dpos e + lit_cost lg <= slen (dst e) ->
  dpos e + lit_cost lg < 4294967296 ->
  writeLiterals e lg 0 p =
  Done (wrote e (put_bytes (mem e) (dst e) (dpos e)
                   (last_token lg :: ext_bytes lg ++
                    firstn (Z.to_nat lg) (skipn (Z.to_nat (off (src e) + p))
                                                (array_of (mem e) (src e)))))
              (dpos e + lit_cost lg)).
Proof.
  intros WD WS Hne Hl Hp Hs Hs' Hd Hr Hb.
  pose proof (ext_cost_bound lg Hl) as [E0 E1].
  pose proof (ext_bytes_length lg Hl) as EL.
  pose proof WD as (D1 & D2 & D3 & D4). pose proof WS as (S1 & S2 & S3 & S4).
  unfold lit_cost in *. unfold writeLiterals.
  assert (RM : runMask = 15) by reflexivity. assert (MM : mlMask = 15) by reflexivity.
  rewrite MM, RM. rewrite (gtb_false 0) by lia.
  set (lits := firstn (Z.to_nat lg) _).
  assert (Ll : len lits = lg).
  { unfold lits, len. rewrite length_firstn, length_skipn. unfold len in S4. lia. }
  set (code := if lg >? 15 - 1 then 15 else u8 lg).
  assert (Tk : u8 (u8 (Z.shiftl code mlBits) + u8 0) = last_token lg).
  { unfold code, last_token, mlBits. destruct (Z.gtb_spec lg (15 - 1)).
    - rewrite Z.min_r by lia. reflexivity.
    - rewrite Z.min_l by lia. unfold u8. rewrite (Z.mod_small lg) by lia.
      rewrite Z.shiftl_mul_pow2 by lia. change (2 ^ 4) with 16.
      rewrite (Z.mod_small (lg * 16)) by lia. change (0 mod 256) with 0.
      rewrite Z.add_0_r, Z.mod_small by lia. lia. }
  rewrite Tk.
  rewrite dst_put_content by (auto; lia). enc_simpl.
  rewrite (u32_small (dpos e + 1)) by lia.
  set (m1 := put_bytes (mem e) (dst e) (dpos e) [last_token lg]).
  assert (W1 : wf_slice m1 (dst e))
    by (apply wf_put; [lia | unfold len in *; cbn [length]; lia | exact WD]).
  assert (W1s : wf_slice m1 (src e))
    by (apply wf_put; [lia | unfold len in *; cbn [length]; lia | exact WS]).
  assert (A1 : len (array_of m1 (dst e)) = len (array_of (mem e) (dst e))).
  { unfold m1. rewrite array_of_put_same by exact D1. unfold len in *.
    rewrite splice_length; [reflexivity|]. cbn [length]. lia. }
  unfold code, ext_bytes, ext_cost in *. destruct (Z.gtb_spec lg (15 - 1)).
  - rewrite Z.eqb_refl. rewrite ltb_false in * by lia.
    rewrite (u32_small (lg - 15)) by lia.
    assert (0 <= (lg - 15) / 255) by (Z.div_mod_to_equations; lia).
    assert (0 <= (lg - 15) mod 255 < 255) by (apply Z.mod_pos_bound; lia).
    rewrite write_ext_content; enc_simpl; try lia; [|exact W1].
    set (ext := repeat 255 (Z.to_nat ((lg - 15) / 255)) ++ [u8 ((lg - 15) mod 255)]).
    assert (Le : len ext = (lg - 15) / 255 + 1).
    { unfold ext, len. rewrite length_app, repeat_length. cbn [length]. lia. }
    rewrite copy_literals_content; enc_simpl; try lia.
    + rewrite array_of_put_other by exact Hne.
      unfold m1. rewrite array_of_put_other by exact Hne. fold lits.
      replace (dpos e + 1) with (dpos e + len [last_token lg]) by reflexivity.
      rewrite put_bytes_app; try (unfold len in *; cbn [length] in *; lia).
      replace (dpos e + len [last_token lg] + (lg - 15) / 255 + 1)
        with (dpos e + len ([last_token lg] ++ ext))
        by (unfold len in *; rewrite length_app; cbn [length]; lia).
      rewrite put_bytes_app; try (unfold len in *; rewrite ?length_app; cbn [length] in *; lia).
      do 2 f_equal.
      * cbn [app]. f_equal. unfold ext, u8.
        rewrite (Z.mod_small ((lg - 15) mod 255) 256) by lia. reflexivity.
      * unfold len in *. rewrite length_app. cbn [length] in *. lia.
    + apply wf_put; [lia | rewrite A1; lia | exact W1].
    + apply wf_put; [lia | rewrite A1; lia | exact W1s].
  - assert (u8 lg <> 15) by (unfold u8; rewrite Z.mod_small by lia; lia).
    rewrite eqb_false by assumption. rewrite ltb_true in * by lia. cbn [bind].
    rewrite copy_literals_content; enc_simpl; try lia; try assumption.
    unfold m1. rewrite array_of_put_other by exact Hne. fold lits.
    replace (dpos e + 1) with (dpos e + len [last_token lg]) by reflexivity.
    rewrite put_bytes_app; try (unfold len in *; cbn [length] in *; lia).
    do 2 f_equal. unfold len. cbn [length]. lia.
Qed.

End BlockTokens.

Module BlockLast.

Import Reader Block BlockFacts BlockWrites BlockMatch BlockBound BlockBytes BlockTokens. Import ReaderLiterals.
Import ReaderSpec BlockSpec.

Lemma ext_cost_le (l : Z) : 0 <= l -> ext_cost l <= l / 255 + 1.
Proof.
  intros H. unfold ext_cost. destruct (Z.ltb_spec l 15); Z.div_mod_to_equations; lia.
Qed.


Lemma last_literals (e : encoder) (step limit : Z) :
  let l := slen (src e) - anchor e in
  wf_slice (mem e) (dst e) -> wf_slice (mem e) (src e) ->
  arr (src e) <> arr (dst e) ->
  slen (src e) < MaxInputSize -> 0 <= anchor e <= slen (src e) ->
  0 <= dpos e -> dpos e + l + l / 255 + 2 <= slen (dst e) ->
  dpos e + l + l / 255 + 2 < 4294967296 ->
  slen (src e) <= pos e + 4 ->
  exists h out,
    Encode_iter e step limit = Done (Return h out)
    /\ bytes_of h out =
       firstn (Z.to_nat (dpos e)) (bytes_of (mem e) (dst e))
       ++ last_token l :: ext_bytes l
       ++ skipn (Z.to_nat (anchor e)) (bytes_of (mem e) (src e)).
Proof.
  intros l WD WS Hne Hn Ha Hd Hr Hb Hlast.
  assert (MX : MaxInputSize = 2113929216) by reflexivity.
  pose proof WD as (D1 & D2 & D3 & D4). pose proof WS as (S1 & S2 & S3 & S4).
  assert (Hl : 0 <= l) by (unfold l; lia).
  pose proof (ext_cost_le l Hl) as EC. pose proof (ext_cost_bound l Hl) as [E0 _].
  pose proof (ext_bytes_length l Hl) as EL.
  unfold Encode_iter. rewrite geb_true by lia.
  rewrite (u32_small (slen (src e))) by lia.
  rewrite (u32_small (slen (src e) - anchor e)) by lia. fold l.
  rewrite writeLiterals_content; try assumption; unfold lit_cost; try lia.
  enc_simpl. rewrite reslice_ok by lia. cbn [bind].
  eexists _, _. split; [reflexivity|].
  unfold bytes_of. cbn [slen off arr]. unfold array_of at 1. cbn [arr].
  unfold put_bytes. rewrite nth_set_nth_eq by exact D1.
  set (lits := firstn (Z.to_nat l) _).
  assert (Ll : length lits = Z.to_nat l).
  { unfold lits. rewrite length_firstn, length_skipn. unfold len in S4. lia. }
  set (B := last_token l :: ext_bytes l ++ lits).
  assert (LB : length B = Z.to_nat (1 + ext_cost l + l)).
  { unfold B. cbn [length]. rewrite length_app, Ll. unfold len in EL. lia. }
  rewrite skipn_splice by (unfold len in D4; lia).
  replace (Z.to_nat (off (dst e) + dpos e) - Z.to_nat (off (dst e) + 0))%nat
    with (Z.to_nat (dpos e)) by lia.
  replace (Z.to_nat (dpos e + (1 + ext_cost l + l) - 0))
    with (Z.to_nat (dpos e) + length B)%nat by lia.
  rewrite firstn_splice by (rewrite length_skipn; unfold len in D4; lia).
  rewrite Z.add_0_r. f_equal.
  - rewrite firstn_firstn. f_equal. lia.
  - unfold B. do 2 f_equal. unfold lits, l.
    rewrite skipn_firstn_comm, skipn_skipn. f_equal; [lia|]. f_equal. lia.
Qed.

End BlockLast.

Lemma nth_bytes_of (h : heap) (s : slice) (i : Z) :
  0 <= off s -> 0 <= i < slen s ->
  nth (Z.to_nat i) (bytes_of h s) 0 = nth (Z.to_nat (off s + i)) (array_of h s) 0.
Proof.
  intros Ho Hi. unfold bytes_of.
  rewrite nth_firstn. replace (Z.to_nat i <? Z.to_nat (slen s))%nat with true
    by (symmetry; apply Nat.ltb_lt; lia).
  rewrite nth_skipn. f_equal. lia.
Qed.

Module BlockZeros.

Import Reader Block BlockFacts BlockWrites BlockMatch BlockBound BlockBytes BlockTokens BlockLast. Import ReaderLiterals.
Import ReaderSpec BlockSpec.

Lemma constant_src_at (c : Z) (e : encoder) (i : Z) :
  constant_src c e = true -> 0 <= i < slen (src e) -> src_at e i = Done c.
Proof.
  unfold constant_src. rewrite !andb_true_iff. intros [[H1 H2] H3] Hi.
  apply Z.leb_le in H1, H2.
  unfold src_at, sl_index. rewrite andb_range by lia. f_equal.
  rewrite <- nth_bytes_of by lia.
  rewrite forallb_forall in H3. symmetry. apply Z.eqb_eq. apply H3.
  apply nth_In. unfold bytes_of. rewrite length_firstn, length_skipn.
  unfold len in H2. lia.
Qed.

(** a match over bytes that repeat up to the end of the input *)
Lemma extend_loop_to_end (c : Z) (fuel : nat) (e : encoder) (rf : Z) :
  (forall i, 0 <= i < slen (src e) -> src_at e i = Done c) ->
  0 <= rf < pos e -> pos e <= slen (src e) -> slen (src e) < 4294967296 ->
  slen (src e) - pos e <= Z.of_nat fuel ->
  extend_loop fuel e rf = Done (set_pos e (slen (src e)), rf + (slen (src e) - pos e)).
Proof.
  revert e rf. induction fuel as [|k IH]; intros e rf Hc Hr Hp Hn Hf; cbn [extend_loop].
  - rewrite ltb_false by lia. replace (slen (src e)) with (pos e) at 1 2 by lia.
    rewrite Z.sub_diag, Z.add_0_r. destruct e; reflexivity.
  - destruct (Z.ltb_spec (pos e) (slen (src e))).
    + rewrite !Hc by lia. cbn [bind]. rewrite Z.eqb_refl.
      rewrite (u32_small (pos e + 1)), (u32_small (rf + 1)) by lia.
      rewrite IH; unfold set_pos; cbn [pos src mem]; try lia.
      * f_equal. f_equal. lia.
      * intros i Hi. specialize (Hc i Hi). exact Hc.
    + replace (slen (src e)) with (pos e) at 1 2 by lia.
      rewrite Z.sub_diag, Z.add_0_r. destruct e; reflexivity.
Qed.

Lemma emit_match_to_end (c : Z) (e : encoder) (rf : Z) :
  constant_src c e = true ->
  0 <= rf < pos e -> pos e + 4 <= slen (src e) -> slen (src e) < 4294967296 ->
  emit_match e rf =
  write_match (mkEncoder (mem e) (src e) (dst e) (hashTable e) (slen (src e))
                         (pos e + 4) (dpos e))
              (u32 (pos e - anchor e)) (u32 (pos e - rf)) (anchor e).
Proof.
  intros Hc Hr Hp Hn. unfold emit_match, minMatch. cbv zeta.
  rewrite (u32_small (pos e + 4)), (u32_small (rf + 4)) by lia.
  rewrite (extend_loop_to_end c); unfold set_anchor, set_pos; cbn [pos src mem]; try lia.
  - reflexivity.
  - intros i Hi. apply (constant_src_at c e i Hc Hi).
Qed.

(** the turn of the loop that rejects its candidate *)
Lemma Encode_iter_skip (e : encoder) (step limit sq v : Z) :
  pos e + 4 < slen (src e) ->
  readUint32 e (pos e) = Done sq ->
  index (hashTable e) (hash sq) = Done v ->
  negb (Z.shiftr (u32 (pos e - u32 (v + uninitHash))) 16 =? 0) = true ->
  (u32 (pos e - anchor e) >? limit) = false ->
  Encode_iter e step limit =
  Done (Skip (mkEncoder (mem e) (src e) (dst e)
                (set_nth (hashTable e) (Z.to_nat (hash sq)) (u32 (pos e - uninitHash)))
                (u32 (pos e + step)) (anchor e) (dpos e)) step limit).
Proof.
  intros Hp Hs Hi Hr Hl. unfold Encode_iter.
  rewrite geb_false by lia. rewrite Hs. cbn [bind]. rewrite Hi. cbn [bind].
  apply StreamTable.index_Done in Hi. rewrite store_in_range by lia. cbn [bind].
  unfold set_hashTable, set_pos. cbn [pos anchor mem src dst hashTable dpos].
  rewrite Hr. cbn [bind]. rewrite Hl. reflexivity.
Qed.

(** the turn of the loop that finds a match with [step == 1] *)
Lemma Encode_iter_match (e : encoder) (limit sq v : Z) :
  pos e + 4 < slen (src e) ->
  readUint32 e (pos e) = Done sq ->
  index (hashTable e) (hash sq) = Done v ->
  Z.shiftr (u32 (pos e - u32 (v + uninitHash))) 16 = 0 ->
  readUint32 e (u32 (v + uninitHash)) = Done sq ->
  Encode_iter e 1 limit =
  (e' <- emit_match
           (mkEncoder (mem e) (src e) (dst e)
              (set_nth (hashTable e) (Z.to_nat (hash sq)) (u32 (pos e - uninitHash)))
              (pos e) (anchor e) (dpos e))
           (u32 (v + uninitHash)) ;;
   Done (Match e' 1 incompressible)).
Proof.
  intros Hp Hs Hi Hr Hq. unfold Encode_iter.
  rewrite geb_false by lia. rewrite Hs. cbn [bind]. rewrite Hi. cbn [bind].
  apply StreamTable.index_Done in Hi. rewrite store_in_range by lia. cbn [bind].
  unfold set_hashTable. cbn [pos anchor mem src dst hashTable dpos].
  rewrite Hr. rewrite Z.eqb_refl. cbn [negb].
  change (readUint32 {| mem := mem e; src := src e; dst := dst e;
                        hashTable := set_nth (hashTable e) (Z.to_nat (hash sq))
                                       (u32 (pos e - uninitHash));
                        pos := pos e; anchor := anchor e; dpos := dpos e |}
                     (u32 (v + uninitHash)))
    with (readUint32 e (u32 (v + uninitHash))).
  rewrite Hq. cbn [bind]. rewrite Z.eqb_refl. cbn [negb].
  rewrite (gtb_false 1 1) by lia. reflexivity.
Qed.

Lemma Encode_loop_next (z : Z) (e : encoder) (s l : Z) :
  0 < z ->
  Encode_loop (Z.to_nat z) e s l =
  (t <- Encode_iter e s l ;;
   match t with
   | Return h out => Done (h, out)
   | Skip e s l | Rewind e s l | Match e s l => Encode_loop (Z.to_nat (z - 1)) e s l
   end).
Proof.
  intros H. replace (Z.to_nat z) with (S (Z.to_nat (z - 1))) by lia. reflexivity.
Qed.

Ltac by_running :=
  vm_compute;
  lazymatch goal with
  | |- _ /\ _ => split; [discriminate | reflexivity]
  | |- _ = _ => reflexivity
  | |- _ => discriminate
  end.

Ltac run_with lem :=
  let HH := fresh "HH" in
  pose proof lem as HH;
  repeat lazymatch type of HH with
         | ?a -> _ =>
             let K := fresh "K" in
             assert (K : a) by by_running; specialize (HH K); clear K
         end;
  rewrite HH; clear HH.

Lemma Encode_zeros : Encode_bytes zeros = Done zeros_stream.
Proof.
  unfold Encode_bytes, Encode.
  replace (len zeros) with 131073 by (vm_compute; reflexivity).
  cbn [slen].
  replace (131073 >=? MaxInputSize) with false by (vm_compute; reflexivity).
  replace (CompressBound 131073) with 131603 by (vm_compute; reflexivity).
  replace (0 <? 131603) with true by reflexivity.
  unfold make. cbv zeta.
  rewrite Encode_loop_next by lia.
  match goal with |- context [Encode_iter ?e _ _] =>
    run_with (Encode_iter_skip e 1 incompressible 0 0) end.
  cbn [bind].
  rewrite Encode_loop_next by lia.
  match goal with |- context [Encode_iter ?e _ _] =>
    run_with (Encode_iter_match e incompressible 0 2004318072) end.
  match goal with |- context [emit_match ?e ?rf] =>
    run_with (emit_match_to_end 0 e rf) end.
  cbn [mem src dst hashTable pos anchor dpos].
  vm_compute. reflexivity.
Qed.

Lemma decode_zeros_stream : Reader.decode1 (mkReader zeros_stream EOF) = Panic.
Proof. vm_compute. reflexivity. Qed.

End BlockZeros.

(** * The claims about the block encoder *)

(** C6. For every input shorter than [MaxInputSize], held in a well-formed
    slice, [Encode] returns without panic and without error, and the slice
    it returns is no longer than [CompressBound (len src)], which is
    [len src + len src / 255 + 16]. *)
Theorem Encode_within_CompressBound (h : heap) (dst0 src0 : slice) :
  0 <= slen src0 < Block.MaxInputSize ->
  slen src0 <= scap src0 -> slen dst0 <= scap dst0 ->
  exists h' out,
    Block.Encode h dst0 src0 = Done (h', Some out, None)
    /\ 0 <= slen out <= Block.CompressBound (slen src0)
    /\ Block.CompressBound (slen src0) = slen src0 + slen src0 / 255 + 16.
Proof.
  intros Hn Hs Hd.
  pose proof (BlockBound.Encode_ok h dst0 src0 Hn Hs Hd) as H. cbv zeta in H.
  destruct (slen dst0 <? Block.CompressBound (slen src0));
    [destruct (make h (Block.CompressBound (slen src0))) as [h1 dst1]|];
    destruct H as (h' & out & E & _ & _ & B); exists h', out;
    (split; [exact E | split; [exact B | apply BlockBound.CompressBound_nonneg; lia]]).
Qed.

Lemma Encode_within_CompressBound_witness :
  exists h' out,
    Block.Encode [[1; 2; 3; 4; 5]] (mkSlice 0 0 0 0) (mkSlice 0 0 5 5)
    = Done (h', Some out, None)
    /\ 0 <= slen out <= Block.CompressBound 5
    /\ Block.CompressBound 5 = 5 + 5 / 255 + 16.
Proof.
  apply (Encode_within_CompressBound [[1; 2; 3; 4; 5]] (mkSlice 0 0 0 0) (mkSlice 0 0 5 5)).
  - vm_compute. split; [discriminate | reflexivity].
  - vm_compute. discriminate.
  - vm_compute. discriminate.
Defined.

(** C9. An input of [MaxInputSize] bytes or more makes [Encode] return
    [ErrTooLarge] with the store as it was and no slice; [CompressBound] is
    0 above [MaxInputSize] and the positive [n + n / 255 + 16] for a length
    [n] up to it. *)
Theorem too_large_rejected (h : heap) (dst0 src0 : slice) (n m : Z) :
  Block.MaxInputSize <= slen src0 ->
  Block.MaxInputSize < n ->
  0 <= m <= Block.MaxInputSize ->
  Block.Encode h dst0 src0 = Done (h, None, Some ErrTooLarge)
  /\ Block.CompressBound n = 0
  /\ Block.CompressBound m = m + m / 255 + 16
  /\ 0 < Block.CompressBound m.
Proof.
  intros Hs Hn Hm. repeat split.
  - unfold Block.Encode. rewrite geb_true by lia. reflexivity.
  - unfold Block.CompressBound. rewrite gtb_true by lia. reflexivity.
  - apply BlockBound.CompressBound_nonneg. exact Hm.
  - rewrite BlockBound.CompressBound_nonneg by exact Hm.
    assert (0 <= m / 255) by (apply Z.div_pos; lia). lia.
Qed.

Lemma too_large_rejected_witness :
  Block.Encode [] (mkSlice 0 0 0 0) (mkSlice 0 0 Block.MaxInputSize Block.MaxInputSize)
  = Done ([], None, Some ErrTooLarge)
  /\ Block.CompressBound (Block.MaxInputSize + 1) = 0
  /\ Block.CompressBound 255 = 255 + 255 / 255 + 16
  /\ 0 < Block.CompressBound 255.
Proof.
  apply (too_large_rejected [] (mkSlice 0 0 0 0)
           (mkSlice 0 0 Block.MaxInputSize Block.MaxInputSize)
           (Block.MaxInputSize + 1) 255).
  - vm_compute. discriminate.
  - vm_compute. reflexivity.
  - vm_compute. split; discriminate.
Defined.

(** C10, as the code has it. For a well-formed input shorter than
    [MaxInputSize] whose slices point into the store: when [dst] is long
    enough the slice returned is [dst[0:k]] and no array other than the one
    behind [dst] changes, so [src] is unchanged if it lies in another
    array; when [dst] is too short no array of the caller changes and the
    slice returned is [b[0:k]] for a new array [b] of capacity
    [CompressBound (len src)]. *)
Theorem Encode_frame (h : heap) (dst0 src0 : slice) :
  0 <= slen src0 < Block.MaxInputSize ->
  slen src0 <= scap src0 -> slen dst0 <= scap dst0 ->
  (arr src0 < length h)%nat -> (arr dst0 < length h)%nat ->
  exists h' out,
    Block.Encode h dst0 src0 = Done (h', Some out, None)
    /\ if slen dst0 <? Block.CompressBound (slen src0)
       then out = mkSlice (length h) 0 (slen out) (Block.CompressBound (slen src0))
            /\ array_of h' src0 = array_of h src0
            /\ array_of h' dst0 = array_of h dst0
            /\ forall i, (i < length h)%nat -> nth i h' [] = nth i h []
       else out = mkSlice (arr dst0) (off dst0) (slen out) (scap dst0)
            /\ (arr src0 <> arr dst0 -> array_of h' src0 = array_of h src0)
            /\ forall i, i <> arr dst0 -> nth i h' [] = nth i h [].
Proof.
  intros Hn Hs Hd Hsa Hda.
  pose proof (BlockBound.Encode_ok h dst0 src0 Hn Hs Hd) as H. cbv zeta in H.
  destruct (slen dst0 <? Block.CompressBound (slen src0)).
  - unfold make in H. destruct H as (h' & out & E & [_ F] & O & _).
    cbn [arr off scap] in *.
    assert (G : forall i, (i < length h)%nat -> nth i h' [] = nth i h []).
    { intros i Hi. rewrite F by lia. apply app_nth1. exact Hi. }
    exists h', out. split; [exact E|]. split; [|split; [|split]].
    + rewrite O at 1. f_equal; lia.
    + unfold array_of. apply G. exact Hsa.
    + unfold array_of. apply G. exact Hda.
    + exact G.
  - destruct H as (h' & out & E & [_ F] & O & _).
    exists h', out. split; [exact E|]. split; [|split].
    + rewrite O at 1. f_equal; lia.
    + intros Hne. unfold array_of. apply F. exact Hne.
    + exact F.
Qed.

Lemma Encode_frame_witness :
  exists h' out,
    Block.Encode [[1; 2; 3; 4; 5]; [0; 0; 0]] (mkSlice 1 0 3 3) (mkSlice 0 0 5 5)
    = Done (h', Some out, None)
    /\ out = mkSlice 2 0 (slen out) (Block.CompressBound 5)
    /\ array_of h' (mkSlice 0 0 5 5) = [1; 2; 3; 4; 5]
    /\ array_of h' (mkSlice 1 0 3 3) = [0; 0; 0]
    /\ forall i, (i < 2)%nat -> nth i h' [] = nth i [[1; 2; 3; 4; 5]; [0; 0; 0]] [].
Proof.
  apply (Encode_frame [[1; 2; 3; 4; 5]; [0; 0; 0]] (mkSlice 1 0 3 3) (mkSlice 0 0 5 5)).
  - vm_compute. split; [discriminate | reflexivity].
  - vm_compute. discriminate.
  - vm_compute. discriminate.
  - cbn. lia.
  - cbn. lia.
Defined.

(** C10, the sentence as written fails: with [src = a[0:10]] and
    [dst = a[0:28]] over one array, [Encode] writes its token and literals
    over the input. *)
Lemma Encode_overwrites_aliased_src :
  let a := [1; 2; 3; 4; 5; 6; 7; 8; 9; 10; 11; 12; 13; 14; 15; 16; 17; 18; 19; 20;
            21; 22; 23; 24; 25; 26; 27; 28] in
  let src0 := mkSlice 0 0 10 10 in
  let dst0 := mkSlice 0 0 28 28 in
  exists h',
    Block.Encode [a] dst0 src0 = Done (h', Some (mkSlice 0 0 11 28), None)
    /\ bytes_of [a] src0 = [1; 2; 3; 4; 5; 6; 7; 8; 9; 10]
    /\ bytes_of h' src0 = [160; 160; 2; 3; 4; 5; 6; 7; 8; 9].
Proof.
  cbv zeta. eexists. split; [vm_compute; reflexivity|]. split; vm_compute; reflexivity.
Qed.

(** * The claim about the two hash tables *)

(** C7. A turn of either encoder whose lookup hits a slot that was never
    written (0 in the block encoder's table, [uninitHash] in the streaming
    encoder's) rejects the candidate: the turn ends in the [continue] of
    the rejection with nothing written to the output; and no position the
    block encoder stores is the 0 of an unwritten slot. *)
Theorem unset_slot_rejected
    (e : Block.encoder) (step limit p : Z) (s : Stream.encoder) (sstep slimit : Z) :
  0 <= Block.pos e ->
  slen (Block.src e) < Block.MaxInputSize ->
  Block.pos e + 4 < slen (Block.src e) ->
  block_slot e = Some 0 ->
  0 <= p < Block.MaxInputSize ->
  len (Stream.buf s) = Stream.bufferSize ->
  0 <= Stream.pos s < 4294967296 ->
  stream_slot s = Some Stream.uninitHash ->
  (exists e' step' limit',
      Block.Encode_iter e step limit = Done (Block.Skip e' step' limit')
      /\ Block.mem e' = Block.mem e /\ Block.dpos e' = Block.dpos e
      /\ Block.anchor e' = Block.anchor e)
  /\ u32 (p - Block.uninitHash) <> 0
  /\ (exists s' step' limit',
        Stream.encode1_iter s sstep slimit = Done (Stream.Skip s' step' limit')
        /\ Stream.w s' = Stream.w s).
Proof.
  intros HB1 HB2 HB3 HB4 Hp HS1 HS2 HS3. split; [|split].
  - unfold block_slot in HB4.
    destruct (Block.readUint32 e (Block.pos e)) as [sequence| |] eqn:Er; try discriminate.
    destruct (index (Block.hashTable e) (Block.hash sequence)) as [v| |] eqn:Ei;
      try discriminate.
    injection HB4 as ->.
    apply (BlockTable.block_unset_rejected e step limit sequence); assumption.
  - apply BlockTable.block_stored_nonzero. exact Hp.
  - unfold stream_slot in HS3.
    destruct (Stream.flush s) as [s1| |] eqn:Ef; try discriminate.
    destruct (Stream.readUint32 s1) as [[[sequence [x|]] s2]| |] eqn:Er; try discriminate.
    destruct (index (Stream.hashTable s2) (Stream.hash sequence)) as [v| |] eqn:Ei;
      try discriminate.
    injection HS3 as ->.
    apply (StreamTable.stream_unset_rejected s sstep slimit s1 sequence s2); assumption.
Qed.

Lemma unset_slot_rejected_witness :
  let e := Block.mkEncoder [[1; 2; 3; 4; 5; 6; 7; 8]; repeat 0 (Z.to_nat 40)]
             (mkSlice 0 0 8 8) (mkSlice 1 0 40 40)
             (repeat 0 (Z.to_nat Block.hashTableSize)) 0 0 0 in
  let s := Stream.mkEncoder (mkReader [1; 2; 3; 4; 5] EOF) []
             (repeat Stream.uninitHash (Z.to_nat Stream.hashTableSize))
             (repeat 0 (Z.to_nat Stream.bufferSize)) 0 0 0 in
  (exists e' step' limit',
      Block.Encode_iter e 1 128 = Done (Block.Skip e' step' limit')
      /\ Block.mem e' = Block.mem e /\ Block.dpos e' = Block.dpos e
      /\ Block.anchor e' = Block.anchor e)
  /\ u32 (7 - Block.uninitHash) <> 0
  /\ (exists s' step' limit',
        Stream.encode1_iter s 1 128 = Done (Stream.Skip s' step' limit')
        /\ Stream.w s' = Stream.w s).
Proof.
  cbv zeta.
  apply (unset_slot_rejected
           (Block.mkEncoder [[1; 2; 3; 4; 5; 6; 7; 8]; repeat 0 (Z.to_nat 40)]
              (mkSlice 0 0 8 8) (mkSlice 1 0 40 40)
              (repeat 0 (Z.to_nat Block.hashTableSize)) 0 0 0)
           1 128 7
           (Stream.mkEncoder (mkReader [1; 2; 3; 4; 5] EOF) []
              (repeat Stream.uninitHash (Z.to_nat Stream.hashTableSize))
              (repeat 0 (Z.to_nat Stream.bufferSize)) 0 0 0)
           1 128).
  - vm_compute. discriminate.
  - vm_compute. reflexivity.
  - vm_compute. reflexivity.
  - vm_compute. reflexivity.
  - vm_compute. split; [discriminate | reflexivity].
  - vm_compute. reflexivity.
  - vm_compute. split; [discriminate | reflexivity].
  - vm_compute. reflexivity.
Defined.

(** * The claims about the decoder *)












(** C2: the code does not keep [ref >= 65536] at a flush. On the stream
    [Encode] makes of 131073 zero bytes the match of 131068 more bytes is
    met with [pos = 5] and [ref = 1]; [flush] computes [ref - 65536], which
    wraps around to 4294901761, and slicing the buffer up to it panics. *)
Theorem flush_underflows_on_encoded_zeros :
  Block.Encode_bytes BlockSpec.zeros = Done BlockSpec.zeros_stream
  /\ u32 (1 - Reader.flushSize) = 4294901761
  /\ Reader.flush (Reader.mkDecoder (mkReader [0] EOF) []
                     (repeat 0 (Z.to_nat Reader.bufferSize)) 5 1) 131068 = Panic
  /\ Reader.decode1 (mkReader BlockSpec.zeros_stream EOF) = Panic.
Proof.
  split; [apply BlockZeros.Encode_zeros|]. split; [reflexivity|].
  split; [vm_compute; reflexivity | apply BlockZeros.decode_zeros_stream].
Qed.

(** C1: the round trip fails for both encoders. The one byte ["a"] is
    encoded by [encode1] with the zero bytes its [cache] pads the window
    with, and decoded to ["a"] and seven zero bytes; the 131073 zero bytes
    are encoded by [Encode] to a stream on which [decode1] panics. *)
Theorem round_trip_fails :
  Stream.encode1 8 (mkReader [97] EOF) = Done (None, [34; 97; 0; 1; 0; 0; 0])
  /\ Reader.decode1 (mkReader [34; 97; 0; 1; 0; 0; 0] EOF)
     = Done (None, [97; 0; 0; 0; 0; 0; 0; 0])
  /\ Block.Encode_bytes BlockSpec.zeros = Done BlockSpec.zeros_stream
  /\ Reader.decode1 (mkReader BlockSpec.zeros_stream EOF) = Panic.
Proof.
  split; [vm_compute; reflexivity|]. split; [vm_compute; reflexivity|].
  split; [apply BlockZeros.Encode_zeros | apply BlockZeros.decode_zeros_stream].
Qed.

(** * The claim about the last token *)




(** * More about the decoder *)

Module ReaderMore.

Import Reader ReaderRuns ReaderLiterals ReaderOffsets ReaderOverlap.
Import ReaderSpec.

(** [flush], its three regimes. It does nothing while the bytes to come
    fit in the buffer. When they do not and the read cursor is a window
    (65536 bytes) or more into the buffer, the bytes before that window go
    to the sink and the rest slides down, [ref] landing on 65536. When the
    read cursor is less than a window into the buffer the subtraction
    wraps around and the slice expression panics. *)
Theorem flush_regimes (d : decoder) (lg : Z) :
  len (buf d) = bufferSize ->
  0 <= ref d -> ref d <= pos d -> pos d <= bufferSize ->
  (u32 (pos d + lg) <= bufferSize -> flush d lg = Done d)
  /\ (u32 (pos d + lg) > bufferSize -> flushSize <= ref d ->
      exists b,
        flush d lg =
        Done (mkDecoder (r d) (w d ++ firstn (Z.to_nat (ref d - flushSize)) (buf d))
                        b (flushSize + (pos d - ref d)) flushSize)
        /\ len b = bufferSize
        /\ firstn (Z.to_nat (flushSize + (pos d - ref d))) b
           = firstn (Z.to_nat (flushSize + (pos d - ref d)))
                    (skipn (Z.to_nat (ref d - flushSize)) (buf d)))
  /\ (u32 (pos d + lg) > bufferSize -> ref d < flushSize -> flush d lg = Panic).
Proof.
  intros Hb Hr Hp Hq. assert (BS : bufferSize = 131072) by reflexivity.
  assert (FS : flushSize = 65536) by reflexivity.
  split; [|split].
  - intros Hf. unfold flush. rewrite gtb_false by lia. reflexivity.
  - intros Hf Hw. apply flush_slides; assumption.
  - intros Hf Hw. unfold flush. rewrite gtb_true by lia.
    rewrite sub_too_far; [reflexivity|].
    rewrite u32_wrap_neg by lia. lia.
Qed.

Lemma flush_regimes_witness :
  let d := mkDecoder (mkReader [] EOF) [] (repeat 7 (Z.to_nat bufferSize)) 131070 70000 in
  (u32 (131070 + 10) <= bufferSize -> flush d 10 = Done d)
  /\ (u32 (131070 + 10) > bufferSize -> flushSize <= 70000 ->
      exists b,
        flush d 10 =
        Done (mkDecoder (mkReader [] EOF) ([] ++ firstn (Z.to_nat (70000 - flushSize)) (buf d))
                        b (flushSize + (131070 - 70000)) flushSize)
        /\ len b = bufferSize
        /\ firstn (Z.to_nat (flushSize + (131070 - 70000))) b
           = firstn (Z.to_nat (flushSize + (131070 - 70000)))
                    (skipn (Z.to_nat (70000 - flushSize)) (buf d)))
  /\ (u32 (131070 + 10) > bufferSize -> 70000 < flushSize -> flush d 10 = Panic).
Proof.
  cbv zeta.
  apply (flush_regimes
           (mkDecoder (mkReader [] EOF) [] (repeat 7 (Z.to_nat bufferSize)) 131070 70000) 10).
  - vm_compute. reflexivity.
  - vm_compute. discriminate.
  - vm_compute. discriminate.
  - vm_compute. discriminate.
Defined.

(** The length extension is cut before the byte that ends it. *)
Lemma getLen_loop_cut (n : nat) :
  forall (fuel : nat) (d : decoder) (lg : Z),
  (n < fuel)%nat -> rd_data (r d) = repeat 255 n ->
  exists d', getLen_loop fuel d lg 255 = Done (0, Some (rd_fail (r d)), d').
Proof.
  induction n as [|k IH]; intros fuel d lg Hf Hd;
    (destruct fuel as [|f]; [lia|]); cbn [getLen_loop Z.eqb Pos.eqb];
    unfold readByte, ReadByte; rewrite Hd; cbn [repeat].
  - eexists. reflexivity.
  - cbn [set_r]. destruct (IH f (mkDecoder (mkReader (repeat 255 k) (rd_fail (r d)))
                                          (w d) (buf d) (pos d) (ref d)) (u32 (lg + 255)))
      as [d' E]; [lia | reflexivity |].
    unfold set_r. rewrite E. cbn [r rd_fail]. eexists. reflexivity.
Qed.

(** [getLen] adds up the bytes of a length extension: [n] bytes 255 and
    the byte below 255 that ends it give [255 * n + last], and exactly
    those [n + 1] bytes are consumed. If the source ends before that last
    byte, [getLen] returns the source's error and the length 0. *)
Theorem getLen_sums_extension (n : nat) (last : Z) (rest : list Z) (d : decoder) :
  0 <= last < 255 ->
  255 * Z.of_nat n + last < 4294967296 ->
  (rd_data (r d) = repeat 255 n ++ last :: rest ->
   getLen d = Done (255 * Z.of_nat n + last, None,
                    set_r d (mkReader rest (rd_fail (r d)))))
  /\ (rd_data (r d) = repeat 255 n ->
      exists d', getLen d = Done (0, Some (rd_fail (r d)), d')).
Proof.
  intros Hl Hn. split; intros Hd.
  - apply getLen_complete; assumption.
  - unfold getLen. cbv zeta. unfold readByte, ReadByte. rewrite Hd.
    destruct n as [|k]; cbn [repeat].
    + eexists. reflexivity.
    + cbn [set_r].
      destruct (getLen_loop_cut k (S (length (255 :: repeat 255 k)))
                  (mkDecoder (mkReader (repeat 255 k) (rd_fail (r d)))
                             (w d) (buf d) (pos d) (ref d)) 0)
        as [d' E]; [cbn [length]; rewrite repeat_length; lia | reflexivity |].
      unfold set_r. rewrite E. cbn [r rd_fail]. eexists. reflexivity.
Qed.

Lemma getLen_sums_extension_witness :
  let d := mkDecoder (mkReader [255; 255; 3; 9] EOF) [] [] 0 0 in
  (rd_data (r d) = repeat 255 2 ++ 3 :: [9] ->
   getLen d = Done (255 * Z.of_nat 2 + 3, None, set_r d (mkReader [9] (rd_fail (r d)))))
  /\ (rd_data (r d) = repeat 255 2 ->
      exists d', getLen d = Done (0, Some (rd_fail (r d)), d')).
Proof.
  cbv zeta.
  apply (getLen_sums_extension 2 3 [9] (mkDecoder (mkReader [255; 255; 3; 9] EOF) [] [] 0 0)).
  - lia.
  - cbn. lia.
Defined.

(** [readUint16] reads the offset low byte first; with fewer than two
    bytes left it returns the source's error. *)
Theorem readUint16_little_endian (d : decoder) (b1 b2 : Z) (rest : list Z) :
  0 <= b1 < 256 -> 0 <= b2 < 256 ->
  (rd_data (r d) = b1 :: b2 :: rest ->
   readUint16 d = (b1 + 256 * b2, None, set_r d (mkReader rest (rd_fail (r d)))))
  /\ (rd_data (r d) = [b1] ->
      exists d', readUint16 d = (0, Some (rd_fail (r d)), d'))
  /\ (rd_data (r d) = [] ->
      exists d', readUint16 d = (0, Some (rd_fail (r d)), d')).
Proof.
  intros H1 H2. split; [|split]; intros Hd;
    unfold readUint16, readByte, ReadByte; rewrite Hd;
    cbn [set_r r rd_data rd_fail].
  - unfold u16. rewrite Z.shiftl_mul_pow2 by lia. rewrite Z.mod_small by lia.
    rewrite <- Z.shiftl_mul_pow2 by lia. rewrite lor_shiftl_add by lia.
    change (2 ^ 8) with 256. f_equal. f_equal. lia.
  - eexists. reflexivity.
  - eexists. reflexivity.
Qed.

Lemma readUint16_little_endian_witness :
  let d := mkDecoder (mkReader [0x34; 0x12; 5] EOF) [] [] 0 0 in
  (rd_data (r d) = 0x34 :: 0x12 :: [5] ->
   readUint16 d = (0x34 + 256 * 0x12, None, set_r d (mkReader [5] (rd_fail (r d)))))
  /\ (rd_data (r d) = [0x34] ->
      exists d', readUint16 d = (0, Some (rd_fail (r d)), d'))
  /\ (rd_data (r d) = [] ->
      exists d', readUint16 d = (0, Some (rd_fail (r d)), d')).
Proof.
  cbv zeta.
  apply (readUint16_little_endian
           (mkDecoder (mkReader [0x34; 0x12; 5] EOF) [] [] 0 0) 0x34 0x12 [5]); lia.
Defined.

(** [consume] on literals that are all there and fit in the buffer: they
    are stored from [pos] on, [pos] moves past them, nothing is written to
    the sink and no error is returned. *)
Theorem consume_copies_literals (d : decoder) (lits tail : list Z) :
  rd_data (r d) = lits ++ tail ->
  0 <= pos d -> pos d + len lits <= bufferSize -> len (buf d) = bufferSize ->
  consume d (len lits) =
  Done (None, mkDecoder (mkReader tail (rd_fail (r d))) (w d)
                        (splice (buf d) (Z.to_nat (pos d)) lits)
                        (pos d + len lits) (ref d)).
Proof.
  intros Hd Hp Hf Hb. assert (BS : bufferSize = 131072) by reflexivity.
  pose proof (len_nonneg lits) as Hn.
  unfold consume, flush.
  rewrite (gtb_false (u32 (pos d + len lits))) by (rewrite u32_small; lia).
  cbn [bind]. unfold len at 1. rewrite Nat2Z.id.
  apply consume_loop_lits; [exact Hd | exact Hp | lia | lia].
Qed.

Lemma consume_copies_literals_witness :
  let d := mkDecoder (mkReader [97; 98; 99; 1; 0] EOF) [] (repeat 0 (Z.to_nat bufferSize)) 0 0 in
  consume d (len [97; 98; 99]) =
  Done (None, mkDecoder (mkReader [1; 0] EOF) []
                        (splice (buf d) (Z.to_nat 0) [97; 98; 99]) (0 + len [97; 98; 99]) 0).
Proof.
  cbv zeta.
  apply (consume_copies_literals
           (mkDecoder (mkReader [97; 98; 99; 1; 0] EOF) [] (repeat 0 (Z.to_nat bufferSize)) 0 0)
           [97; 98; 99] [1; 0]).
  - reflexivity.
  - vm_compute. discriminate.
  - vm_compute. discriminate.
  - vm_compute. reflexivity.
Defined.

Lemma nth_replicate_at n : forall a p back j,
  (1 <= back <= p)%nat -> (p + n <= length a)%nat -> (p <= j < p + n)%nat ->
  nth j (replicate n a p back) 0 = nth (j - back) (replicate n a p back) 0.
Proof.
  intros a p back j Hb Hl Hj.
  apply (replicate_periodic n a p p back Hb Hl); [|lia].
  intros i Hi. lia.
Qed.

(** [cp] within the buffer is a copy that may overlap its source: every
    byte it writes is the byte [pos - ref] places before it in the buffer
    as it is afterwards, the bytes before [pos] are as they were, [pos]
    moves by [length] and [ref] by [length - decr]. *)
Theorem cp_overlapping_copy (d : decoder) (lg dc : Z) :
  0 <= lg -> 0 <= dc <= lg -> 0 <= ref d < pos d ->
  pos d + lg <= bufferSize -> len (buf d) = bufferSize ->
  exists b,
    cp d lg dc = Done (mkDecoder (r d) (w d) b (pos d + lg) (ref d + (lg - dc)))
    /\ len b = bufferSize
    /\ (forall j, 0 <= j < pos d -> nth (Z.to_nat j) b 0 = nth (Z.to_nat j) (buf d) 0)
    /\ (forall j, pos d <= j < pos d + lg ->
          nth (Z.to_nat j) b 0 = nth (Z.to_nat (j - (pos d - ref d))) b 0).
Proof.
  intros Hl Hd Hr Hf Hb. assert (BS : bufferSize = 131072) by reflexivity.
  eexists. split; [apply cp_fits; try assumption; lia|].
  split; [|split].
  - unfold len in *. rewrite replicate_length. exact Hb.
  - intros j Hj. apply replicate_below. lia.
  - intros j Hj.
    replace (Z.to_nat (j - (pos d - ref d)))
      with (Z.to_nat j - Z.to_nat (pos d - ref d))%nat by lia.
    apply nth_replicate_at; unfold len in *; lia.
Qed.

Lemma cp_overlapping_copy_witness :
  let d := mkDecoder (mkReader [] EOF) []
             ([97; 98; 99] ++ repeat 0 (Z.to_nat (bufferSize - 3))) 3 1 in
  exists b,
    cp d 5 0 = Done (mkDecoder (mkReader [] EOF) [] b (3 + 5) (1 + (5 - 0)))
    /\ len b = bufferSize
    /\ (forall j, 0 <= j < 3 -> nth (Z.to_nat j) b 0 = nth (Z.to_nat j) (buf d) 0)
    /\ (forall j, 3 <= j < 3 + 5 ->
          nth (Z.to_nat j) b 0 = nth (Z.to_nat (j - (3 - 1))) b 0).
Proof.
  cbv zeta.
  apply (cp_overlapping_copy
           (mkDecoder (mkReader [] EOF) []
              ([97; 98; 99] ++ repeat 0 (Z.to_nat (bufferSize - 3))) 3 1) 5 0).
  - lia.
  - lia.
  - vm_compute. split; [discriminate | reflexivity].
  - vm_compute. discriminate.
  - vm_compute. reflexivity.
Defined.

End ReaderMore.

(** * The error [decode1] returns *)

Module ReaderErrors.

Import Reader ReaderRuns.
Import ReaderSpec.











End ReaderErrors.

(** * More about the block encoder *)

Module BlockMore.

Import Reader Block BlockFacts BlockWrites BlockMatch BlockBound BlockBytes BlockTokens BlockLast BlockZeros.
Import ReaderSpec BlockSpec.

(** The bytes [Encode] writes after a length nibble of 15 are read back by
    [getLen] of the decoder as the same number: [ln / 255] bytes 255 and
    the byte [ln mod 255]. *)
Theorem length_extension_round_trip (e : encoder) (ln : Z) (d : decoder) (rest : list Z) :
  let bytes := repeat 255 (Z.to_nat (ln / 255)) ++ [ln mod 255] in
  wf_slice (mem e) (dst e) ->
  0 <= ln < 4294967296 ->
  0 <= dpos e -> dpos e + len bytes <= slen (dst e) -> slen (dst e) < 4294967296 ->
  rd_data (Reader.r d) = bytes ++ rest ->
  write_ext e ln =
    Done (wrote e (put_bytes (mem e) (dst e) (dpos e) bytes) (dpos e + len bytes))
  /\ getLen d = Done (ln, None, Reader.set_r d (mkReader rest (rd_fail (Reader.r d)))).
Proof.
  intros bytes Hw Hl Hp Hr Hs Hd.
  assert (Q : 0 <= ln / 255) by (apply Z.div_pos; lia).
  assert (M : 0 <= ln mod 255 < 255) by (apply Z.mod_pos_bound; lia).
  assert (D : ln = 255 * (ln / 255) + ln mod 255) by (apply Z.div_mod; lia).
  assert (L : len bytes = ln / 255 + 1).
  { unfold bytes, len. rewrite length_app, repeat_length. cbn [length]. lia. }
  split.
  - rewrite L in *. rewrite write_ext_content; try assumption; try lia.
    unfold bytes, u8. rewrite (Z.mod_small (ln mod 255)) by lia.
    rewrite Z.add_assoc. reflexivity.
  - replace ln with (255 * Z.of_nat (Z.to_nat (ln / 255)) + ln mod 255) at 1 by lia.
    apply ReaderOffsets.getLen_complete; [exact M | | lia].
    rewrite Hd. unfold bytes. rewrite <- app_assoc. reflexivity.
Qed.

Lemma length_extension_round_trip_witness :
  let e := mkEncoder [[1; 2; 3]; repeat 0 (Z.to_nat 20)] (mkSlice 0 0 3 3) (mkSlice 1 0 20 20)
             [] 0 0 4 in
  let d := mkDecoder (mkReader [255; 255; 90; 7] EOF) [] [] 0 0 in
  let bytes := repeat 255 (Z.to_nat (600 / 255)) ++ [600 mod 255] in
  write_ext e 600 =
    Done (wrote e (put_bytes (mem e) (dst e) (dpos e) bytes) (dpos e + len bytes))
  /\ getLen d = Done (600, None, Reader.set_r d (mkReader [7] (rd_fail (Reader.r d)))).
Proof.
  cbv zeta.
  apply (length_extension_round_trip
           (mkEncoder [[1; 2; 3]; repeat 0 (Z.to_nat 20)] (mkSlice 0 0 3 3) (mkSlice 1 0 20 20)
              [] 0 0 4)
           600 (mkDecoder (mkReader [255; 255; 90; 7] EOF) [] [] 0 0) [7]).
  - unfold wf_slice. split; [cbn; lia | vm_compute; repeat split; discriminate].
  - lia.
  - vm_compute. discriminate.
  - vm_compute. discriminate.
  - vm_compute. reflexivity.
  - reflexivity.
Defined.

(** An input of at most 4 bytes, the empty one included, is encoded by
    [Encode] as one token without a match followed by the bytes, and
    [decode1] gives the input back. *)
Theorem short_input_round_trip (s : list Z) :
  len s <= 4 ->
  Encode_bytes s = Done (16 * len s :: s)
  /\ decode1 (mkReader (16 * len s :: s) EOF) = Done (None, s).
Proof.
  intros Hs. pose proof (len_nonneg s) as Hn.
  assert (MX : MaxInputSize = 2113929216) by reflexivity.
  assert (BS : bufferSize = 131072) by reflexivity.
  split.
  - unfold Encode_bytes, Encode. cbn [slen].
    rewrite geb_false by lia.
    rewrite CompressBound_small by lia.
    assert (Q0 : len s ÷ 255 = 0) by (apply Z.quot_small; lia).
    rewrite Q0, Z.add_0_r.
    rewrite ltb_true by lia. unfold make. cbv zeta.
    rewrite Encode_loop_next by lia.
    match goal with |- context [Encode_iter ?e ?st ?li] =>
      destruct (last_literals e st li) as (h & out & E & Hb)
    end; cbn [mem src dst pos anchor dpos slen arr off scap].
    + unfold wf_slice, array_of. cbn [arr off slen scap length app nth].
      unfold len. rewrite repeat_length. lia.
    + unfold wf_slice, array_of. cbn [arr off slen scap length app nth].
      unfold len in *. lia.
    + cbn [length]. lia.
    + lia.
    + lia.
    + lia.
    + rewrite Z.sub_0_r. assert (len s / 255 = 0) by (apply Z.div_small; lia). lia.
    + rewrite Z.sub_0_r. assert (len s / 255 = 0) by (apply Z.div_small; lia). lia.
    + lia.
    + rewrite E. cbn [bind]. f_equal. rewrite Hb.
      cbn [mem src dst pos anchor dpos slen arr off scap Z.to_nat firstn skipn app].
      rewrite Z.sub_0_r. unfold last_token, ext_bytes.
      rewrite Z.min_l by lia. rewrite ltb_true by lia. cbn [app].
      f_equal. unfold bytes_of, array_of. cbn [arr off slen nth app Z.to_nat skipn].
      unfold len. rewrite Nat2Z.id. apply firstn_all.
  - unfold decode1. cbv zeta.
    rewrite (ReaderLiterals.cut_before_offset _ (length (16 * len s :: s)) (16 * len s) s []);
      cbn [Reader.r rd_data rd_fail Reader.buf Reader.pos Reader.w].
    + reflexivity.
    + rewrite app_nil_r. reflexivity.
    + reflexivity.
    + cbn [length]. lia.
    + unfold mlBits. rewrite Z.shiftr_div_pow2 by lia. change (2 ^ 4) with 16.
      rewrite Z.mul_comm. apply Z.div_mul. lia.
    + assert (runMask = 15) by reflexivity. lia.
    + lia.
    + lia.
    + unfold len. rewrite repeat_length. apply Z2Nat.id. lia.
Qed.

Lemma short_input_round_trip_witness :
  Encode_bytes [97; 98; 99] = Done (16 * len [97; 98; 99] :: [97; 98; 99])
  /\ decode1 (mkReader (16 * len [97; 98; 99] :: [97; 98; 99]) EOF) = Done (None, [97; 98; 99]).
Proof.
  apply (short_input_round_trip [97; 98; 99]). vm_compute. discriminate.
Defined.

End BlockMore.

(** * Reading the source of the block encoder *)

Lemma little_endian32 (b0 b1 b2 b3 : Z) :
  0 <= b0 < 256 -> 0 <= b1 < 256 -> 0 <= b2 < 256 -> 0 <= b3 < 256 ->
  Z.lor (Z.lor (Z.lor (u32 (Z.shiftl b3 24)) (u32 (Z.shiftl b2 16))) (u32 (Z.shiftl b1 8))) b0
  = b0 + 256 * b1 + 65536 * b2 + 16777216 * b3.
Proof.
  intros R0 R1 R2 R3.
  rewrite !Z.shiftl_mul_pow2 by lia.
  rewrite !u32_small by lia.
  rewrite <- !Z.shiftl_mul_pow2 by lia.
  rewrite (lor_shiftl_add b3 (Z.shiftl b2 16) 24);
    [ | lia | lia | rewrite Z.shiftl_mul_pow2 by lia; lia ].
  rewrite (Z.shiftl_mul_pow2 b2 16) by lia.
  replace (b3 * 2 ^ 24 + b2 * 2 ^ 16) with ((b3 * 2 ^ 8 + b2) * 2 ^ 16) by lia.
  rewrite <- (Z.shiftl_mul_pow2 _ 16) by lia.
  rewrite (lor_shiftl_add _ (Z.shiftl b1 8) 16);
    [ | lia | lia | rewrite Z.shiftl_mul_pow2 by lia; lia ].
  rewrite (Z.shiftl_mul_pow2 b1 8) by lia.
  replace ((b3 * 2 ^ 8 + b2) * 2 ^ 16 + b1 * 2 ^ 8)
    with (((b3 * 2 ^ 8 + b2) * 2 ^ 8 + b1) * 2 ^ 8) by lia.
  rewrite <- (Z.shiftl_mul_pow2 _ 8) by lia.
  rewrite (lor_shiftl_add _ b0 8) by lia. lia.
Qed.

Lemma little_endian32_inj (a0 a1 a2 a3 b0 b1 b2 b3 : Z) :
  0 <= a0 < 256 -> 0 <= a1 < 256 -> 0 <= a2 < 256 -> 0 <= a3 < 256 ->
  0 <= b0 < 256 -> 0 <= b1 < 256 -> 0 <= b2 < 256 -> 0 <= b3 < 256 ->
  a0 + 256 * a1 + 65536 * a2 + 16777216 * a3 = b0 + 256 * b1 + 65536 * b2 + 16777216 * b3 ->
  a0 = b0 /\ a1 = b1 /\ a2 = b2 /\ a3 = b3.
Proof.
  intros Ra0 Ra1 Ra2 Ra3 Rb0 Rb1 Rb2 Rb3 E'.
  assert (E0 : a0 = b0).
  { remember (b1 - a1 + 256 * (b2 - a2) + 65536 * (b3 - a3)) as k eqn:Ek.
    assert (a0 - b0 = 256 * k) by lia. assert (k = 0) by lia. lia. }
  assert (E1 : a1 = b1).
  { remember (b2 - a2 + 256 * (b3 - a3)) as k eqn:Ek.
    assert (a1 - b1 = 256 * k) by lia. assert (k = 0) by lia. lia. }
  assert (E2 : a2 = b2).
  { remember (b3 - a3) as k eqn:Ek.
    assert (a2 - b2 = 256 * k) by lia. assert (k = 0) by lia. lia. }
  repeat split; lia.
Qed.

Module BlockRead.

Import Reader Block BlockFacts.
Import ReaderSpec BlockSpec.

Lemma readUint32_le (e : encoder) (p b0 b1 b2 b3 : Z) :
  p < slen (src e) ->
  src_at e p = Done b0 -> src_at e (p + 1) = Done b1 ->
  src_at e (p + 2) = Done b2 -> src_at e (p + 3) = Done b3 ->
  0 <= b0 < 256 -> 0 <= b1 < 256 -> 0 <= b2 < 256 -> 0 <= b3 < 256 ->
  readUint32 e p = Done (b0 + 256 * b1 + 65536 * b2 + 16777216 * b3).
Proof.
  intros H1 E0 E1 E2 E3 R0 R1 R2 R3.
  unfold readUint32. rewrite geb_false by lia.
  rewrite E3, E2, E1, Z.add_0_r, E0. cbn [bind]. f_equal.
  apply little_endian32; assumption.
Qed.

(** [readUint32] of the block encoder has three regimes: at or past the
    end of [src] it returns 0; with four bytes ahead it returns them as a
    little-endian number; on the last three positions of [src] it indexes
    past the end and panics. *)
Theorem readUint32_regimes (e : encoder) (p b0 b1 b2 b3 : Z) :
  (slen (src e) <= p -> readUint32 e p = Done 0)
  /\ (slen (src e) - 3 <= p < slen (src e) -> readUint32 e p = Panic)
  /\ (0 <= p -> p + 3 < slen (src e) ->
      src_at e p = Done b0 -> src_at e (p + 1) = Done b1 ->
      src_at e (p + 2) = Done b2 -> src_at e (p + 3) = Done b3 ->
      0 <= b0 < 256 -> 0 <= b1 < 256 -> 0 <= b2 < 256 -> 0 <= b3 < 256 ->
      readUint32 e p = Done (b0 + 256 * b1 + 65536 * b2 + 16777216 * b3)).
Proof.
  split; [|split].
  - intros H. unfold readUint32. rewrite geb_true by lia. reflexivity.
  - intros H. unfold readUint32. rewrite geb_false by lia.
    unfold src_at, sl_index.
    replace (p + 3 <? slen (src e)) with false by (symmetry; apply Z.ltb_ge; lia).
    rewrite andb_false_r. reflexivity.
  - intros H0 H1 E0 E1 E2 E3 R0 R1 R2 R3.
    apply readUint32_le; try assumption. lia.
Qed.

Lemma readUint32_regimes_witness :
  let e := mkEncoder [[1; 2; 3; 4; 5]] (mkSlice 0 0 5 5) (mkSlice 0 0 0 0) [] 0 0 0 in
  readUint32 e 5 = Done 0
  /\ readUint32 e 2 = Panic
  /\ readUint32 e 1 = Done (2 + 256 * 3 + 65536 * 4 + 16777216 * 5).
Proof.
  cbv zeta.
  pose proof (readUint32_regimes
                (mkEncoder [[1; 2; 3; 4; 5]] (mkSlice 0 0 5 5) (mkSlice 0 0 0 0) [] 0 0 0))
    as R.
  split; [|split].
  - destruct (R 5 0 0 0 0) as (R1 & _ & _). apply R1. cbn [slen src]. lia.
  - destruct (R 2 0 0 0 0) as (_ & R2 & _). apply R2. cbn [slen src]. lia.
  - destruct (R 1 2 3 4 5) as (_ & _ & R3).
    apply R3; cbn [slen src]; try reflexivity; lia.
Defined.

(** The test [readUint32(ref) != sequence] of [Encode] is exact: the two
    numbers are equal if and only if the four bytes at the two positions
    are, so a candidate is accepted only when at least [minMatch] bytes
    match, whatever the table slot held. *)
Theorem candidate_test_exact (e : encoder) (p q a0 a1 a2 a3 b0 b1 b2 b3 : Z) :
  p < slen (src e) -> q < slen (src e) ->
  src_at e p = Done a0 -> src_at e (p + 1) = Done a1 ->
  src_at e (p + 2) = Done a2 -> src_at e (p + 3) = Done a3 ->
  src_at e q = Done b0 -> src_at e (q + 1) = Done b1 ->
  src_at e (q + 2) = Done b2 -> src_at e (q + 3) = Done b3 ->
  0 <= a0 < 256 -> 0 <= a1 < 256 -> 0 <= a2 < 256 -> 0 <= a3 < 256 ->
  0 <= b0 < 256 -> 0 <= b1 < 256 -> 0 <= b2 < 256 -> 0 <= b3 < 256 ->
  (readUint32 e p = readUint32 e q <-> a0 = b0 /\ a1 = b1 /\ a2 = b2 /\ a3 = b3).
Proof.
  intros Hp Hq A0 A1 A2 A3 B0 B1 B2 B3 Ra0 Ra1 Ra2 Ra3 Rb0 Rb1 Rb2 Rb3.
  rewrite (readUint32_le e p a0 a1 a2 a3) by assumption.
  rewrite (readUint32_le e q b0 b1 b2 b3) by assumption.
  split.
  - intros E.
    assert (E' := f_equal (fun x => match x with Done v => v | _ => 0 end) E).
    cbv beta iota in E'. clear E.
    apply little_endian32_inj; assumption.
  - intros (-> & -> & -> & ->). reflexivity.
Qed.

Lemma candidate_test_exact_witness :
  let e := mkEncoder [[1; 2; 3; 4; 1; 2; 3; 4]] (mkSlice 0 0 8 8) (mkSlice 0 0 0 0) [] 0 0 0 in
  (readUint32 e 0 = readUint32 e 4 <-> 1 = 1 /\ 2 = 2 /\ 3 = 3 /\ 4 = 4).
Proof.
  cbv zeta.
  apply (candidate_test_exact
           (mkEncoder [[1; 2; 3; 4; 1; 2; 3; 4]] (mkSlice 0 0 8 8) (mkSlice 0 0 0 0) [] 0 0 0)
           0 4 1 2 3 4 1 2 3 4);
    cbn [slen src]; try reflexivity; lia.
Defined.

End BlockRead.

(** * More about the streaming encoder *)

Lemma firstn_skipn_S (a : list Z) (k n : nat) :
  (k < length a)%nat ->
  firstn (S n) (skipn k a) = nth k a 0 :: firstn n (skipn (S k) a).
Proof.
  revert k. induction a as [|x t IH]; intros k H; cbn [length] in H; [lia|].
  destruct k as [|k]; [reflexivity|]. cbn [skipn nth]. apply IH. lia.
Qed.

Module StreamMore.

Import Stream.

Lemma ext_loop_bytes (fuel : nat) : forall (e : encoder) (ln : Z),
  0 <= ln <= Z.of_nat fuel -> ln < 4294967296 ->
  ext_loop fuel e ln =
  Done (mkEncoder (r e) (w e ++ repeat 255 (Z.to_nat (ln / 255))) (hashTable e) (buf e)
                  (pos e) (anchor e) (cached e), ln mod 255).
Proof.
  induction fuel as [|k IH]; intros e ln Hl Hu.
  - cbn [ext_loop]. rewrite gtb_false by lia. replace ln with 0 by lia.
    cbn. rewrite app_nil_r. destruct e; reflexivity.
  - cbn [ext_loop]. destruct (Z.gtb_spec ln 254).
    + assert (Q : ln / 255 = (ln - 255) / 255 + 1 /\ ln mod 255 = (ln - 255) mod 255)
        by (Z.div_mod_to_equations; lia).
      destruct Q as [Q1 Q2].
      assert (0 <= (ln - 255) / 255) by (Z.div_mod_to_equations; lia).
      rewrite (u32_small (ln - 255)) by lia.
      rewrite IH by lia. unfold WriteByte, set_w. cbn [r w hashTable buf pos anchor cached].
      rewrite Q1, Q2. do 3 f_equal. rewrite <- app_assoc. f_equal.
      replace (Z.to_nat ((ln - 255) / 255 + 1)) with (S (Z.to_nat ((ln - 255) / 255))) by lia.
      reflexivity.
    + rewrite Z.div_small, Z.mod_small by lia. cbn. rewrite app_nil_r.
      destruct e; reflexivity.
Qed.

Lemma lit_loop_bytes (n : nat) : forall (ii : Z) (e : encoder) (anchor0 : Z),
  0 <= anchor0 + ii -> anchor0 + ii + Z.of_nat n <= len (buf e) ->
  len (buf e) < 4294967296 ->
  lit_loop n ii e anchor0 =
  Done (mkEncoder (r e) (w e ++ firstn n (skipn (Z.to_nat (anchor0 + ii)) (buf e)))
                  (hashTable e) (buf e) (pos e) (anchor e) (cached e)).
Proof.
  induction n as [|k IH]; intros ii e anchor0 H0 H1 H2.
  - cbn. rewrite app_nil_r. destruct e; reflexivity.
  - cbn [lit_loop]. rewrite u32_small by lia.
    rewrite ReaderLiterals.index_in_range by lia. cbn [bind].
    rewrite IH; unfold WriteByte, set_w; cbn [r w hashTable buf pos anchor cached]; try lia.
    do 2 f_equal. rewrite <- app_assoc. f_equal. cbn [app].
    rewrite firstn_skipn_S by (unfold len in *; lia).
    do 3 f_equal. lia.
Qed.

(** [writeLiterals] of the streaming encoder appends to the sink the
    token (the literal count, capped at 15, in the high nibble and the
    match length, capped at 15, in the low one), the extension of the
    literal count when it is 15 or more, and the [length] bytes of the
    window from [anchor] on; nothing else changes. *)
Theorem writeLiterals_bytes (e : encoder) (lg mlLen anchor0 : Z) :
  0 <= lg < 4294967296 -> 0 <= mlLen ->
  0 <= anchor0 -> anchor0 + lg <= len (buf e) -> len (buf e) < 4294967296 ->
  writeLiterals e lg mlLen anchor0 =
  Done (mkEncoder (r e)
          (w e ++ (16 * Z.min lg 15 + Z.min mlLen 15)
                  :: BlockSpec.ext_bytes lg
                  ++ firstn (Z.to_nat lg) (skipn (Z.to_nat anchor0) (buf e)))
          (hashTable e) (buf e) (pos e) (anchor e) (cached e)).
Proof.
  intros Hl Hm Ha Hf Hb.
  assert (RM : runMask = 15) by reflexivity. assert (MM : mlMask = 15) by reflexivity.
  assert (MB : mlBits = 4) by reflexivity.
  unfold writeLiterals. cbv zeta. rewrite RM, MM, MB.
  assert (T : forall code ml, 0 <= code <= 15 -> 0 <= ml <= 15 ->
            u8 (u8 (Z.shiftl code 4) + u8 ml) = 16 * code + ml).
  { intros code ml Hc Hml. rewrite Z.shiftl_mul_pow2 by lia. change (2 ^ 4) with 16.
    unfold u8. rewrite (Z.mod_small (code * 16)), (Z.mod_small ml) by lia.
    rewrite Z.mod_small by lia. lia. }
  unfold BlockSpec.ext_bytes.
  destruct (Z.gtb_spec lg (15 - 1)) as [Hg|Hg].
  - rewrite (Z.min_r lg 15) by lia. rewrite (ltb_false lg 15) by lia.
    change (15 =? 15) with true. cbv iota.
    rewrite (u32_small (lg - 15)) by lia.
    assert (M : 0 <= (lg - 15) mod 255 < 255) by (apply Z.mod_pos_bound; lia).
    destruct (Z.gtb_spec mlLen (15 - 1)) as [Hq|Hq];
      [rewrite (Z.min_r mlLen 15) by lia | rewrite (Z.min_l mlLen 15) by lia];
      rewrite ext_loop_bytes by lia; cbn [bind];
      rewrite lit_loop_bytes;
      unfold WriteByte, set_w; cbn [r w hashTable buf pos anchor cached]; try lia;
      rewrite T by lia; rewrite Z.add_0_r;
      unfold u8; rewrite (Z.mod_small ((lg - 15) mod 255)) by lia;
      do 2 f_equal; repeat rewrite <- app_assoc; cbn [app]; repeat rewrite <- app_assoc; reflexivity.
  - rewrite (Z.min_l lg 15) by lia. rewrite (ltb_true lg 15) by lia.
    assert (U : u8 lg = lg) by (unfold u8; apply Z.mod_small; lia). rewrite U.
    rewrite (eqb_false lg 15) by lia. cbn [bind app].
    destruct (Z.gtb_spec mlLen (15 - 1)) as [Hq|Hq];
      [rewrite (Z.min_r mlLen 15) by lia | rewrite (Z.min_l mlLen 15) by lia];
      rewrite lit_loop_bytes;
      unfold WriteByte, set_w; cbn [r w hashTable buf pos anchor cached]; try lia;
      rewrite T by lia; rewrite Z.add_0_r;
      do 2 f_equal; repeat rewrite <- app_assoc; reflexivity.
Qed.

Lemma writeLiterals_bytes_witness :
  let e := mkEncoder (mkReader [] EOF) [9] [] [97; 98; 99; 100; 101] 5 1 5 in
  writeLiterals e 3 20 1 =
  Done (mkEncoder (mkReader [] EOF)
          ([9] ++ (16 * Z.min 3 15 + Z.min 20 15)
               :: BlockSpec.ext_bytes 3 ++ firstn (Z.to_nat 3) (skipn (Z.to_nat 1) (buf e)))
          [] [97; 98; 99; 100; 101] 5 1 5).
Proof.
  cbv zeta.
  apply (writeLiterals_bytes
           (mkEncoder (mkReader [] EOF) [9] [] [97; 98; 99; 100; 101] 5 1 5) 3 20 1).
  - lia.
  - lia.
  - lia.
  - vm_compute. discriminate.
  - vm_compute. reflexivity.
Defined.

Lemma cache_loop_pads (n : nat) : forall (e : encoder),
  rd_data (r e) = [] -> pos e < cached e -> 0 <= cached e ->
  cached e + Z.of_nat n <= len (buf e) -> len (buf e) < 4294967296 ->
  cache_loop n e =
  Done (None, mkEncoder (r e) (w e) (hashTable e)
                        (splice (buf e) (Z.to_nat (cached e)) (repeat 0 n))
                        (pos e) (anchor e) (cached e + Z.of_nat n)).
Proof.
  induction n as [|k IH]; intros e Hd Hp Hc Hf Hb.
  - cbn [cache_loop repeat]. rewrite splice_nil, Z.add_0_r. destruct e; reflexivity.
  - cbn [cache_loop]. unfold ReadByte. rewrite Hd.
    unfold set_r. cbn [pos cached buf r w hashTable anchor].
    rewrite (eqb_false (pos e)) by lia.
    rewrite ReaderLiterals.store_in_range by lia. cbn [bind].
    unfold set_cached, set_buf. cbn [pos cached buf r w hashTable anchor].
    rewrite u32_small by lia.
    rewrite IH; cbn [pos cached buf r w hashTable anchor rd_data]; try assumption; try lia.
    + do 3 f_equal.
      * replace (Z.to_nat (cached e + 1)) with (S (Z.to_nat (cached e))) by lia.
        apply splice_cons. unfold len in *. lia.
      * lia.
    + unfold len in *. rewrite set_nth_length. lia.
    + unfold len in *. rewrite set_nth_length. lia.
Qed.

(** [cache] once the source is exhausted. Asked for bytes it does not
    have, it reports [EOF] (whatever error the source gave) only when the
    window holds nothing beyond [pos]; otherwise it stores a zero byte for
    every byte asked for, moves [cached] past them and reports no error. *)
Theorem cache_after_end_of_input (e : encoder) (ln : Z) :
  rd_data (r e) = [] -> 0 < ln -> u32 (pos e + ln) > cached e ->
  0 <= cached e -> len (buf e) < 4294967296 ->
  (pos e = cached e ->
   cache e ln = Done (Some EOF, mkEncoder (r e) (w e) (hashTable e) (buf e)
                                          (pos e) (anchor e) (cached e)))
  /\ (pos e < cached e -> cached e + ln <= len (buf e) ->
      cache e ln =
      Done (None, mkEncoder (r e) (w e) (hashTable e)
                            (splice (buf e) (Z.to_nat (cached e)) (repeat 0 (Z.to_nat ln)))
                            (pos e) (anchor e) (cached e + ln))).
Proof.
  intros Hd Hl Hu Hc Hb. unfold cache. rewrite gtb_true by lia. split.
  - intros Hp. destruct (Z.to_nat ln) as [|k] eqn:E; [lia|].
    cbn [cache_loop]. unfold ReadByte. rewrite Hd.
    unfold set_r. cbn [pos cached]. rewrite Hp, Z.eqb_refl.
    destruct (r e); reflexivity.
  - intros Hp Hf. rewrite cache_loop_pads; try assumption; try lia.
    do 3 f_equal. lia.
Qed.

Lemma cache_after_end_of_input_witness :
  cache (mkEncoder (mkReader [] (ErrSource 5)) [] [] [97; 7; 7; 7; 7; 7] 1 0 1) 4
  = Done (Some EOF, mkEncoder (mkReader [] (ErrSource 5)) [] [] [97; 7; 7; 7; 7; 7] 1 0 1)
  /\ cache (mkEncoder (mkReader [] (ErrSource 5)) [] [] [97; 7; 7; 7; 7; 7] 0 0 1) 4
     = Done (None, mkEncoder (mkReader [] (ErrSource 5)) [] []
                             (splice [97; 7; 7; 7; 7; 7] (Z.to_nat 1) (repeat 0 (Z.to_nat 4)))
                             0 0 (1 + 4)).
Proof.
  split.
  - apply (cache_after_end_of_input
             (mkEncoder (mkReader [] (ErrSource 5)) [] [] [97; 7; 7; 7; 7; 7] 1 0 1) 4).
    + reflexivity.
    + lia.
    + vm_compute. reflexivity.
    + vm_compute. discriminate.
    + vm_compute. reflexivity.
    + reflexivity.
  - apply (cache_after_end_of_input
             (mkEncoder (mkReader [] (ErrSource 5)) [] [] [97; 7; 7; 7; 7; 7] 0 0 1) 4).
    + reflexivity.
    + lia.
    + vm_compute. reflexivity.
    + vm_compute. discriminate.
    + vm_compute. reflexivity.
    + vm_compute. reflexivity.
    + vm_compute. discriminate.
Defined.

(** The index both encoders compute from the four bytes they read is a
    valid index of their table of [hashTableSize] slots, whatever the
    bytes are. *)
Theorem hash_within_table (sequence : Z) :
  (0 <= Block.hash sequence < Block.hashTableSize)
  /\ (0 <= hash sequence < hashTableSize).
Proof.
  split.
  - apply BlockBound.hash_range.
  - unfold hash. change hashShift with 15. change hashTableSize with 131072.
    apply shiftr_range. apply u32_range.
Qed.

(** [flush] of the streaming encoder once [cached] is past [flushPos]:
    the window from [anchor] on is moved to the start of the buffer, the
    three cursors are rebased by [anchor], and so is every slot of the
    table that points at or after [anchor]; a slot that points before it
    is unset. Nothing is written. *)
Theorem flush_rebases (e : encoder) :
  cached e > flushPos ->
  0 <= anchor e -> anchor e <= pos e -> pos e < 4294967296 ->
  anchor e <= cached e -> cached e <= len (buf e) -> len (buf e) < 4294967296 ->
  exists e',
    flush e = Done e'
    /\ r e' = r e /\ w e' = w e
    /\ anchor e' = 0 /\ pos e' = pos e - anchor e /\ cached e' = cached e - anchor e
    /\ len (buf e') = len (buf e)
    /\ (forall i, 0 <= i < cached e - anchor e ->
        nth (Z.to_nat i) (buf e') 0 = nth (Z.to_nat (anchor e + i)) (buf e) 0)
    /\ (forall h v, nth_error (hashTable e) h = Some v ->
        nth_error (hashTable e') h =
        Some (if v =? uninitHash then uninitHash
              else if v <? anchor e then uninitHash else u32 (v - anchor e))).
Proof.
  intros Hc Ha Hp Hp' Hac Hcb Hb.
  unfold flush. rewrite gtb_true by lia.
  rewrite (u32_small (cached e - anchor e)) by lia.
  replace (anchor e + (cached e - anchor e)) with (cached e) by lia.
  rewrite (u32_small (cached e)) by lia.
  rewrite !ReaderLiterals.sub_in_range by lia. cbn [bind].
  eexists. split; [reflexivity|].
  unfold set_anchor, set_cached, set_pos, set_hashTable, set_buf.
  cbn [r w hashTable buf pos anchor cached].
  rewrite (u32_small (pos e - anchor e)) by lia.
  rewrite (u32_small (cached e - anchor e)) by lia.
  set (live := firstn (Z.to_nat (cached e - anchor e)) (skipn (Z.to_nat (anchor e)) (buf e))).
  assert (Ll : length live = Z.to_nat (cached e - anchor e)).
  { unfold live. rewrite length_firstn, length_skipn. unfold len in *. lia. }
  do 5 (split; [reflexivity|]). split; [|split].
  - unfold len in *. rewrite blit_length; [reflexivity|]. rewrite Ll. lia.
  - intros i Hi. unfold blit. change (Z.to_nat 0) with 0%nat. cbn [firstn app].
    rewrite Ll, Nat.min_id. rewrite firstn_all2 by lia.
    rewrite app_nth1 by lia. unfold live.
    rewrite nth_firstn.
    replace (Z.to_nat i <? Z.to_nat (cached e - anchor e))%nat with true
      by (symmetry; apply Nat.ltb_lt; lia).
    rewrite nth_skipn. f_equal. lia.
  - intros h v Hv. rewrite nth_error_map, Hv. cbn [option_map].
    destruct (Z.eqb_spec v uninitHash) as [->|]; reflexivity.
Qed.

Lemma flush_rebases_witness :
  let e := mkEncoder (mkReader [] EOF) [] [uninitHash; 130000; 130045]
             (repeat 7 (Z.to_nat bufferSize)) 130050 130040 130060 in
  exists e',
    flush e = Done e'
    /\ r e' = r e /\ w e' = w e
    /\ anchor e' = 0 /\ pos e' = pos e - anchor e /\ cached e' = cached e - anchor e
    /\ len (buf e') = len (buf e)
    /\ (forall i, 0 <= i < cached e - anchor e ->
        nth (Z.to_nat i) (buf e') 0 = nth (Z.to_nat (anchor e + i)) (buf e) 0)
    /\ (forall h v, nth_error (hashTable e) h = Some v ->
        nth_error (hashTable e') h =
        Some (if v =? uninitHash then uninitHash
              else if v <? anchor e then uninitHash else u32 (v - anchor e))).
Proof.
  cbv zeta.
  apply (flush_rebases
           (mkEncoder (mkReader [] EOF) [] [uninitHash; 130000; 130045]
              (repeat 7 (Z.to_nat bufferSize)) 130050 130040 130060)).
  - vm_compute. reflexivity.
  - vm_compute. discriminate.
  - vm_compute. discriminate.
  - vm_compute. reflexivity.
  - vm_compute. discriminate.
  - vm_compute. discriminate.
  - vm_compute. reflexivity.
Defined.

(** An empty source, whatever error its [ReadByte] gives, is encoded by
    [encode1] as the single token [0]: the error of the source is not
    returned. [decode1] reads that token back as the empty output. *)
Theorem encode1_empty_source (fuel : nat) (fl : error) :
  encode1 (S fuel) (mkReader [] fl) = Done (None, [0])
  /\ Reader.decode1 (mkReader [0] EOF) = Done (None, []).
Proof.
  split; vm_compute; reflexivity.
Qed.

(** The streaming encoder reads its four-byte sequences from the window
    alone once the window holds them: [readUint32] at [pos] does not touch
    the source, and it and [readRef] return the four bytes as a
    little-endian number. *)
Theorem window_reads (e : encoder) (p b0 b1 b2 b3 : Z) :
  0 <= p -> p + 4 <= len (buf e) -> len (buf e) < 4294967296 ->
  nth (Z.to_nat p) (buf e) 0 = b0 -> nth (Z.to_nat (p + 1)) (buf e) 0 = b1 ->
  nth (Z.to_nat (p + 2)) (buf e) 0 = b2 -> nth (Z.to_nat (p + 3)) (buf e) 0 = b3 ->
  0 <= b0 < 256 -> 0 <= b1 < 256 -> 0 <= b2 < 256 -> 0 <= b3 < 256 ->
  readRef e p = Done (b0 + 256 * b1 + 65536 * b2 + 16777216 * b3)
  /\ (pos e = p -> p + 4 <= cached e ->
      readUint32 e = Done (b0 + 256 * b1 + 65536 * b2 + 16777216 * b3, None, e)).
Proof.
  intros H0 H1 Hb E0 E1 E2 E3 R0 R1 R2 R3.
  assert (I : forall k, 0 <= k < 4 ->
            index (buf e) (u32 (p + k)) = Done (nth (Z.to_nat (p + k)) (buf e) 0)).
  { intros k Hk. rewrite u32_small by lia. apply ReaderLiterals.index_in_range. lia. }
  split.
  - unfold readRef. rewrite (I 0), (I 1), (I 2), (I 3) by lia.
    rewrite Z.add_0_r, E0, E1, E2, E3. cbn [bind].
    f_equal. apply little_endian32; assumption.
  - intros Hp Hc. unfold readUint32, cache. rewrite Hp.
    rewrite (u32_small (p + 4)) by lia. rewrite gtb_false by lia. cbn [bind].
    rewrite !Hp. rewrite (I 0), (I 1), (I 2), (I 3) by lia.
    rewrite Z.add_0_r, E0, E1, E2, E3. cbn [bind].
    do 2 f_equal. f_equal. apply little_endian32; assumption.
Qed.

Lemma window_reads_witness :
  let e := mkEncoder (mkReader [9] EOF) [] [] [1; 2; 3; 4; 5; 6] 1 0 6 in
  readRef e 1 = Done (2 + 256 * 3 + 65536 * 4 + 16777216 * 5)
  /\ readUint32 e = Done (2 + 256 * 3 + 65536 * 4 + 16777216 * 5, None, e).
Proof.
  cbv zeta.
  destruct (window_reads (mkEncoder (mkReader [9] EOF) [] [] [1; 2; 3; 4; 5; 6] 1 0 6)
              1 2 3 4 5) as [A B];
    try reflexivity; try lia; try (vm_compute; discriminate).
  split; [exact A | apply B; [reflexivity | vm_compute; discriminate]].
Defined.

(** The offset of a match goes through the stream unchanged:
    [writeUint16] appends its low byte and then its high byte, and
    [readUint16] of the decoder reads the same number back from those two
    bytes. *)
Theorem offset_field_round_trip (e : encoder) (v : Z) (d : Reader.decoder) (rest : list Z) :
  0 <= v < 65536 ->
  rd_data (Reader.r d) = [v mod 256; v / 256] ++ rest ->
  w (writeUint16 e v) = w e ++ [v mod 256; v / 256]
  /\ Reader.readUint16 d
     = (v, None, Reader.set_r d (mkReader rest (rd_fail (Reader.r d)))).
Proof.
  intros Hv Hd.
  assert (Hq : 0 <= v / 256 < 256) by (Z.div_mod_to_equations; lia).
  assert (Hm : 0 <= v mod 256 < 256) by (apply Z.mod_pos_bound; lia).
  split.
  - unfold writeUint16, WriteByte, set_w. cbn [w]. rewrite <- app_assoc. cbn [app].
    unfold u8. rewrite Z.shiftr_div_pow2 by lia. change (2 ^ 8) with 256.
    rewrite (Z.mod_small (v / 256)) by lia. reflexivity.
  - unfold Reader.readUint16, Reader.readByte, ReadByte. rewrite Hd.
    cbn [app Reader.set_r Reader.r rd_data rd_fail].
    unfold u16. rewrite Z.shiftl_mul_pow2 by lia. rewrite Z.mod_small by lia.
    rewrite <- Z.shiftl_mul_pow2 by lia. rewrite lor_shiftl_add by lia.
    change (2 ^ 8) with 256. do 2 f_equal. Z.div_mod_to_equations. lia.
Qed.

Lemma offset_field_round_trip_witness :
  let e := mkEncoder (mkReader [] EOF) [7] [] [] 0 0 0 in
  let d := Reader.mkDecoder (mkReader [0x34; 0x12; 5] EOF) [] [] 0 0 in
  w (writeUint16 e 0x1234) = [7] ++ [0x1234 mod 256; 0x1234 / 256]
  /\ Reader.readUint16 d = (0x1234, None, Reader.set_r d (mkReader [5] EOF)).
Proof.
  cbv zeta.
  apply (offset_field_round_trip
           (mkEncoder (mkReader [] EOF) [7] [] [] 0 0 0) 0x1234
           (Reader.mkDecoder (mkReader [0x34; 0x12; 5] EOF) [] [] 0 0) [5]).
  - lia.
  - reflexivity.
Defined.

End StreamMore.

(** * One token through the decoder *)

Module ReaderToken.

Import Reader ReaderRuns ReaderLiterals ReaderOffsets ReaderOverlap.
Import ReaderSpec.

(** the copy of a match at any offset that lies in the buffer *)
Lemma copy_match_replicates (d : decoder) (lg : Z) :
  len (buf d) = bufferSize ->
  0 <= ref d -> 1 <= pos d - ref d ->
  0 <= lg -> pos d + 4 + lg <= bufferSize ->
  exists ref',
    copy_match d lg =
    Done (mkDecoder (r d) (w d)
            (replicate (Z.to_nat (4 + lg)) (buf d) (Z.to_nat (pos d))
                       (Z.to_nat (pos d - ref d)))
            (pos d + 4 + lg) ref').
Proof.
  intros Hb Hr Ho Hl Hf. assert (BS : bufferSize = 131072) by reflexivity.
  destruct (Z.ltb_spec (pos d - ref d) 4) as [H4|H4].
  - apply short_offset_replicates; try assumption. lia.
  - unfold copy_match. rewrite (u32_small (pos d - ref d)) by lia.
    rewrite ltb_false by lia. cbn [bind]. rewrite (u32_small (lg + 4)) by lia.
    rewrite cp_fits; try assumption; try lia.
    eexists. do 2 f_equal; [f_equal; f_equal; lia | lia].
Qed.

Lemma decode1_loop_S (k : nat) (d : decoder) :
  decode1_loop (S k) d =
  (x <- decode1_iter d ;;
   match x with inl res => Done res | inr d => decode1_loop k d end).
Proof. reflexivity. Qed.

Lemma one_token_loop (k : nat) (b0 : list Z) (code : Z) (lits : list Z) (b1 b2 : Z) :
  let back := b1 + 256 * b2 in
  let ml := Z.land code mlMask in
  len b0 = bufferSize ->
  Z.shiftr code mlBits = len lits -> len lits < runMask -> ml < mlMask ->
  0 <= b1 < 256 -> 0 <= b2 < 256 ->
  1 <= back <= len lits ->
  decode1_loop (S (S k))
    (mkDecoder (mkReader (code :: lits ++ [b1; b2]) EOF) [] b0 0 0) =
  Done (None,
        firstn (Z.to_nat (len lits + 4 + ml))
          (replicate (Z.to_nat (4 + ml)) (splice b0 0 lits)
             (Z.to_nat (len lits)) (Z.to_nat back))).
Proof.
  intros back ml LB Hc Hl Hm H1 H2 Hk.
  assert (BS : bufferSize = 131072) by reflexivity.
  assert (RM : runMask = 15) by reflexivity. assert (MM : mlMask = 15) by reflexivity.
  pose proof (len_nonneg lits) as Hn.
  assert (Hml : 0 <= ml).
  { unfold ml. rewrite MM. replace (Z.land code 15) with (code mod 16)
      by (symmetry; apply (Z.land_ones code 4); lia).
    pose proof (Z.mod_pos_bound code 16). lia. }
  rewrite decode1_loop_S. unfold decode1_iter, readByte at 1, ReadByte, set_r.
  cbn [r rd_data rd_fail w buf pos ref]. rewrite Hc.
  rewrite eqb_false by lia. cbn [bind].
  unfold consume, flush. cbn [r w buf pos ref]. rewrite Z.add_0_l.
  rewrite (gtb_false (u32 (len lits))) by (rewrite u32_small; lia).
  cbn [bind]. unfold len at 1. rewrite Nat2Z.id.
  rewrite (consume_loop_lits lits _ [b1; b2]);
    [ | reflexivity | cbn [pos]; lia | cbn [pos buf]; lia | cbn [buf]; lia ].
  cbn [bind r w buf pos ref rd_fail]. rewrite Z.add_0_l.
  change (Z.to_nat 0) with 0%nat.
  unfold read_match, readUint16, readByte, ReadByte, set_r.
  cbn [r rd_data rd_fail w buf pos ref].
  unfold u16. rewrite Z.shiftl_mul_pow2 by lia. rewrite Z.mod_small by lia.
  rewrite <- Z.shiftl_mul_pow2 by lia. rewrite lor_shiftl_add by lia.
  change (2 ^ 8) with 256. replace (b2 * 256 + b1) with back by (unfold back; lia).
  fold ml. rewrite (eqb_false ml) by lia. cbn [bind].
  unfold set_ref. cbn [r w buf pos ref].
  rewrite (u32_small (len lits - back)) by lia.
  match goal with |- context [copy_match ?dd ml] =>
    destruct (copy_match_replicates dd ml) as [ref' E];
      cbn [r w buf pos ref]; try lia;
      [ unfold len in *; rewrite splice_length; cbn [Nat.add]; lia | rewrite E ]
  end.
  cbn [bind r w buf pos ref]. rewrite decode1_loop_S.
  unfold decode1_iter, readByte, ReadByte, set_r. cbn [r rd_data rd_fail w buf pos ref].
  unfold ret_finish, finish. cbn [error_eqb r w buf pos ref].
  rewrite sub_in_range.
  - cbn [bind set_w w app]. rewrite Z.sub_0_r. change (Z.to_nat 0) with 0%nat.
    cbn [skipn]. do 4 f_equal. lia.
  - lia.
  - unfold len in *. rewrite replicate_length, splice_length; cbn [Nat.add]; lia.
Qed.

(** A stream of one token, with fewer than 15 literals and a match
    shorter than 19 bytes at an offset within the literals, is decoded to
    the literals followed by the match, each byte of the match being the
    copy of the byte [offset] places before it. *)
Theorem one_token_decoded (code : Z) (lits : list Z) (b1 b2 : Z) :
  let back := b1 + 256 * b2 in
  let ml := Z.land code mlMask in
  Z.shiftr code mlBits = len lits -> len lits < runMask -> ml < mlMask ->
  0 <= b1 < 256 -> 0 <= b2 < 256 ->
  1 <= back <= len lits ->
  decode1 (mkReader (code :: lits ++ [b1; b2]) EOF) =
  Done (None,
        firstn (Z.to_nat (len lits + 4 + ml))
          (replicate (Z.to_nat (4 + ml))
             (splice (repeat 0 (Z.to_nat bufferSize)) 0 lits)
             (Z.to_nat (len lits)) (Z.to_nat back))).
Proof.
  intros back ml Hc Hl Hm H1 H2 Hk.
  unfold decode1. cbn [rd_data].
  cbn [length].
  apply one_token_loop; try assumption.
  unfold len. rewrite repeat_length. apply Z2Nat.id. vm_compute. discriminate.
Qed.

Lemma one_token_decoded_witness :
  decode1 (mkReader (0x21 :: [97; 98] ++ [2; 0]) EOF) =
  Done (None,
        firstn (Z.to_nat (len [97; 98] + 4 + Z.land 0x21 mlMask))
          (replicate (Z.to_nat (4 + Z.land 0x21 mlMask))
             (splice (repeat 0 (Z.to_nat bufferSize)) 0 [97; 98])
             (Z.to_nat (len [97; 98])) (Z.to_nat (2 + 256 * 0)))).
Proof.
  apply (one_token_decoded 0x21 [97; 98] 2 0).
  - reflexivity.
  - vm_compute. reflexivity.
  - vm_compute. reflexivity.
  - lia.
  - lia.
  - vm_compute. split; discriminate.
Defined.

End ReaderToken.

(** * Sequences: literals followed by a match *)

Module BlockSeq.

Import Reader Block BlockFacts BlockWrites BlockMatch BlockBound BlockBytes BlockTokens BlockLast. Import ReaderLiterals.
Import ReaderSpec BlockSpec.

Lemma writeLiterals_seq (e : encoder) (lg mlLen p : Z) :
  wf_slice (mem e) (dst e) -> wf_slice (mem e) (src e) ->
  arr (src e) <> arr (dst e) ->
  0 <= lg -> 0 <= mlLen -> 0 <= p -> p + lg <= slen (src e) -> p + lg < 4294967296 ->
  0 <= dpos e -> dpos e + lit_cost lg <= slen (dst e) ->
  dpos e + lit_cost lg < 4294967296 ->
  writeLiterals e lg mlLen p =
  Done (wrote e (put_bytes (mem e) (dst e) (dpos e)
                   (seq_token lg mlLen :: ext_bytes lg ++
                    firstn (Z.to_nat lg) (skipn (Z.to_nat (off (src e) + p))
                                                (array_of (mem e) (src e)))))
              (dpos e + lit_cost lg)).
Proof.
  intros WD WS Hne Hl Hml Hp Hs Hs' Hd Hr Hb.
  pose proof (ext_cost_bound lg Hl) as [E0 E1].
  pose proof (ext_bytes_length lg Hl) as EL.
  pose proof WD as (D1 & D2 & D3 & D4). pose proof WS as (S1 & S2 & S3 & S4).
  unfold lit_cost in *. unfold writeLiterals.
  assert (RM : runMask = 15) by reflexivity. assert (MM : mlMask = 15) by reflexivity.
  rewrite MM, RM.
  set (lits := firstn (Z.to_nat lg) _).
  assert (Ll : len lits = lg).
  { unfold lits, len. rewrite length_firstn, length_skipn. unfold len in S4. lia. }
  set (code := if lg >? 15 - 1 then 15 else u8 lg).
  set (tok := seq_token lg mlLen).
  assert (Hcode : code = Z.min lg 15).
  { unfold code. destruct (Z.gtb_spec lg (15 - 1)).
    - rewrite Z.min_r by lia. reflexivity.
    - rewrite Z.min_l by lia. unfold u8. apply Z.mod_small. lia. }
  assert (Hsh : u8 (Z.shiftl code mlBits) = 16 * Z.min lg 15).
  { rewrite Hcode. unfold mlBits, u8. rewrite Z.shiftl_mul_pow2 by lia. change (2 ^ 4) with 16.
    rewrite Z.mod_small by lia. lia. }
  assert (Tk : (if mlLen >? 15 - 1
                then dst_put e (dpos e) (u8 (u8 (Z.shiftl code mlBits) + u8 15))
                else dst_put e (dpos e) (u8 (u8 (Z.shiftl code mlBits) + u8 mlLen)))
               = dst_put e (dpos e) tok).
  { unfold tok, seq_token. rewrite Hsh. destruct (Z.gtb_spec mlLen (15 - 1)).
    - rewrite (Z.min_r mlLen) by lia. f_equal. unfold u8.
      change (15 mod 256) with 15. apply Z.mod_small. lia.
    - rewrite (Z.min_l mlLen) by lia. f_equal. unfold u8.
      rewrite (Z.mod_small mlLen) by lia. apply Z.mod_small. lia. }
  rewrite Tk.
  rewrite dst_put_content by (auto; lia). enc_simpl.
  rewrite (u32_small (dpos e + 1)) by lia.
  set (m1 := put_bytes (mem e) (dst e) (dpos e) [tok]).
  assert (W1 : wf_slice m1 (dst e))
    by (apply wf_put; [lia | unfold len in *; cbn [length]; lia | exact WD]).
  assert (W1s : wf_slice m1 (src e))
    by (apply wf_put; [lia | unfold len in *; cbn [length]; lia | exact WS]).
  assert (A1 : len (array_of m1 (dst e)) = len (array_of (mem e) (dst e))).
  { unfold m1. rewrite array_of_put_same by exact D1. unfold len in *.
    rewrite splice_length; [reflexivity|]. cbn [length]. lia. }
  unfold code, ext_bytes, ext_cost in *. destruct (Z.gtb_spec lg (15 - 1)).
  - rewrite Z.eqb_refl. rewrite ltb_false in * by lia.
    rewrite (u32_small (lg - 15)) by lia.
    assert (0 <= (lg - 15) / 255) by (Z.div_mod_to_equations; lia).
    assert (0 <= (lg - 15) mod 255 < 255) by (apply Z.mod_pos_bound; lia).
    rewrite write_ext_content; enc_simpl; try lia; [|exact W1].
    set (ext := repeat 255 (Z.to_nat ((lg - 15) / 255)) ++ [u8 ((lg - 15) mod 255)]).
    assert (Le : len ext = (lg - 15) / 255 + 1).
    { unfold ext, len. rewrite length_app, repeat_length. cbn [length]. lia. }
    rewrite copy_literals_content; enc_simpl; try lia.
    + rewrite array_of_put_other by exact Hne.
      unfold m1. rewrite array_of_put_other by exact Hne. fold lits.
      replace (dpos e + 1) with (dpos e + len [tok]) by reflexivity.
      rewrite put_bytes_app; try (unfold len in *; cbn [length] in *; lia).
      replace (dpos e + len [tok] + (lg - 15) / 255 + 1)
        with (dpos e + len ([tok] ++ ext))
        by (unfold len in *; rewrite length_app; cbn [length]; lia).
      rewrite put_bytes_app; try (unfold len in *; rewrite ?length_app; cbn [length] in *; lia).
      do 2 f_equal.
      * cbn [app]. f_equal. unfold ext, u8.
        rewrite (Z.mod_small ((lg - 15) mod 255) 256) by lia. reflexivity.
      * unfold len in *. rewrite length_app. cbn [length] in *. lia.
    + apply wf_put; [lia | rewrite A1; lia | exact W1].
    + apply wf_put; [lia | rewrite A1; lia | exact W1s].
  - assert (u8 lg <> 15) by (unfold u8; rewrite Z.mod_small by lia; lia).
    rewrite eqb_false by assumption. rewrite ltb_true in * by lia. cbn [bind].
    rewrite copy_literals_content; enc_simpl; try lia; try assumption.
    unfold m1. rewrite array_of_put_other by exact Hne. fold lits.
    replace (dpos e + 1) with (dpos e + len [tok]) by reflexivity.
    rewrite put_bytes_app; try (unfold len in *; cbn [length] in *; lia).
    do 2 f_equal. unfold len. cbn [length]. lia.
Qed.

Lemma len_app {A : Type} (a b : list A) : len (a ++ b) = len a + len b.
Proof. unfold len. rewrite length_app. lia. Qed.

Lemma len_cons {A : Type} (x : A) (a : list A) : len (x :: a) = 1 + len a.
Proof. unfold len. cbn [length]. lia. Qed.

Ltac len_norm := repeat (rewrite len_app || rewrite len_cons); change (len (@nil Z)) with 0.

Lemma ext_bytes_u8 (ml : Z) :
  15 <= ml ->
  repeat 255 (Z.to_nat ((ml - 15) / 255)) ++ [u8 ((ml - 15) mod 255)] = ext_bytes ml.
Proof.
  intros H. unfold ext_bytes. rewrite ltb_false by lia.
  assert (0 <= (ml - 15) mod 255 < 255) by (apply Z.mod_pos_bound; lia).
  unfold u8. rewrite (Z.mod_small _ 256) by lia. reflexivity.
Qed.

(** what [write_match] puts in [dst]: the token, the literals with their
    length, the offset and the rest of the length of the match *)
Lemma write_match_content (e : encoder) (ln back anchor0 : Z) :
  let ml := pos e - anchor e in
  let total := lit_cost ln + 2 + ext_cost ml in
  wf_slice (mem e) (dst e) -> wf_slice (mem e) (src e) ->
  arr (src e) <> arr (dst e) ->
  0 <= ln -> 0 <= anchor e <= pos e -> pos e < 4294967296 ->
  0 <= anchor0 -> anchor0 + ln <= slen (src e) -> anchor0 + ln < 4294967296 ->
  0 <= dpos e -> dpos e + total <= slen (dst e) -> dpos e + total < 4294967296 ->
  write_match e ln back anchor0 =
  Done (mkEncoder
          (put_bytes (mem e) (dst e) (dpos e)
             ((seq_token ln ml :: ext_bytes ln ++
               firstn (Z.to_nat ln) (skipn (Z.to_nat (off (src e) + anchor0))
                                           (array_of (mem e) (src e))))
              ++ [u8 back; u8 (Z.shiftr back 8)] ++ ext_bytes ml))
          (src e) (dst e) (hashTable e) (pos e) (pos e) (dpos e + total)).
Proof.
  intros ml total WD WS Hne Hl Ha Hp Ha0 Hs Hs' Hd Hr Hb.
  assert (Hml : 0 <= ml) by (unfold ml; lia).
  pose proof (ext_cost_bound ln Hl) as [E0 _].
  pose proof (ext_cost_bound ml Hml) as [M0 _].
  pose proof (ext_bytes_length ln Hl) as EL.
  pose proof (ext_bytes_length ml Hml) as EM.
  pose proof WD as (D1 & D2 & D3 & D4). pose proof WS as (S1 & S2 & S3 & S4).
  assert (MM : mlMask = 15) by reflexivity.
  unfold total, lit_cost in *. unfold write_match. cbv zeta.
  rewrite (u32_small (pos e - anchor e)) by lia. fold ml.
  rewrite writeLiterals_seq; try assumption; unfold lit_cost; try lia.
  set (lits := firstn (Z.to_nat ln) _).
  assert (Ll : len lits = ln).
  { unfold lits, len. rewrite length_firstn, length_skipn. unfold len in S4. lia. }
  set (B1 := seq_token ln ml :: ext_bytes ln ++ lits).
  assert (L1 : len B1 = 1 + ext_cost ln + ln).
  { unfold B1. rewrite len_cons, len_app. lia. }
  enc_simpl.
  set (m1 := put_bytes (mem e) (dst e) (dpos e) B1).
  assert (W1 : wf_slice m1 (dst e)) by (apply wf_put; [lia | lia | exact WD]).
  rewrite dst_put_content; enc_simpl; [ | exact W1 | lia ].
  replace (dpos e + (1 + ext_cost ln + ln)) with (dpos e + len B1) by lia.
  assert (P2 : put_bytes m1 (dst e) (dpos e + len B1) [u8 back]
               = put_bytes (mem e) (dst e) (dpos e) (B1 ++ [u8 back])).
  { unfold m1. apply put_bytes_app; [exact D1 | lia | len_norm; lia]. }
  rewrite P2.
  set (m2 := put_bytes (mem e) (dst e) (dpos e) (B1 ++ [u8 back])).
  assert (W2 : wf_slice m2 (dst e))
    by (apply wf_put; [lia | len_norm; lia | exact WD]).
  rewrite (u32_small (dpos e + len B1 + 1)) by lia.
  rewrite dst_put_content; enc_simpl; [ | exact W2 | lia ].
  set (B2 := B1 ++ [u8 back; u8 (Z.shiftr back 8)]).
  assert (L2 : len B2 = len B1 + 2) by (unfold B2; len_norm; lia).
  assert (P3 : put_bytes m2 (dst e) (dpos e + len B1 + 1) [u8 (Z.shiftr back 8)]
               = put_bytes (mem e) (dst e) (dpos e) B2).
  { unfold m2, B2.
    replace (dpos e + len B1 + 1) with (dpos e + len (B1 ++ [u8 back])) by (len_norm; lia).
    rewrite put_bytes_app; [ | exact D1 | lia | len_norm; lia ].
    rewrite <- app_assoc. reflexivity. }
  rewrite P3.
  set (m3 := put_bytes (mem e) (dst e) (dpos e) B2).
  assert (W3 : wf_slice m3 (dst e)) by (apply wf_put; [lia | lia | exact WD]).
  rewrite (u32_small (dpos e + len B1 + 2)) by lia.
  rewrite MM.
  destruct (Z.gtb_spec ml (15 - 1)).
  - assert (EC : ext_cost ml = (ml - 15) / 255 + 1)
      by (unfold ext_cost; rewrite ltb_false by lia; reflexivity).
    rewrite (u32_small (ml - 15)) by lia.
    assert (0 <= (ml - 15) / 255) by (Z.div_mod_to_equations; lia).
    rewrite write_ext_content; enc_simpl; try lia; [|exact W3].
    f_equal. unfold m3.
    replace (dpos e + len B1 + 2) with (dpos e + len B2) by lia.
    rewrite put_bytes_app;
      [ | exact D1 | lia
        | rewrite len_app, len_cons; unfold len at 2 3; rewrite repeat_length;
          cbn [length]; lia ].
    rewrite ext_bytes_u8 by lia.
    f_equal; [|lia]. unfold B2. rewrite <- app_assoc. reflexivity.
  - assert (EC : ext_cost ml = 0)
      by (unfold ext_cost; rewrite ltb_true by lia; reflexivity).
    assert (EB : ext_bytes ml = [])
      by (unfold ext_bytes; rewrite ltb_true by lia; reflexivity).
    cbn [bind]. enc_simpl. rewrite EB.
    rewrite app_nil_r. fold B2. fold m3. f_equal. f_equal. lia.
Qed.

End BlockSeq.

(** * Runs of one byte *)

Module BlockRuns.

Import Reader Block BlockFacts BlockWrites BlockMatch BlockBound BlockBytes BlockTokens BlockLast BlockZeros BlockSeq. Import ReaderLiterals.
Import ReaderSpec BlockSpec.

Lemma readUint32_constant (c : Z) (e : encoder) (p : Z) :
  constant_src c e = true -> 0 <= p -> p + 3 < slen (src e) ->
  readUint32 e p = Done (quad c).
Proof.
  intros Hc H0 H1. unfold readUint32. rewrite geb_false by lia.
  rewrite !(constant_src_at c e) by (auto; lia). reflexivity.
Qed.

Lemma forallb_repeat (c : Z) (n : nat) : forallb (Z.eqb c) (repeat c n) = true.
Proof. induction n as [|n IH]; cbn [repeat forallb]; [reflexivity|]. now rewrite Z.eqb_refl. Qed.

Ltac side := cbn [mem src dst hashTable pos anchor dpos]; lia.

Lemma Encode_run_loop (c n : Z) (ht : list Z) :
  let s := repeat c (Z.to_nat n) in
  let cb := n + n ÷ 255 + 16 in
  0 <= c < 256 -> 6 <= n < MaxInputSize ->
  len ht = hashTableSize -> nth (Z.to_nat (hash (quad c))) ht 0 = 0 ->
  exists h out,
    Encode_loop (Z.to_nat (2 * n + 4))
      (mkEncoder [s; repeat 0 (Z.to_nat cb)] (mkSlice 0 0 n n) (mkSlice 1 0 cb cb) ht 0 0 0)
      1 incompressible = Done (h, out)
    /\ bytes_of h out = run_stream c n.
Proof.
  intros s cb Hc Hn Lh Hz.
  assert (MX : MaxInputSize = 2113929216) by reflexivity.
  assert (Ls : len s = n) by (unfold s, len; rewrite repeat_length; lia).
  assert (Hq : 0 <= n ÷ 255 /\ n ÷ 255 = n / 255)
    by (rewrite Z.quot_div_nonneg by lia; split; [apply Z.div_pos; lia | reflexivity]).
  assert (Hcb : n + 16 <= cb) by (unfold cb; lia).
  set (z := repeat 0 (Z.to_nat cb)).
  assert (Lz : len z = cb) by (unfold z, len; rewrite repeat_length; lia).
  set (src0 := mkSlice 0 0 n n). set (dst0 := mkSlice 1 0 cb cb).
  set (m0 := [s; z]).
  pose proof (hash_range (quad c)) as Hh.
  assert (C0 : forall t p a d, constant_src c (mkEncoder m0 src0 dst0 t p a d) = true).
  { intros. unfold constant_src, bytes_of, array_of, m0, src0.
    cbn [mem src arr off slen nth].
    rewrite !andb_true_iff. split; [split; apply Z.leb_le; lia|].
    change (Z.to_nat 0) with 0%nat. cbn [skipn].
    replace (firstn (Z.to_nat n) s) with s
      by (symmetry; apply firstn_all2; unfold len in Ls; lia).
    apply forallb_repeat. }
  assert (Ssrc : slen src0 = n) by reflexivity.
  assert (Sdst : slen dst0 = cb) by reflexivity.
  assert (Asrc : arr src0 = 0%nat) by reflexivity.
  assert (Adst : arr dst0 = 1%nat) by reflexivity.
  (* the first turn rejects the unset slot *)
  rewrite Encode_loop_next by lia.
  rewrite (Encode_iter_skip _ 1 incompressible (quad c) 0);
    cbn [mem src dst hashTable pos anchor dpos slen src0 bind].
  2: { side. }
  2: { apply (readUint32_constant c); [apply C0 | side | side]. }
  2: { rewrite index_in_range by lia. f_equal. exact Hz. }
  2: { vm_compute. reflexivity. }
  2: { vm_compute. reflexivity. }
  change (u32 (0 + 1)) with 1. change (u32 (0 - uninitHash)) with 2004318072.
  set (ht1 := set_nth ht (Z.to_nat (hash (quad c))) 2004318072).
  assert (Lh1 : len ht1 = hashTableSize)
    by (unfold ht1, len in *; rewrite set_nth_length; exact Lh).
  (* the second one finds the first byte *)
  rewrite Encode_loop_next by lia.
  rewrite (Encode_iter_match _ incompressible (quad c) 2004318072);
    cbn [mem src dst hashTable pos anchor dpos slen src0 bind].
  2: { side. }
  2: { apply (readUint32_constant c); [apply C0 | side | side]. }
  2: { rewrite index_in_range by lia. f_equal. unfold ht1.
       apply nth_set_nth_eq. unfold len in Lh. lia. }
  2: { vm_compute. reflexivity. }
  2: { change (u32 (2004318072 + uninitHash)) with 0.
       apply (readUint32_constant c); [apply C0 | side | side]. }
  change (u32 (2004318072 + uninitHash)) with 0.
  rewrite (emit_match_to_end c);
    cbn [mem src dst hashTable pos anchor dpos slen src0 bind];
    [ | apply C0 | side | side | side ].
  change (u32 (1 - 0)) with 1. unfold src0 at 1. cbn [slen].
  change (1 + 4) with 5.
  assert (WD : wf_slice m0 dst0).
  { unfold wf_slice, array_of, m0, dst0. cbn [arr off slen scap nth length]. lia. }
  assert (WS : wf_slice m0 src0).
  { unfold wf_slice, array_of, m0, src0. cbn [arr off slen scap nth length]. lia. }
  assert (EC : ext_cost (n - 5) <= (n - 5) / 255 + 1) by (apply ext_cost_le; lia).
  assert (EC0 : 0 <= ext_cost (n - 5)) by (apply ext_cost_bound; lia).
  assert (Dv : 0 <= (n - 5) / 255 <= n) by (Z.div_mod_to_equations; lia).
  assert (Hcb' : cb <= 2 * n + 16) by (unfold cb; Z.div_mod_to_equations; lia).
  rewrite write_match_content;
    cbn [mem src dst hashTable pos anchor dpos slen arr off src0 dst0];
    unfold lit_cost; change (ext_cost 1) with 0;
    try assumption; try lia.
  cbn [bind]. rewrite Z.add_0_l.
  set (B := (seq_token 1 (n - 5) :: _) ++ _).
  assert (EB : B = seq_token 1 (n - 5) :: c :: [1; 0] ++ ext_bytes (n - 5)).
  { unfold B, array_of, m0. cbn [nth]. change (Z.to_nat (0 + 0)) with 0%nat.
    change (Z.to_nat 1) with 1%nat. cbn [skipn]. change (ext_bytes 1) with (@nil Z).
    unfold s. replace (Z.to_nat n) with (S (Z.to_nat (n - 1))) by lia.
    cbn [repeat firstn app]. reflexivity. }
  assert (LB : len B = 1 + 0 + 1 + 2 + ext_cost (n - 5)).
  { rewrite EB. len_norm. rewrite ext_bytes_length by lia. lia. }
  (* the last turn writes the empty last token *)
  rewrite Encode_loop_next by lia.
  match goal with |- context [Encode_iter ?e ?st ?li] =>
    destruct (last_literals e st li) as (h & out & E & Hb)
  end; cbn [mem src dst hashTable pos anchor dpos slen arr];
    rewrite ?Sdst, ?Adst; try assumption; try lia.
  - apply wf_put; [| | exact WD]; unfold array_of, m0, dst0; cbn [arr off nth]; lia.
  - replace (n - n) with 0 by lia. change (0 / 255) with 0. lia.
  - replace (n - n) with 0 by lia. change (0 / 255) with 0. lia.
  - exists h, out. rewrite E. cbn [bind]. split; [reflexivity|]. rewrite Hb.
    cbn [mem src dst hashTable pos anchor dpos slen].
    replace (n - n) with 0 by lia.
    change (last_token 0) with 0. change (ext_bytes 0) with (@nil Z). cbn [app].
    unfold bytes_of. rewrite array_of_put_same by (unfold m0, dst0; cbn [arr length]; lia).
    rewrite array_of_put_other by (unfold dst0; cbn [arr]; lia).
    unfold dst0 at 2 3 4. cbn [off slen]. unfold array_of, m0, dst0. cbn [arr nth off].
    change (Z.to_nat (0 + 0)) with 0%nat. change (Z.to_nat 0) with 0%nat. cbn [skipn].
    rewrite firstn_firstn. cbn [slen].
    replace (Nat.min (Z.to_nat (0 + (1 + 0 + 1 + 2 + ext_cost (n - 5)))) (Z.to_nat cb))
      with (0 + length B)%nat by (unfold len in LB; lia).
    rewrite firstn_splice by (unfold len in *; lia).
    rewrite (skipn_all2 (firstn (Z.to_nat n) s))
      by (rewrite length_firstn; unfold len in Ls; lia).
    cbn [firstn app]. rewrite EB. unfold run_stream. cbn [app]. reflexivity.
Qed.

(** [Encode] on [n] bytes [c] *)
Lemma Encode_run (c n : Z) :
  0 <= c < 256 -> 6 <= n < MaxInputSize ->
  Encode_bytes (repeat c (Z.to_nat n)) = Done (run_stream c n).
Proof.
  intros Hc Hn.
  assert (MX : MaxInputSize = 2113929216) by reflexivity.
  assert (Ls : len (repeat c (Z.to_nat n)) = n) by (unfold len; rewrite repeat_length; lia).
  unfold Encode_bytes, Encode. cbn [slen]. rewrite Ls.
  rewrite geb_false by lia. rewrite CompressBound_small by lia.
  assert (Hq : 0 <= n ÷ 255) by (rewrite Z.quot_div_nonneg by lia; apply Z.div_pos; lia).
  rewrite ltb_true by lia. unfold make. cbv zeta. cbn [length app].
  destruct (Encode_run_loop c n (repeat 0 (Z.to_nat hashTableSize)) Hc Hn)
    as (h & out & E & Hb).
  - unfold len. rewrite repeat_length. apply Z2Nat.id. vm_compute. discriminate.
  - apply nth_repeat.
  - cbv zeta in E. rewrite E. cbn [bind]. rewrite Hb. reflexivity.
Qed.

End BlockRuns.

(** * Runs of one byte, decoded *)

Lemma replicate_run (c : Z) (k : nat) : forall (a : list Z) (p : nat),
  (1 <= p)%nat -> (p + k <= length a)%nat -> nth (p - 1) a 0 = c ->
  firstn (p + k) (replicate k a p 1) = firstn p a ++ repeat c k.
Proof.
  induction k as [|k IH]; intros a p Hp Hl Hc; cbn [replicate repeat].
  - rewrite Nat.add_0_r, app_nil_r. reflexivity.
  - replace (p + S k)%nat with (S p + k)%nat by lia.
    rewrite IH.
    + rewrite firstn_set_nth_S by lia. rewrite Hc, <- app_assoc. reflexivity.
    + lia.
    + rewrite set_nth_length. lia.
    + replace (S p - 1)%nat with p by lia. rewrite Hc. apply nth_set_nth_eq. lia.
Qed.

Module ReaderRun.

Import Reader ReaderRuns ReaderLiterals ReaderOffsets ReaderOverlap ReaderToken.
Import ReaderSpec.

Lemma run_stream_loop (k : nat) (b0 : list Z) (c n : Z) :
  len b0 = bufferSize -> 0 <= c < 256 -> 6 <= n <= bufferSize ->
  decode1_loop (S (S k)) (mkDecoder (mkReader (BlockSpec.run_stream c n) EOF) [] b0 0 0) =
  Done (None, repeat c (Z.to_nat n)).
Proof.
  intros LB Hc Hn.
  assert (BS : bufferSize = 131072) by reflexivity.
  assert (RM : runMask = 15) by reflexivity. assert (MM : mlMask = 15) by reflexivity.
  unfold BlockSpec.run_stream, seq_token. rewrite (Z.min_l 1 15) by lia.
  set (ml := Z.min (n - 5) 15).
  assert (Hml : 1 <= ml <= 15) by (unfold ml; lia).
  assert (Hsh : Z.shiftr (16 * 1 + ml) mlBits = 1).
  { unfold mlBits. rewrite Z.shiftr_div_pow2 by lia. change (2 ^ 4) with 16.
    Z.div_mod_to_equations. lia. }
  assert (Hland : Z.land (16 * 1 + ml) mlMask = ml).
  { rewrite MM. change 15 with (Z.ones 4). rewrite Z.land_ones by lia.
    change (2 ^ 4) with 16. Z.div_mod_to_equations. lia. }
  rewrite decode1_loop_S. unfold decode1_iter, readByte at 1, ReadByte, set_r.
  cbn [r rd_data rd_fail w buf pos ref]. rewrite Hsh.
  rewrite eqb_false by lia. cbn [bind].
  unfold consume, flush. cbn [r w buf pos ref].
  change (u32 (0 + 1)) with 1. rewrite (gtb_false 1) by lia.
  cbn [bind]. change (Z.to_nat 1) with (length [c]).
  rewrite (consume_loop_lits [c] _ ([1; 0] ++ BlockSpec.ext_bytes (n - 5) ++ [0]));
    [ | reflexivity | cbn [pos]; lia | cbn [pos buf]; change (len [c]) with 1; lia
      | cbn [buf]; lia ].
  cbn [bind r w buf pos ref rd_fail]. change (0 + len [c]) with 1.
  change (Z.to_nat 0) with 0%nat.
  unfold read_match, readUint16, readByte, ReadByte, set_r.
  cbn [app r rd_data rd_fail w buf pos ref].
  change (Z.lor (u16 (Z.shiftl 0 8)) 1) with 1. rewrite Hland.
  unfold set_ref. cbn [r w buf pos ref]. change (u32 (1 - 1)) with 0.
  set (b1 := splice b0 0 [c]).
  assert (L1 : len b1 = bufferSize).
  { unfold b1, len in *. rewrite splice_length; cbn [length Nat.add]; lia. }
  (* the length of the match *)
  assert (G : forall d0 : decoder,
            rd_data (r d0) = BlockSpec.ext_bytes (n - 5) ++ [0] ->
            (if ml =? mlMask
             then '(ln, err, d) <- getLen d0 ;; Done (u32 (ml + ln), err, d)
             else Done (ml, None, d0))
            = Done (n - 5, None, set_r d0 (mkReader [0] (rd_fail (r d0))))).
  { intros d0 Hd. unfold BlockSpec.ext_bytes in Hd. rewrite MM.
    destruct (Z.eqb_spec ml 15) as [E|E].
    - assert (15 <= n - 5) by (unfold ml in E; lia).
      rewrite ltb_false in Hd by lia.
      assert (Hq : 0 <= (n - 5 - 15) / 255) by (apply Z.div_pos; lia).
      assert (Hlast : 0 <= (n - 5 - 15) mod 255 < 255) by (apply Z.mod_pos_bound; lia).
      rewrite (getLen_complete (Z.to_nat ((n - 5 - 15) / 255)) ((n - 5 - 15) mod 255) [0]);
        [ | exact Hlast | rewrite Hd, <- app_assoc; reflexivity
          | rewrite Z2Nat.id by exact Hq; Z.div_mod_to_equations; lia ].
      cbn [bind]. rewrite Z2Nat.id by exact Hq.
      replace (255 * ((n - 5 - 15) / 255) + (n - 5 - 15) mod 255) with (n - 5 - 15)
        by (apply Z.div_mod; lia).
      rewrite E. rewrite u32_small by lia. do 3 f_equal. lia.
    - assert (n - 5 < 15) by (unfold ml in E; lia).
      rewrite ltb_true in Hd by lia. cbn [app] in Hd.
      replace ml with (n - 5) by (unfold ml; lia).
      do 2 f_equal. destruct d0 as [[dat fl] ? ? ? ?]. cbn in Hd. subst dat. reflexivity. }
  rewrite G by reflexivity. cbn [bind]. unfold set_r. cbn [r w buf pos ref rd_fail].
  match goal with |- context [copy_match ?dd (n - 5)] =>
    destruct (copy_match_replicates dd (n - 5)) as [ref' E];
      cbn [r w buf pos ref]; try lia
  end.
  rewrite E.
  cbn [bind r w buf pos ref]. rewrite decode1_loop_S.
  unfold decode1_iter, readByte at 1, ReadByte, set_r. cbn [r rd_data rd_fail w buf pos ref].
  change (Z.shiftr 0 mlBits) with 0. rewrite (eqb_false 0) by lia. cbn [bind].
  unfold consume, flush. cbn [r w buf pos ref].
  replace (1 + 4 + (n - 5)) with n by lia. rewrite Z.add_0_r.
  rewrite (u32_small n) by lia. rewrite gtb_false by lia.
  cbn [bind]. change (Z.to_nat 0) with 0%nat. cbn [consume_loop bind].
  unfold read_match, readUint16, readByte, ReadByte, set_r.
  cbn [r rd_data rd_fail w buf pos ref].
  unfold ret_finish, finish. cbn [error_eqb r w buf pos ref].
  rewrite sub_in_range.
  - cbn [bind set_w w app]. rewrite Z.sub_0_r. change (Z.to_nat 0) with 0%nat.
    cbn [skipn]. do 2 f_equal.
    change (Z.to_nat 1) with 1%nat. rewrite Z.sub_0_r.
    replace (Z.to_nat (4 + (n - 5))) with (Z.to_nat (n - 1)) by lia.
    replace (Z.to_nat n) with (1 + Z.to_nat (n - 1))%nat by lia.
    rewrite (replicate_run c).
    + unfold b1, splice. cbn [firstn app repeat Nat.add]. reflexivity.
    + lia.
    + unfold len in L1. lia.
    + unfold b1, splice. reflexivity.
  - lia.
  - unfold len in *. rewrite replicate_length. lia.
Qed.

End ReaderRun.

(** * The layout of a sequence and the round trip of a run *)

Module BlockLayout.

Import Reader Block BlockFacts BlockWrites BlockMatch BlockBound BlockBytes BlockTokens BlockLast BlockSeq.
Import ReaderSpec BlockSpec.

(** [Encode] lays a sequence out in [dst] as the format has it: the token
    with the two nibbles, the extension of the number of literals, the
    literals, the offset on two bytes with the low one first, and the
    extension of the length of the match. Nothing else of the state moves
    but [anchor], which joins [pos], and [dpos], which goes past the bytes
    written. *)
Theorem sequence_layout (e : encoder) (ln back anchor0 : Z) :
  let ml := pos e - anchor e in
  let total := lit_cost ln + 2 + ext_cost ml in
  wf_slice (mem e) (dst e) -> wf_slice (mem e) (src e) ->
  arr (src e) <> arr (dst e) ->
  0 <= ln -> 0 <= anchor e <= pos e -> pos e < 4294967296 ->
  0 <= anchor0 -> anchor0 + ln <= slen (src e) -> anchor0 + ln < 4294967296 ->
  0 <= dpos e -> dpos e + total <= slen (dst e) -> dpos e + total < 4294967296 ->
  write_match e ln back anchor0 =
  Done (mkEncoder
          (put_bytes (mem e) (dst e) (dpos e)
             ((seq_token ln ml :: ext_bytes ln ++
               firstn (Z.to_nat ln) (skipn (Z.to_nat (off (src e) + anchor0))
                                           (array_of (mem e) (src e))))
              ++ [u8 back; u8 (Z.shiftr back 8)] ++ ext_bytes ml))
          (src e) (dst e) (hashTable e) (pos e) (pos e) (dpos e + total)).
Proof. exact (write_match_content e ln back anchor0). Qed.

Lemma sequence_layout_witness :
  let e := mkEncoder [[1; 2; 3; 4; 1; 2; 3; 4]; repeat 0 20]
             (mkSlice 0 0 8 8) (mkSlice 1 0 20 20) [] 8 8 0 in
  write_match e 4 4 0 =
  Done (mkEncoder
          (put_bytes (mem e) (dst e) (dpos e)
             ((seq_token 4 (8 - 8) :: ext_bytes 4 ++
               firstn (Z.to_nat 4) (skipn (Z.to_nat (0 + 0)) (array_of (mem e) (src e))))
              ++ [u8 4; u8 (Z.shiftr 4 8)] ++ ext_bytes (8 - 8)))
          (src e) (dst e) (hashTable e) 8 8 (0 + (lit_cost 4 + 2 + ext_cost (8 - 8)))).
Proof.
  cbv zeta.
  apply (sequence_layout
           (mkEncoder [[1; 2; 3; 4; 1; 2; 3; 4]; repeat 0 20]
              (mkSlice 0 0 8 8) (mkSlice 1 0 20 20) [] 8 8 0) 4 4 0).
  - unfold wf_slice. vm_compute. repeat split; try discriminate. lia.
  - unfold wf_slice. vm_compute. repeat split; try discriminate. lia.
  - cbn. lia.
  - lia.
  - cbn. lia.
  - cbn. lia.
  - lia.
  - cbn. lia.
  - lia.
  - cbn. lia.
  - vm_compute. discriminate.
  - vm_compute. reflexivity.
Defined.

(** A run of [n] equal bytes, [6 <= n], is encoded by [Encode] as one
    literal, one match at offset 1 that covers the rest of the input, and
    the empty last token; as long as the run fits in the buffer of the
    decoder, [decode1] gives the run back from that stream. *)
Theorem run_round_trip (c n : Z) :
  0 <= c < 256 -> 6 <= n < MaxInputSize ->
  Encode_bytes (repeat c (Z.to_nat n)) = Done (BlockSpec.run_stream c n)
  /\ (n <= bufferSize ->
      decode1 (mkReader (BlockSpec.run_stream c n) EOF) = Done (None, repeat c (Z.to_nat n))).
Proof.
  intros Hc Hn. split.
  - apply BlockRuns.Encode_run; assumption.
  - intros Hb. unfold decode1. cbn [rd_data].
    unfold BlockSpec.run_stream at 2. cbn [length].
    apply ReaderRun.run_stream_loop; [ | exact Hc | lia ].
    unfold len. rewrite repeat_length. apply Z2Nat.id. vm_compute. discriminate.
Qed.

Lemma run_round_trip_witness :
  Encode_bytes (repeat 97 (Z.to_nat 40)) = Done (BlockSpec.run_stream 97 40)
  /\ decode1 (mkReader (BlockSpec.run_stream 97 40) EOF)
     = Done (None, repeat 97 (Z.to_nat 40)).
Proof.
  destruct (run_round_trip 97 40) as [E D].
  - lia.
  - vm_compute. split; [discriminate | reflexivity].
  - split; [exact E | apply D; vm_compute; discriminate].
Defined.

End BlockLayout.

(** * Blocks of sequences, decoded *)

Module BlockFormat.

Import Reader ReaderRuns ReaderLiterals ReaderOffsets ReaderOverlap ReaderToken BlockTokens.
Import ReaderSpec BlockSpec.

Lemma extend_length (n : nat) : forall out back, length (extend n out back) = (length out + n)%nat.
Proof.
  induction n as [|n IH]; intros out back; cbn [extend]; [lia|].
  rewrite IH, length_app. cbn [length]. lia.
Qed.

Lemma replicate_extend (n : nat) : forall (a : list Z) (p back : nat),
  (1 <= back <= p)%nat -> (p + n <= length a)%nat ->
  firstn (p + n) (replicate n a p back) = extend n (firstn p a) back.
Proof.
  induction n as [|n IH]; intros a p back Hb Hl; cbn [replicate extend].
  - rewrite Nat.add_0_r. reflexivity.
  - replace (p + S n)%nat with (S p + n)%nat by lia.
    rewrite IH; [ | lia | rewrite set_nth_length; lia ].
    rewrite firstn_set_nth_S by lia. rewrite length_firstn.
    replace (Nat.min p (length a)) with p by lia.
    rewrite nth_firstn.
    replace (p - back <? p)%nat with true by (symmetry; apply Nat.ltb_lt; lia).
    reflexivity.
Qed.

Lemma fits_bound (ss : list sequence) : forall n last,
  fits n ss last = true -> 0 <= n -> n <= bufferSize.
Proof.
  induction ss as [|s t IH]; intros n last H Hn; cbn [fits] in H.
  - apply Z.leb_le in H. pose proof (len_nonneg last). lia.
  - rewrite !andb_true_iff in H. destruct H as [[[[H1 H2] H3] H4] H5].
    apply Z.leb_le in H1, H2, H4. pose proof (len_nonneg (s_lits s)).
    apply IH in H5; lia.
Qed.

(** a length of [l], written as a nibble and its extension, read back *)
Lemma length_field (d : decoder) (l : Z) (rest : list Z) :
  0 <= l < 4294967296 ->
  rd_data (r d) = ext_bytes l ++ rest ->
  (if Z.min l 15 =? 15
   then '(ln, err, d) <- getLen d ;; Done (u32 (Z.min l 15 + ln), err, d)
   else Done (Z.min l 15, None, d))
  = Done (l, None, set_r d (mkReader rest (rd_fail (r d)))).
Proof.
  intros Hl Hd. unfold ext_bytes in Hd.
  destruct (Z.eqb_spec (Z.min l 15) 15) as [E|E].
  - assert (15 <= l) by lia. rewrite ltb_false in Hd by lia.
    assert (Hq : 0 <= (l - 15) / 255) by (apply Z.div_pos; lia).
    assert (Hlast : 0 <= (l - 15) mod 255 < 255) by (apply Z.mod_pos_bound; lia).
    rewrite (getLen_complete (Z.to_nat ((l - 15) / 255)) ((l - 15) mod 255) rest);
      [ | exact Hlast | rewrite Hd, <- app_assoc; reflexivity
        | rewrite Z2Nat.id by exact Hq; Z.div_mod_to_equations; lia ].
    cbn [bind]. rewrite Z2Nat.id by exact Hq.
    replace (255 * ((l - 15) / 255) + (l - 15) mod 255) with (l - 15)
      by (apply Z.div_mod; lia).
    rewrite E. rewrite u32_small by lia. do 3 f_equal. lia.
  - assert (l < 15) by lia. rewrite ltb_true in Hd by lia. cbn [app] in Hd.
    rewrite Z.min_l by lia.
    do 2 f_equal. destruct d as [[dat fl] ? ? ? ?]. cbn in Hd. subst dat. reflexivity.
Qed.

Lemma token_nibbles (l ml : Z) :
  0 <= l -> 0 <= ml ->
  Z.shiftr (seq_token l ml) mlBits = Z.min l 15
  /\ Z.land (seq_token l ml) mlMask = Z.min ml 15.
Proof.
  intros Hl Hm. unfold seq_token, mlBits, mlMask. split.
  - rewrite Z.shiftr_div_pow2 by lia. change (2 ^ 4) with 16.
    Z.div_mod_to_equations. lia.
  - rewrite (Z.land_ones _ 4 ltac:(lia) : Z.land _ 15 = _).
    change (2 ^ 4) with 16. Z.div_mod_to_equations. lia.
Qed.

(** one turn of the loop of [decode1] on a sequence *)
Lemma sequence_step (d : decoder) (s : sequence) (rest : list Z) :
  let p' := pos d + len (s_lits s) + 4 + s_ml s in
  len (buf d) = bufferSize -> 0 <= pos d ->
  rd_data (r d) = serialize s ++ rest ->
  1 <= s_back s <= pos d + len (s_lits s) -> s_back s < 65536 -> 0 <= s_ml s ->
  p' <= bufferSize ->
  exists b ref',
    decode1_iter d =
    Done (inr (mkDecoder (mkReader rest (rd_fail (r d))) (w d) b p' ref'))
    /\ len b = bufferSize
    /\ firstn (Z.to_nat p') b =
       extend (Z.to_nat (4 + s_ml s))
              (firstn (Z.to_nat (pos d)) (buf d) ++ s_lits s) (Z.to_nat (s_back s)).
Proof.
  intros p' LB Hp Hd Hk Hk' Hm Hf. subst p'.
  destruct s as [lits back ml]. cbn [s_lits s_back s_ml] in *.
  assert (BS : bufferSize = 131072) by reflexivity.
  assert (RM : runMask = 15) by reflexivity. assert (MM : mlMask = 15) by reflexivity.
  pose proof (len_nonneg lits) as Hn.
  destruct (token_nibbles (len lits) ml Hn Hm) as [T1 T2].
  unfold serialize in Hd. cbn [s_lits s_back s_ml app] in Hd.
  rewrite <- !app_assoc in Hd. cbn [app] in Hd.
  assert (Hq : 0 <= back / 256 < 256) by (Z.div_mod_to_equations; lia).
  assert (Hr : 0 <= back mod 256 < 256) by (apply Z.mod_pos_bound; lia).
  unfold decode1_iter, readByte at 1, ReadByte. rewrite Hd. unfold set_r at 1.
  cbn [r rd_data rd_fail w buf pos ref]. rewrite T1, RM.
  rewrite (length_field _ (len lits)
             (lits ++ back mod 256 :: back / 256 :: ext_bytes ml ++ rest));
    [ | lia | reflexivity ].
  cbn [bind]. unfold set_r. cbn [r rd_data rd_fail w buf pos ref].
  unfold consume, flush. cbn [r w buf pos ref].
  rewrite (gtb_false (u32 (pos d + len lits))) by (rewrite u32_small; lia).
  cbn [bind]. unfold len at 1. rewrite Nat2Z.id.
  rewrite (consume_loop_lits lits _ (back mod 256 :: back / 256 :: ext_bytes ml ++ rest));
    [ | reflexivity | cbn [pos]; lia | cbn [pos buf]; lia | cbn [buf]; lia ].
  cbn [bind r w buf pos ref rd_fail].
  unfold read_match, readUint16, readByte, ReadByte, set_r.
  cbn [app r rd_data rd_fail w buf pos ref].
  unfold u16. rewrite Z.shiftl_mul_pow2 by lia. rewrite (Z.mod_small (back / 256 * 2 ^ 8)) by lia.
  rewrite <- Z.shiftl_mul_pow2 by lia. rewrite lor_shiftl_add by lia.
  change (2 ^ 8) with 256.
  replace (back / 256 * 256 + back mod 256) with back by (Z.div_mod_to_equations; lia).
  rewrite T2, MM. unfold set_ref. cbn [r w buf pos ref].
  rewrite (u32_small (pos d + len lits - back)) by lia.
  rewrite (length_field _ ml rest); [ | lia | reflexivity ].
  cbn [bind]. unfold set_r. cbn [r w buf pos ref rd_fail].
  set (b1 := splice (buf d) (Z.to_nat (pos d)) lits).
  assert (L1 : len b1 = bufferSize).
  { unfold b1, len in *. rewrite splice_length; lia. }
  match goal with |- context [copy_match ?dd ml] =>
    destruct (copy_match_replicates dd ml) as [ref' E];
      cbn [r w buf pos ref]; try lia
  end.
  rewrite E. cbn [bind r w buf pos ref].
  replace (pos d + len lits - (pos d + len lits - back)) with back by lia.
  eexists _, ref'. split; [reflexivity|]. split.
  - unfold len in *. rewrite replicate_length. exact L1.
  - replace (Z.to_nat (pos d + len lits + 4 + ml))
      with (Z.to_nat (pos d + len lits) + Z.to_nat (4 + ml))%nat by lia.
    rewrite replicate_extend by (unfold len in *; lia).
    f_equal. unfold b1.
    replace (Z.to_nat (pos d + len lits)) with (Z.to_nat (pos d) + length lits)%nat
      by (unfold len; lia).
    apply firstn_splice. unfold len in *. lia.
Qed.

(** the last turn, on the literals that end the block *)
Lemma last_block_step (k : nat) (d : decoder) (last : list Z) :
  len (buf d) = bufferSize -> 0 <= pos d ->
  rd_data (r d) = last_block last -> rd_fail (r d) = EOF ->
  pos d + len last <= bufferSize ->
  decode1_loop (S k) d = Done (None, w d ++ firstn (Z.to_nat (pos d)) (buf d) ++ last).
Proof.
  intros LB Hp Hd Hfl Hf.
  assert (BS : bufferSize = 131072) by reflexivity.
  assert (RM : runMask = 15) by reflexivity.
  pose proof (len_nonneg last) as Hn.
  destruct (token_nibbles (len last) 0 Hn ltac:(lia)) as [T1 _].
  unfold last_block, last_token in Hd.
  replace (16 * Z.min (len last) 15) with (seq_token (len last) 0) in Hd
    by (unfold seq_token; rewrite (Z.min_l 0 15) by lia; lia).
  rewrite decode1_loop_S.
  unfold decode1_iter, readByte at 1, ReadByte. rewrite Hd. unfold set_r at 1.
  cbn [r rd_data rd_fail w buf pos ref]. rewrite T1, RM.
  rewrite (length_field _ (len last) last);
    [ | lia | cbn [r rd_data]; reflexivity ].
  cbn [bind]. unfold set_r. cbn [r rd_data rd_fail w buf pos ref].
  unfold consume, flush. cbn [r w buf pos ref].
  rewrite (gtb_false (u32 (pos d + len last))) by (rewrite u32_small; lia).
  cbn [bind]. unfold len at 1. rewrite Nat2Z.id.
  rewrite (consume_loop_lits last _ []);
    [ | cbn [r rd_data]; symmetry; apply app_nil_r
      | cbn [pos]; lia | cbn [pos buf]; lia | cbn [buf]; lia ].
  cbn [bind r w buf pos ref rd_fail].
  unfold read_match, readUint16, readByte, ReadByte, set_r.
  cbn [r rd_data rd_fail w buf pos ref]. rewrite Hfl.
  unfold ret_finish, finish. cbn [error_eqb r w buf pos ref].
  rewrite sub_in_range.
  - cbn [bind set_w w]. rewrite Z.sub_0_r. change (Z.to_nat 0) with 0%nat.
    cbn [skipn]. do 3 f_equal.
    replace (Z.to_nat (pos d + len last)) with (Z.to_nat (pos d) + length last)%nat
      by (unfold len; lia).
    apply firstn_splice. unfold len in *. lia.
  - lia.
  - unfold len in *. rewrite splice_length; lia.
Qed.

Lemma block_loop (last : list Z) (ss : list sequence) : forall (k : nat) (d : decoder),
  len (buf d) = bufferSize -> 0 <= pos d ->
  rd_data (r d) = block_bytes ss last -> rd_fail (r d) = EOF ->
  fits (pos d) ss last = true ->
  decode1_loop (length ss + S k) d =
  Done (None, w d ++ expand (firstn (Z.to_nat (pos d)) (buf d)) ss last).
Proof.
  induction ss as [|s t IH]; intros k d LB Hp Hd Hfl Hv; cbn [fits] in Hv.
  - cbn [length Nat.add expand]. apply Z.leb_le in Hv.
    apply last_block_step; assumption.
  - rewrite !andb_true_iff in Hv. destruct Hv as [[[[H1 H2] H3] H4] H5].
    apply Z.leb_le in H1, H2, H4. apply Z.ltb_lt in H3.
    pose proof (len_nonneg (s_lits s)) as Hn.
    assert (Hb : pos d + len (s_lits s) + 4 + s_ml s <= bufferSize)
      by (apply (fits_bound t _ last H5); lia).
    cbn [length Nat.add]. rewrite decode1_loop_S.
    destruct (sequence_step d s (block_bytes t last)) as (b & ref' & E & Lb & Fb);
      try assumption; try lia.
    rewrite E. cbn [bind].
    rewrite IH; cbn [r w buf pos ref rd_data rd_fail];
      [ cbn [expand]; rewrite Fb; reflexivity
      | try assumption; try lia; try reflexivity .. ].
Qed.

Lemma block_bytes_length (last : list Z) (ss : list sequence) :
  (length ss < length (block_bytes ss last))%nat.
Proof.
  induction ss as [|s t IH]; cbn [block_bytes length].
  - unfold last_block. cbn [length]. lia.
  - unfold serialize. cbn [app length]. rewrite length_app. lia.
Qed.

(** [decode1] on a block, in a buffer of any content *)
Lemma block_decode_in (b0 : list Z) (ss : list sequence) (last : list Z) :
  len b0 = bufferSize ->
  fits 0 ss last = true ->
  decode1_loop (S (length (block_bytes ss last)))
    (mkDecoder (mkReader (block_bytes ss last) EOF) [] b0 0 0)
  = Done (None, expand [] ss last).
Proof.
  intros LB Hf.
  pose proof (block_bytes_length last ss) as Hlen.
  replace (S (length (block_bytes ss last)))
    with (length ss + S (length (block_bytes ss last) - length ss))%nat by lia.
  rewrite (block_loop last ss); cbn [r w buf pos ref rd_data rd_fail].
  - change (Z.to_nat 0) with 0%nat. cbn [app firstn]. reflexivity.
  - exact LB.
  - lia.
  - reflexivity.
  - reflexivity.
  - exact Hf.
Qed.

Lemma block_decode (ss : list sequence) (last : list Z) :
  fits 0 ss last = true ->
  decode1 (mkReader (block_bytes ss last) EOF) = Done (None, expand [] ss last).
Proof.
  intros Hf. unfold decode1. cbn [rd_data].
  apply block_decode_in; [|exact Hf].
  unfold len. rewrite repeat_length. apply Z2Nat.id. vm_compute. discriminate.
Qed.

Lemma expand_last (ss : list sequence) : forall out last,
  expand out ss last = expand out ss [] ++ last.
Proof.
  induction ss as [|s t IH]; intros out last; cbn [expand].
  - rewrite app_nil_r. reflexivity.
  - apply IH.
Qed.

Lemma expand_snoc (ss : list sequence) (s : sequence) : forall out,
  expand out (ss ++ [s]) [] =
  extend (Z.to_nat (4 + s_ml s)) (expand out ss [] ++ s_lits s) (Z.to_nat (s_back s)).
Proof.
  induction ss as [|a t IH]; intros out; cbn [expand app].
  - rewrite !app_nil_r. reflexivity.
  - apply IH.
Qed.

Lemma block_bytes_concat (ss : list sequence) (last : list Z) :
  block_bytes ss last = concat (map serialize ss) ++ last_block last.
Proof.
  induction ss as [|s t IH]; cbn [block_bytes map concat app]; [reflexivity|].
  rewrite IH, app_assoc. reflexivity.
Qed.

Lemma fits_snoc (ss : list sequence) (s : sequence) : forall out,
  fits (len out) ss [] = true ->
  1 <= s_back s <= len (expand out ss []) + len (s_lits s) -> s_back s < 65536 ->
  0 <= s_ml s ->
  len (expand out ss []) + len (s_lits s) + 4 + s_ml s <= bufferSize ->
  fits (len out) (ss ++ [s]) [] = true.
Proof.
  induction ss as [|a t IH]; intros out Hf Hb Hb' Hm Ht; cbn [fits expand app] in *.
  - rewrite app_nil_r in *. change (len (@nil Z)) with 0. rewrite Z.add_0_r.
    rewrite !andb_true_iff. repeat split;
      try (apply Z.leb_le; lia); apply Z.ltb_lt; lia.
  - rewrite !andb_true_iff in *. destruct Hf as [[[[H1 H2] H3] H4] H5].
    repeat split; try assumption.
    apply Z.leb_le in H4.
    set (out' := extend (Z.to_nat (4 + s_ml a)) (out ++ s_lits a) (Z.to_nat (s_back a))) in *.
    assert (L : len out' = len out + len (s_lits a) + 4 + s_ml a).
    { unfold out', len. rewrite extend_length, length_app. lia. }
    rewrite <- L in *. apply IH; assumption.
Qed.

Lemma fits_last (ss : list sequence) (last : list Z) : forall out,
  fits (len out) ss [] = true ->
  len (expand out ss []) + len last <= bufferSize ->
  fits (len out) ss last = true.
Proof.
  induction ss as [|a t IH]; intros out Hf Ht; cbn [fits expand] in *.
  - rewrite app_nil_r in Ht. apply Z.leb_le. exact Ht.
  - rewrite !andb_true_iff in *. destruct Hf as [[[[H1 H2] H3] H4] H5].
    repeat split; try assumption.
    apply Z.leb_le in H4.
    set (out' := extend (Z.to_nat (4 + s_ml a)) (out ++ s_lits a) (Z.to_nat (s_back a))) in *.
    assert (L : len out' = len out + len (s_lits a) + 4 + s_ml a).
    { unfold out', len. rewrite extend_length, length_app. lia. }
    rewrite <- L in *. apply IH; assumption.
Qed.

(** appending by copy what the source already has there *)
Lemma extend_copies (src : list Z) (back : nat) (n : nat) : forall p : nat,
  (1 <= back <= p)%nat -> (p + n <= length src)%nat ->
  (forall j, (p <= j < p + n)%nat -> nth j src 0 = nth (j - back) src 0) ->
  extend n (firstn p src) back = firstn (p + n) src.
Proof.
  induction n as [|n IH]; intros p Hb Hl Hc; cbn [extend].
  - rewrite Nat.add_0_r. reflexivity.
  - rewrite length_firstn. replace (Nat.min p (length src)) with p by lia.
    rewrite nth_firstn.
    replace (p - back <? p)%nat with true by (symmetry; apply Nat.ltb_lt; lia).
    rewrite <- (Hc p) by lia.
    replace (firstn p src ++ [nth p src 0]) with (firstn (S p) src).
    + rewrite IH; [f_equal; lia | lia | lia | intros j Hj; apply Hc; lia].
    + clear - Hl. revert p Hl. induction src as [|x t IHs]; intros p Hl; cbn [length] in Hl.
      * lia.
      * destruct p as [|p]; [reflexivity|]. cbn [firstn nth app]. f_equal.
        apply IHs. lia.
Qed.

End BlockFormat.

(** * What [Encode] writes, sequence by sequence *)

Module BlockTrip.

Import Reader Block BlockFacts BlockWrites BlockMatch BlockBound BlockBytes BlockTokens BlockLast BlockSeq BlockRead BlockFormat.
Import ReaderSpec BlockSpec.

(** a turn that rejects its candidate, or rewinds, writes nothing *)
Lemma Encode_iter_quiet (e : encoder) (step limit : Z) (e' : encoder) (s' l' : Z) :
  Encode_iter e step limit = Done (Skip e' s' l')
  \/ Encode_iter e step limit = Done (Rewind e' s' l') ->
  mem e' = mem e /\ src e' = src e /\ dst e' = dst e
  /\ anchor e' = anchor e /\ dpos e' = dpos e.
Proof.
  unfold Encode_iter. intros [H|H];
    (destruct (pos e + 4 >=? slen (src e)); [run_inv H; discriminate|]);
    run_inv H; try discriminate; injection H as <- _ _; cbn; auto.
Qed.

(** the loop that extends a match stops on bytes that agree *)
Lemma extend_loop_matches (fuel : nat) (e : encoder) (rf : Z) :
  0 <= rf < pos e -> pos e <= slen (src e) -> slen (src e) < 4294967296 ->
  slen (src e) - pos e <= Z.of_nat fuel ->
  exists p, extend_loop fuel e rf = Done (set_pos e p, rf + (p - pos e))
            /\ pos e <= p <= slen (src e)
            /\ (forall i, 0 <= i < p - pos e -> src_at e (pos e + i) = src_at e (rf + i)).
Proof.
  revert e rf. induction fuel as [|k IH]; intros e rf Hr Hp Hn Hf; cbn [extend_loop].
  - rewrite ltb_false by lia. exists (pos e). split; [|split; [lia | intros; lia]].
    rewrite Z.sub_diag, Z.add_0_r. destruct e; reflexivity.
  - destruct (Z.ltb_spec (pos e) (slen (src e))).
    + destruct (src_at_ok e (pos e)) as (a & Ea); [lia|]. rewrite Ea. cbn [bind].
      destruct (src_at_ok e rf) as (b & Eb); [lia|]. rewrite Eb. cbn [bind].
      destruct (Z.eqb_spec a b) as [Eab|Eab].
      * rewrite (u32_small (pos e + 1)), (u32_small (rf + 1)) by lia.
        destruct (IH (set_pos e (pos e + 1)) (rf + 1)) as (p & -> & Hq & Hm);
          enc_simpl; try lia.
        exists p. split; [|split; [lia|]].
        -- f_equal. f_equal. lia.
        -- intros i Hi. destruct (Z.eq_dec i 0) as [->|Hi0].
           ++ rewrite !Z.add_0_r, Ea, Eb, Eab. reflexivity.
           ++ specialize (Hm (i - 1) ltac:(lia)).
              replace (pos e + 1 + (i - 1)) with (pos e + i) in Hm by lia.
              replace (rf + 1 + (i - 1)) with (rf + i) in Hm by lia.
              exact Hm.
      * exists (pos e). split; [|split; [lia | intros; lia]].
        rewrite Z.sub_diag, Z.add_0_r. destruct e; reflexivity.
    + exists (pos e). split; [|split; [lia | intros; lia]].
      rewrite Z.sub_diag, Z.add_0_r. destruct e; reflexivity.
Qed.

(** a turn that writes a sequence: what it tested before *)
Lemma Encode_iter_match_inv (e : encoder) (step limit : Z) (e' : encoder) (s' l' : Z) :
  Encode_iter e step limit = Done (Match e' s' l') ->
  exists sq v t1,
    readUint32 e (pos e) = Done sq
    /\ index (hashTable e) (hash sq) = Done v
    /\ Z.shiftr (u32 (pos e - u32 (v + uninitHash))) 16 = 0
    /\ readUint32 e (u32 (v + uninitHash)) = Done sq
    /\ emit_match (mkEncoder (mem e) (src e) (dst e) t1 (pos e) (anchor e) (dpos e))
                  (u32 (v + uninitHash)) = Done e'.
Proof.
  unfold Encode_iter. intros H.
  destruct (pos e + 4 >=? slen (src e)); [run_inv H; discriminate|].
  destruct (readUint32 e (pos e)) as [sq| |] eqn:Es; cbn [bind] in H; try discriminate.
  destruct (index (hashTable e) (hash sq)) as [v| |] eqn:Ev; cbn [bind] in H; try discriminate.
  destruct (store (hashTable e) (hash sq) (u32 (pos e - uninitHash))) as [t1| |] eqn:Et;
    cbn [bind] in H; try discriminate.
  unfold set_hashTable in H. cbn [mem src dst hashTable pos anchor dpos] in H.
  set (e1 := mkEncoder (mem e) (src e) (dst e) t1 (pos e) (anchor e) (dpos e)) in *.
  exists sq, v, t1. split; [first [reflexivity | assumption]|].
  split; [first [reflexivity | assumption]|].
  destruct (Z.eqb_spec (Z.shiftr (u32 (pos e - u32 (v + uninitHash))) 16) 0) as [E16|E16];
    cbn [negb bind] in H.
  2: { destruct (u32 (pos e - anchor e) >? limit); discriminate. }
  change (readUint32 e1 (u32 (v + uninitHash))) with (readUint32 e (u32 (v + uninitHash))) in H.
  destruct (readUint32 e (u32 (v + uninitHash))) as [s2| |] eqn:E2; cbn [bind] in H;
    try discriminate.
  destruct (Z.eqb_spec s2 sq) as [->|Ne]; cbn [negb] in H.
  2: { destruct (u32 (pos e - anchor e) >? limit); discriminate. }
  destruct (step >? 1).
  { run_inv H. discriminate. }
  destruct (emit_match e1 (u32 (v + uninitHash))) as [e2| |] eqn:Em; cbn [bind] in H;
    try discriminate.
  injection H as <- _ _. repeat split; first [reflexivity | assumption].
Qed.

Lemma src_at_nth (S : list Z) (e : encoder) (i : Z) :
  array_of (mem e) (src e) = S -> off (src e) = 0 ->
  0 <= i < slen (src e) -> src_at e i = Done (nth (Z.to_nat i) S 0).
Proof.
  intros HS Ho Hi. unfold src_at, sl_index. rewrite andb_range by lia.
  rewrite HS, Ho, Z.add_0_l. reflexivity.
Qed.

(** two positions where [readUint32] returns the same number hold the
    same four bytes *)
Lemma quad_bytes (S : list Z) (e : encoder) (p q sq : Z) :
  Forall (fun b => 0 <= b < 256) S ->
  array_of (mem e) (src e) = S -> off (src e) = 0 -> slen (src e) = len S ->
  0 <= p -> p + 3 < slen (src e) -> 0 <= q -> q + 3 < slen (src e) ->
  readUint32 e p = Done sq -> readUint32 e q = Done sq ->
  forall i, 0 <= i < 4 -> nth (Z.to_nat (p + i)) S 0 = nth (Z.to_nat (q + i)) S 0.
Proof.
  intros HB HS Ho Hn Hp Hp' Hq Hq' Ep Eq.
  assert (Bt : forall j, 0 <= j < len S -> 0 <= nth (Z.to_nat j) S 0 < 256).
  { intros j Hj. apply (Forall_nth_Z (fun b => 0 <= b < 256)); assumption. }
  assert (At : forall j, 0 <= j < slen (src e) -> src_at e j = Done (nth (Z.to_nat j) S 0))
    by (intros; apply src_at_nth; assumption).
  rewrite (readUint32_le e p _ _ _ _ ltac:(lia) (At p ltac:(lia)) (At (p + 1) ltac:(lia))
             (At (p + 2) ltac:(lia)) (At (p + 3) ltac:(lia))) in Ep
    by (apply Bt; lia).
  rewrite (readUint32_le e q _ _ _ _ ltac:(lia) (At q ltac:(lia)) (At (q + 1) ltac:(lia))
             (At (q + 2) ltac:(lia)) (At (q + 3) ltac:(lia))) in Eq
    by (apply Bt; lia).
  rewrite <- Eq in Ep.
  assert (E' := f_equal (fun x => match x with Done v => v | _ => 0 end) Ep).
  cbv beta iota in E'. clear Ep Eq.
  apply little_endian32_inj in E'; try (apply Bt; lia).
  destruct E' as (E0 & E1 & E2 & E3).
  intros i Hi.
  assert (C : i = 0 \/ i = 1 \/ i = 2 \/ i = 3) by lia.
  destruct C as [-> | [-> | [-> | ->]]]; rewrite ?Z.add_0_r; assumption.
Qed.

Lemma firstn_firstn_skipn (S : list Z) (a n : nat) :
  firstn a S ++ firstn n (skipn a S) = firstn (a + n) S.
Proof.
  revert S. induction a as [|a IH]; intros S; cbn [firstn skipn app Nat.add]; [reflexivity|].
  destruct S as [|x t]; cbn [firstn skipn app]; [now rewrite firstn_nil|].
  f_equal. apply IH.
Qed.

(** a turn that writes a sequence keeps the account of what is written *)
Lemma match_turn (S : list Z) (e : encoder) (step limit : Z) (ss : list sequence)
      (e' : encoder) (s' l' : Z) :
  Forall (fun b => 0 <= b < 256) S -> len S <= bufferSize ->
  Inv e step limit -> Content S e ss ->
  Encode_iter e step limit = Done (Match e' s' l') ->
  exists s, Content S e' (ss ++ [s]).
Proof.
  intros HB HL HI HC H.
  assert (MX : MaxInputSize = 2113929216) by reflexivity.
  assert (UH : uninitHash = 2290649224) by reflexivity.
  assert (BS : bufferSize = 131072) by reflexivity.
  pose proof (Encode_iter_ok e step limit HI) as T. rewrite H in T. cbn [turn_ok] in T.
  destruct T as (Hlt & _).
  destruct (Encode_iter_match_inv e step limit e' s' l' H)
    as (sq & v & t1 & Esq & Ev & E16 & Erf & Em).
  destruct HI as [Hn Hsc Hroom Hdc Ha [Hs1 Hs2] Hl [Hp1 Hp2] [Hd1 Hd2] Htl Ht].
  destruct HC as [WD WS Hne Hos Hod HS HnS Hby Hex Hfit].
  set (rf := u32 (v + uninitHash)) in *.
  pose proof (u32_range (v + uninitHash)) as Hrf0. fold rf in Hrf0.
  assert (Hv : slot_ok (pos e) step v).
  { pose proof (StreamTable.index_Done _ _ _ Ev) as Hi.
    rewrite ReaderLiterals.index_in_range in Ev by exact Hi. injection Ev as <-.
    apply Forall_nth_Z; assumption. }
  assert (Hrf : rf + step <= pos e).
  { destruct Hv as [Hu|Hu]; fold rf in Hu; [exfalso | exact Hu].
    rewrite Hu in E16. rewrite u32_wrap_neg in E16 by lia.
    pose proof (shiftr16_zero (pos e - uninitHash + 4294967296) ltac:(lia)) as Z16.
    rewrite E16 in Z16. rewrite ltb_false in Z16 by lia. discriminate Z16. }
  assert (Hback : pos e - rf < 65536).
  { rewrite u32_small in E16 by lia.
    pose proof (shiftr16_zero (pos e - rf) ltac:(lia)) as Z16.
    rewrite E16 in Z16. symmetry in Z16. apply Z.ltb_lt in Z16. exact Z16. }
  (* the match is extended *)
  unfold emit_match, minMatch in Em. cbv zeta in Em.
  unfold set_anchor, set_pos in Em. cbn [mem src dst hashTable pos anchor dpos] in Em.
  rewrite (u32_small (pos e + 4)), (u32_small (rf + 4)), (u32_small (pos e - anchor e)),
    (u32_small (pos e - rf)) in Em by lia.
  match type of Em with context [extend_loop ?f ?x ?y] =>
    destruct (extend_loop_matches f x y) as (p & Ex & Hpq & Hm);
      cbn [mem src dst hashTable pos anchor dpos] in *; try lia
  end.
  rewrite Ex in Em. cbn [bind] in Em.
  unfold set_pos in Em. cbn [mem src dst hashTable pos anchor dpos] in Em.
  set (l := pos e - anchor e) in *. set (ml := p - (pos e + 4)).
  pose proof (ext_cost_bound l ltac:(lia)) as [El0 El1].
  pose proof (ext_cost_bound ml ltac:(unfold ml; lia)) as [Em0 Em1].
  assert (Em2 : ml < 15 -> ext_cost ml = 0)
    by (intros; unfold ext_cost; rewrite ltb_true by lia; reflexivity).
  assert (Q : 255 * (slen (src e) / 255) <= slen (src e) < 255 * (slen (src e) / 255) + 255)
    by (Z.div_mod_to_equations; lia).
  assert (Bd : 255 * (dpos e + lit_cost l + 2 + ext_cost ml) <= 256 * p).
  { unfold lit_cost, ml in *. destruct (Z.ltb_spec (p - (pos e + 4)) 15);
      [rewrite Em2 by lia | ]; lia. }
  rewrite write_match_content in Em;
    cbn [mem src dst hashTable pos anchor dpos]; fold ml; try assumption; try lia.
  injection Em as <-.
  set (lits := firstn (Z.to_nat l) (skipn (Z.to_nat (off (src e) + anchor e))
                                          (array_of (mem e) (src e)))).
  exists (mkSeq lits (pos e - rf) ml).
  match goal with |- Content _ (mkEncoder (put_bytes _ _ _ ?b) _ _ _ _ _ _) _ =>
    set (B := b) end.
  assert (Ll : len lits = l).
  { unfold lits, len. rewrite length_firstn, length_skipn, HS, Hos.
    unfold len in HnS. unfold l in *. lia. }
  assert (Elits : lits = firstn (Z.to_nat l) (skipn (Z.to_nat (anchor e)) S)).
  { unfold lits. rewrite HS, Hos, Z.add_0_l. reflexivity. }
  assert (EB : B = serialize (mkSeq lits (pos e - rf) ml)).
  { unfold B, serialize. cbn [s_lits s_back s_ml]. rewrite Ll. fold ml. fold lits.
    rewrite <- app_assoc. cbn [app]. do 3 f_equal.
    unfold u8. rewrite Z.shiftr_div_pow2 by lia. change (2 ^ 8) with 256.
    rewrite (Z.mod_small ((pos e - rf) / 256)) by (Z.div_mod_to_equations; lia).
    reflexivity. }
  assert (LBn : len B = lit_cost l + 2 + ext_cost ml).
  { unfold B. fold ml. fold lits. len_norm.
    rewrite !ext_bytes_length by (unfold ml; lia). unfold lit_cost. lia. }
  pose proof WD as (D1 & D2 & D3 & D4). pose proof WS as (S1' & S2' & S3' & S4').
  assert (Hroom' : dpos e + len B <= slen (dst e)) by lia.
  constructor; cbn [mem src dst hashTable pos anchor dpos].
  - apply wf_put; [lia | lia | exact WD].
  - apply wf_put; [lia | lia | exact WS].
  - exact Hne.
  - exact Hos.
  - exact Hod.
  - rewrite array_of_put_other by exact Hne. exact HS.
  - exact HnS.
  - rewrite array_of_put_same by exact D1. rewrite Hod, Z.add_0_l. fold ml.
    replace (Z.to_nat (dpos e + (lit_cost l + 2 + ext_cost ml)))
      with (Z.to_nat (dpos e) + length B)%nat by (unfold len in LBn; lia).
    rewrite firstn_splice by (unfold len in *; lia).
    rewrite Hby, map_app, concat_app. cbn [map concat]. rewrite app_nil_r, EB. reflexivity.
  - rewrite expand_snoc. cbn [s_lits s_back s_ml]. rewrite Hex, Elits.
    rewrite firstn_firstn_skipn.
    replace (Z.to_nat (anchor e) + Z.to_nat l)%nat with (Z.to_nat (pos e)) by (unfold l; lia).
    replace (Z.to_nat p) with (Z.to_nat (pos e) + Z.to_nat (4 + ml))%nat by (unfold ml; lia).
    apply extend_copies.
    + lia.
    + unfold len in HnS. unfold ml. lia.
    + intros j Hj.
      replace (j - Z.to_nat (pos e - rf))%nat with (Z.to_nat (rf + (Z.of_nat j - pos e)))
        by lia.
      replace j with (Z.to_nat (pos e + (Z.of_nat j - pos e))) at 1 by lia.
      set (i := Z.of_nat j - pos e). assert (Hi : 0 <= i < 4 + ml) by (unfold i; lia).
      destruct (Z.ltb_spec i 4) as [H4|H4].
      * apply (quad_bytes S e (pos e) rf sq); try assumption; lia.
      * specialize (Hm (i - 4) ltac:(unfold ml in Hi; lia)).
        unfold src_at in Hm. cbn [mem src] in Hm. fold (src_at e (pos e + 4 + (i - 4))) in Hm.
        fold (src_at e (rf + 4 + (i - 4))) in Hm.
        rewrite !(src_at_nth S) in Hm by (try assumption; unfold ml in Hi; lia).
        injection Hm as Hm.
        replace (pos e + 4 + (i - 4)) with (pos e + i) in Hm by lia.
        replace (rf + 4 + (i - 4)) with (rf + i) in Hm by lia. exact Hm.
  - change 0 with (len (@nil Z)). apply fits_snoc; cbn [s_lits s_back s_ml].
    + exact Hfit.
    + rewrite Hex, Ll. unfold len. rewrite length_firstn. unfold len in HnS. unfold l. lia.
    + exact Hback.
    + unfold ml. lia.
    + rewrite Hex, Ll. unfold len. rewrite length_firstn. unfold len in HnS, HL.
      unfold l, ml. lia.
Qed.

Lemma Encode_loop_content (S : list Z) (fuel : nat) :
  Forall (fun b => 0 <= b < 256) S -> len S <= bufferSize ->
  forall (e : encoder) (step limit : Z) (ss : list sequence),
  Inv e step limit -> Content S e ss -> mu e step <= Z.of_nat fuel ->
  exists h out ss' last,
    Encode_loop fuel e step limit = Done (h, out)
    /\ bytes_of h out = block_bytes ss' last
    /\ expand [] ss' last = S
    /\ fits 0 ss' last = true.
Proof.
  intros HB HL. induction fuel as [|k IH]; intros e step limit ss HI HC Hmu.
  - exfalso. destruct HI. unfold mu in Hmu. destruct (step >? 1); lia.
  - cbn [Encode_loop]. pose proof (Encode_iter_ok e step limit HI) as T.
    destruct (Encode_iter e step limit) as [[h out|e' s' l'|e' s' l'|e' s' l']| |] eqn:Et;
      cbn [turn_ok] in T; try contradiction; cbn [bind].
    + (* the last literals *)
      destruct T as (Hlast & _).
      assert (MX : MaxInputSize = 2113929216) by reflexivity.
      destruct HI as [Hn Hsc Hroom Hdc Ha [Hs1 Hs2] Hl [Hp1 Hp2] [Hd1 Hd2] Htl Ht].
      destruct HC as [WD WS Hne Hos Hod HS HnS Hby Hex Hfit].
      pose proof WD as (D1 & D2 & D3 & D4).
      set (l := slen (src e) - anchor e).
      assert (Q : 0 <= l / 255 /\ 0 <= anchor e / 255
                  /\ anchor e / 255 + l / 255 <= slen (src e) / 255)
        by (unfold l; Z.div_mod_to_equations; lia).
      assert (Q' : 255 * (anchor e / 255) <= anchor e < 255 * (anchor e / 255) + 255)
        by (Z.div_mod_to_equations; lia).
      assert (Q'' : slen (src e) / 255 <= slen (src e)) by (Z.div_mod_to_equations; lia).
      destruct (last_literals e step limit) as (h' & out' & E' & Hb');
        try assumption; fold l; try lia.
      rewrite Et in E'. injection E' as <- <-.
      exists h, out, ss, (skipn (Z.to_nat (anchor e)) S).
      split; [reflexivity|].
      assert (Ll : len (skipn (Z.to_nat (anchor e)) S) = l).
      { unfold len. rewrite length_skipn. unfold len in HnS. unfold l. lia. }
      split; [|split].
      * rewrite Hb', block_bytes_concat. unfold bytes_of. rewrite Hos, Hod, HS.
        change (Z.to_nat 0) with 0%nat. cbn [skipn].
        rewrite firstn_firstn. replace (Nat.min (Z.to_nat (dpos e)) (Z.to_nat (slen (dst e))))
          with (Z.to_nat (dpos e)) by lia.
        rewrite Hby. unfold last_block. rewrite Ll. fold l.
        rewrite (firstn_all2 (n := Z.to_nat (slen (src e)))) by (unfold len in HnS; lia).
        reflexivity.
      * rewrite expand_last, Hex. apply firstn_skipn.
      * change 0 with (len (@nil Z)). apply fits_last; [exact Hfit|].
        rewrite Hex, Ll. unfold len. rewrite length_firstn. unfold len in HnS, HL.
        unfold l. lia.
    + destruct T as (_ & (HI' & _ & _ & _ & M) & _).
      destruct (Encode_iter_quiet e step limit e' s' l' (or_introl Et))
        as (Em & Es & Ed & Ea & Edp).
      apply (IH e' s' l' ss HI'); [|lia].
      destruct HC. constructor; rewrite ?Em, ?Es, ?Ed, ?Ea, ?Edp; assumption.
    + destruct T as (_ & (HI' & _ & _ & _ & M) & _).
      destruct (Encode_iter_quiet e step limit e' s' l' (or_intror Et))
        as (Em & Es & Ed & Ea & Edp).
      apply (IH e' s' l' ss HI'); [|lia].
      destruct HC. constructor; rewrite ?Em, ?Es, ?Ed, ?Ea, ?Edp; assumption.
    + destruct T as (_ & (HI' & _ & _ & _ & M)).
      destruct (match_turn S e step limit ss e' s' l' HB HL HI HC Et) as (s & HC').
      apply (IH e' s' l' _ HI' HC'). lia.
Qed.

End BlockTrip.

(** * The round trip of the block encoder *)

Module BlockRoundTrip.

Import Reader Block BlockFacts BlockWrites BlockMatch BlockBound BlockBytes BlockTokens BlockLast BlockSeq BlockFormat BlockTrip.
Import ReaderSpec BlockSpec.

Lemma Encode_loop_trip (s ht : list Z) :
  let n := len s in
  let cb := n + n ÷ 255 + 16 in
  Forall (fun b => 0 <= b < 256) s -> n <= bufferSize ->
  len ht = hashTableSize -> Forall (slot_ok 0 1) ht ->
  exists h out ss last,
    Encode_loop (Z.to_nat (2 * n + 4))
      (mkEncoder [s; repeat 0 (Z.to_nat cb)] (mkSlice 0 0 n n) (mkSlice 1 0 cb cb) ht 0 0 0)
      1 incompressible = Done (h, out)
    /\ bytes_of h out = block_bytes ss last
    /\ expand [] ss last = s
    /\ fits 0 ss last = true.
Proof.
  intros n cb HB HL Lh Ht.
  assert (MX : MaxInputSize = 2113929216) by reflexivity.
  assert (BS : bufferSize = 131072) by reflexivity.
  pose proof (len_nonneg s) as Hn. fold n in Hn.
  assert (Hq : 0 <= n ÷ 255 /\ n ÷ 255 = n / 255)
    by (rewrite Z.quot_div_nonneg by lia; split; [apply Z.div_pos; lia | reflexivity]).
  set (z := repeat 0 (Z.to_nat cb)).
  assert (Lz : len z = cb) by (unfold z, len; rewrite repeat_length; unfold cb; lia).
  apply (Encode_loop_content s _ HB HL _ 1 incompressible []).
  - constructor; cbn [mem src dst hashTable pos anchor dpos slen scap];
      unfold incompressible; try assumption; try (unfold cb; lia).
  - constructor; cbn [mem src dst hashTable pos anchor dpos slen scap arr off];
      try reflexivity; try lia.
    + unfold wf_slice, array_of. cbn [arr off slen scap nth length]. unfold cb in *. lia.
    + unfold wf_slice, array_of. cbn [arr off slen scap nth length]. fold n. lia.
  - unfold mu. cbn [src slen pos]. rewrite (gtb_false 1 1) by lia. lia.
Qed.

(** Every input of at most [bufferSize] bytes makes the round trip:
    [Encode] returns a block, and [decode1] decodes that block back to the
    input, with no error. *)
Theorem Encode_round_trip (s : list Z) :
  Forall (fun b => 0 <= b < 256) s -> len s <= bufferSize ->
  exists z, Encode_bytes s = Done z /\ decode1 (mkReader z EOF) = Done (None, s).
Proof.
  intros HB HL.
  assert (MX : MaxInputSize = 2113929216) by reflexivity.
  assert (BS : bufferSize = 131072) by reflexivity.
  pose proof (len_nonneg s) as Hn.
  unfold Encode_bytes, Encode. cbn [slen].
  rewrite geb_false by lia. rewrite CompressBound_small by lia.
  assert (Hq : 0 <= len s ÷ 255) by (rewrite Z.quot_div_nonneg by lia; apply Z.div_pos; lia).
  rewrite ltb_true by lia. unfold make. cbv zeta. cbn [length app].
  destruct (Encode_loop_trip s (repeat 0 (Z.to_nat hashTableSize)) HB HL)
    as (h & out & ss & last & E & Hb & Hx & Hf).
  - unfold len. rewrite repeat_length. apply Z2Nat.id. vm_compute. discriminate.
  - apply repeat_Forall. left. vm_compute. reflexivity.
  - cbv zeta in E. rewrite E. cbn [bind]. exists (bytes_of h out).
    split; [reflexivity|]. rewrite Hb, block_decode by exact Hf. rewrite Hx. reflexivity.
Qed.

Lemma Encode_round_trip_witness :
  exists z, Encode_bytes [1; 2; 3; 4; 1; 2; 3; 4; 1; 2; 3; 4; 5] = Done z
            /\ decode1 (mkReader z EOF) = Done (None, [1; 2; 3; 4; 1; 2; 3; 4; 1; 2; 3; 4; 5]).
Proof.
  apply (Encode_round_trip [1; 2; 3; 4; 1; 2; 3; 4; 1; 2; 3; 4; 5]).
  - repeat constructor; lia.
  - vm_compute. discriminate.
Defined.

(** [decode1] decodes a block to what its sequences stand for: the
    literals of each one, followed by its match copied byte by byte from
    [offset] bytes back, and the literals of the last token; as long as
    every offset points into what is already decoded and the whole fits in
    the buffer. *)
Theorem block_decoded (ss : list sequence) (last : list Z) :
  fits 0 ss last = true ->
  decode1 (mkReader (block_bytes ss last) EOF) = Done (None, expand [] ss last).
Proof. exact (block_decode ss last). Qed.

Lemma block_decoded_witness :
  decode1 (mkReader (block_bytes [mkSeq [97; 98] 2 1; mkSeq [99] 1 16] [100]) EOF)
  = Done (None, expand [] [mkSeq [97; 98] 2 1; mkSeq [99] 1 16] [100]).
Proof.
  apply (block_decoded [mkSeq [97; 98] 2 1; mkSeq [99] 1 16] [100]).
  vm_compute. reflexivity.
Defined.

End BlockRoundTrip.
